(** * Auto-mode routes and scheduler of automaker

    A shallow embedding of the three auto-mode HTTP handlers
    ([routes/auto-mode/routes/start.ts], [stop.ts], [status.ts]) together
    with a model of the scheduler they drive.

    The handlers are ordinary JavaScript closures over an
    [AutoModeService] object.  They are embedded as computations in a
    small state-and-exception monad whose state records the service
    state, the sequence of service calls made so far, the logger output
    and the Express response object. *)

From Stdlib Require Import ZArith String Ascii List Bool Lia DecimalString.
From stdpp Require Import gmap strings list fin_maps.
Import ListNotations.

Set Warnings "-register-all".

Local Open Scope string_scope.
Local Open Scope Z_scope.

(** ** JavaScript values *)

Module JS.

(** Values as they arrive in [req.body] after JSON parsing, and as they
    are handed to [res.json].  Numbers that occur in these handlers are
    counts and ceilings; they are carried as integers. *)
Inductive JSVal : Type :=
| VUndefined
| VNull
| VBool (b : bool)
| VNum (n : Z)
| VStr (s : string)
| VArr (xs : list JSVal)
| VObj (fields : list (string * JSVal)).

(** A JavaScript object: own enumerable properties in insertion order. *)
Definition Obj : Type := list (string * JSVal).

(** What a [throw] carries: an [Error] instance or any other value. *)
Inductive Thrown : Type :=
| JsError (name message : string)
| ThrownValue (v : JSVal).

(** ToBoolean: the test done by [if (x)], [!x] and [x ? a : b]. *)
Definition truthy (v : JSVal) : bool :=
  match v with
  | VUndefined | VNull => false
  | VBool b => b
  | VNum n => negb (n =? 0)
  | VStr s => negb (String.eqb s "")
  | VArr _ | VObj _ => true
  end.

(** [a ?? b] *)
Definition nullish (a b : JSVal) : JSVal :=
  match a with
  | VUndefined | VNull => b
  | _ => a
  end.

Definition num_to_string (n : Z) : string :=
  NilZero.string_of_int (Z.to_int n).

(** ToString, as used by template literals [`${x}`]. *)
Fixpoint to_string (v : JSVal) : string :=
  match v with
  | VUndefined => "undefined"
  | VNull => "null"
  | VBool true => "true"
  | VBool false => "false"
  | VNum n => num_to_string n
  | VStr s => s
  | VArr xs =>
      (fix join (l : list JSVal) : string :=
         match l with
         | [] => ""
         | x :: rest =>
             let here :=
               match x with
               | VUndefined | VNull => ""
               | _ => to_string x
               end in
             match rest with
             | [] => here
             | _ :: _ => here +:+ "," +:+ join rest
             end
         end) xs
  | VObj _ => "[object Object]"
  end.

(** Own-property lookup in an object. *)
Fixpoint obj_get (o : Obj) (k : string) : JSVal :=
  match o with
  | [] => VUndefined
  | (k', v) :: rest => if String.eqb k' k then v else obj_get rest k
  end.

Fixpoint obj_has (o : Obj) (k : string) : bool :=
  match o with
  | [] => false
  | (k', _) :: rest => String.eqb k' k || obj_has rest k
  end.

(** Defining a property: an existing key keeps its position and takes the
    new value, a new key is appended. *)
Fixpoint obj_set (o : Obj) (k : string) (v : JSVal) : Obj :=
  match o with
  | [] => [(k, v)]
  | (k', v') :: rest =>
      if String.eqb k' k then (k', v) :: rest else (k', v') :: obj_set rest k v
  end.

(** An object literal [{ k1: v1, ...spread, k2: v2 }] is evaluated left to
    right; every entry, spread or not, is a sequence of property
    definitions. *)
Definition obj_literal (entries : list (string * JSVal)) : Obj :=
  fold_left (fun o kv => obj_set o (fst kv) (snd kv)) entries [].

(** [v.k] for the keys these handlers read ([projectPath], [branchName],
    [maxConcurrency]): only plain objects can have them. *)
Definition get_prop (v : JSVal) (k : string) : JSVal :=
  match v with
  | VObj o => obj_get o k
  | _ => VUndefined
  end.

(** Destructuring [const { ... } = v] throws a TypeError when [v] is
    [undefined] or [null]. *)
Definition object_coercible (v : JSVal) : bool :=
  match v with
  | VUndefined | VNull => false
  | _ => true
  end.

End JS.
Export JS.

(** ** The service interface and the handler monad *)

Module Routes.

(** Result of an operation that may throw. *)
Inductive Outcome (A : Type) : Type :=
| Ok (a : A)
| Throw (e : Thrown).
Arguments Ok {A} a.
Arguments Throw {A} e.

(** What [getStatusForProject] returns. *)
Record ProjectStatus : Type := {
  isAutoLoopRunning : bool;
  runningFeatures : list string;
  runningCount : Z;
  maxConcurrency : Z
}.

(** The methods of [AutoModeService] that the three handlers use.  The
    class itself lives in [services/auto-mode-service.ts]; the handlers
    only see this interface.  Each method receives its arguments as the
    handler passes them, acts on the service state and either returns or
    throws (for the two asynchronous methods: resolves or rejects, which
    [await] turns into a throw). *)
Class AutoModeService (S : Type) : Type := {
  isAutoLoopRunningForProject : JSVal -> JSVal -> S -> Outcome bool * S;
  startAutoLoopForProject : JSVal -> JSVal -> JSVal -> S -> Outcome Z * S;
  stopAutoLoopForProject : JSVal -> JSVal -> S -> Outcome Z * S;
  getStatusForProject : JSVal -> JSVal -> S -> Outcome ProjectStatus * S;
  getStatus : S -> Outcome Obj * S;
  getActiveAutoLoopProjects : S -> Outcome JSVal * S;
  getActiveAutoLoopWorktrees : S -> Outcome JSVal * S
}.

(** [getErrorMessage] of [routes/auto-mode/common.ts]. *)
Class Common : Type := {
  getErrorMessage : Thrown -> string
}.

(** One invocation of a service method, with its arguments. *)
Inductive Call : Type :=
| CIsAutoLoopRunningForProject (projectPath branchName : JSVal)
| CStartAutoLoopForProject (projectPath branchName maxConcurrency : JSVal)
| CStopAutoLoopForProject (projectPath branchName : JSVal)
| CGetStatusForProject (projectPath branchName : JSVal)
| CGetStatus
| CGetActiveAutoLoopProjects
| CGetActiveAutoLoopWorktrees.

(** A call as it is recorded: the method, and the exception if it threw. *)
Definition CallRecord : Type := (Call * option Thrown)%type.

Inductive LogLine : Type :=
| LogInfo (message : string)
| LogError (error : Thrown) (context : string).

(** The Express response object: [res.status(n)] stores the code (200
    until set), [res.json(o)] sends the body. *)
Record Response : Type := {
  statusCode : Z;
  body : option Obj
}.

Definition fresh_response : Response := {| statusCode := 200; body := None |}.

Record World (S : Type) : Type := {
  service : S;
  calls : list CallRecord;
  logs : list LogLine;
  res : Response
}.
Arguments service {S} w.
Arguments calls {S} w.
Arguments logs {S} w.
Arguments res {S} w.
Arguments Build_World {S} _ _ _ _.

Definition M (S A : Type) : Type := World S -> Outcome A * World S.

Definition ret {S A} (a : A) : M S A := fun w => (Ok a, w).

Definition bind {S A B} (c : M S A) (k : A -> M S B) : M S B :=
  fun w =>
    match c w with
    | (Ok a, w') => k a w'
    | (Throw e, w') => (Throw e, w')
    end.

Definition throw {S A} (e : Thrown) : M S A := fun w => (Throw e, w).

(** [try { body } catch (error) { handler }] *)
Definition try_catch {S A} (body : M S A) (handler : Thrown -> M S A) : M S A :=
  fun w =>
    match body w with
    | (Ok a, w') => (Ok a, w')
    | (Throw e, w') => handler e w'
    end.

Notation "'let!' x ':=' c 'in' k" := (bind c (fun x => k))
  (at level 10, x name, c at level 100, k at level 200).
Notation "c ';;;' k" := (bind c (fun _ => k))
  (at level 100, k at level 200, right associativity).

(** Invoking a service method: run it on the service state, record the
    call, and pass on its result or exception. *)
Definition invoke {S A} (c : Call) (method : S -> Outcome A * S) : M S A :=
  fun w =>
    let '(r, s') := method (service w) in
    let thrown := match r with Ok _ => None | Throw e => Some e end in
    (r, {| service := s'; calls := calls w ++ [(c, thrown)];
           logs := logs w; res := res w |}).

Definition res_status {S} (code : Z) : M S unit :=
  fun w => (Ok tt, {| service := service w; calls := calls w; logs := logs w;
                      res := {| statusCode := code; body := body (res w) |} |}).

Definition res_json {S} (o : Obj) : M S unit :=
  fun w => (Ok tt, {| service := service w; calls := calls w; logs := logs w;
                      res := {| statusCode := statusCode (res w); body := Some o |} |}).

Definition logger_info {S} (message : string) : M S unit :=
  fun w => (Ok tt, {| service := service w; calls := calls w;
                      logs := logs w ++ [LogInfo message]; res := res w |}).

Definition logError {S} (error : Thrown) (context : string) : M S unit :=
  fun w => (Ok tt, {| service := service w; calls := calls w;
                      logs := logs w ++ [LogError error context]; res := res w |}).

(** [const { ... } = req.body] *)
Definition destructure {S} (v : JSVal) : M S unit :=
  if object_coercible v then ret tt
  else throw (JsError "TypeError" "Cannot destructure property of req.body").

Section Handlers.
Context {S : Type} `{AutoModeService S} `{Common}.

(** [createStartHandler(autoModeService)], applied to [req.body]. *)
Definition createStartHandler (req_body : JSVal) : M S unit :=
  try_catch
    (destructure req_body ;;;
     let projectPath := get_prop req_body "projectPath" in
     let branchName := get_prop req_body "branchName" in
     let maxConcurrency := get_prop req_body "maxConcurrency" in
     if negb (truthy projectPath) then
       res_status 400 ;;;
       res_json (obj_literal [("success", VBool false);
                              ("error", VStr "projectPath is required")])
     else
       let normalizedBranchName := nullish branchName VNull in
       let worktreeDesc :=
         if truthy normalizedBranchName
         then "worktree " +:+ to_string normalizedBranchName
         else "main worktree" in
       let! running :=
         invoke (CIsAutoLoopRunningForProject projectPath normalizedBranchName)
                (isAutoLoopRunningForProject projectPath normalizedBranchName) in
       if running then
         res_json (obj_literal
           [("success", VBool true);
            ("message", VStr ("Auto mode is already running for " +:+ worktreeDesc));
            ("alreadyRunning", VBool true);
            ("branchName", normalizedBranchName)])
       else
         let! resolvedMaxConcurrency :=
           invoke (CStartAutoLoopForProject projectPath normalizedBranchName maxConcurrency)
                  (startAutoLoopForProject projectPath normalizedBranchName maxConcurrency) in
         logger_info ("Started auto loop for " +:+ worktreeDesc +:+ " in project: "
                      +:+ to_string projectPath +:+ " with maxConcurrency: "
                      +:+ num_to_string resolvedMaxConcurrency) ;;;
         res_json (obj_literal
           [("success", VBool true);
            ("message", VStr ("Auto mode started with max "
                              +:+ num_to_string resolvedMaxConcurrency
                              +:+ " concurrent features"));
            ("branchName", normalizedBranchName)]))
    (fun error =>
       logError error "Start auto mode failed" ;;;
       res_status 500 ;;;
       res_json (obj_literal [("success", VBool false);
                              ("error", VStr (getErrorMessage error))])).

(** [createStopHandler(autoModeService)], applied to [req.body]. *)
Definition createStopHandler (req_body : JSVal) : M S unit :=
  try_catch
    (destructure req_body ;;;
     let projectPath := get_prop req_body "projectPath" in
     let branchName := get_prop req_body "branchName" in
     if negb (truthy projectPath) then
       res_status 400 ;;;
       res_json (obj_literal [("success", VBool false);
                              ("error", VStr "projectPath is required")])
     else
       let normalizedBranchName := nullish branchName VNull in
       let worktreeDesc :=
         if truthy normalizedBranchName
         then "worktree " +:+ to_string normalizedBranchName
         else "main worktree" in
       let! running :=
         invoke (CIsAutoLoopRunningForProject projectPath normalizedBranchName)
                (isAutoLoopRunningForProject projectPath normalizedBranchName) in
       if negb running then
         res_json (obj_literal
           [("success", VBool true);
            ("message", VStr ("Auto mode is not running for " +:+ worktreeDesc));
            ("wasRunning", VBool false);
            ("branchName", normalizedBranchName)])
       else
         let! runningCount :=
           invoke (CStopAutoLoopForProject projectPath normalizedBranchName)
                  (stopAutoLoopForProject projectPath normalizedBranchName) in
         logger_info ("Stopped auto loop for " +:+ worktreeDesc +:+ " in project: "
                      +:+ to_string projectPath +:+ ", "
                      +:+ num_to_string runningCount +:+ " features still running") ;;;
         res_json (obj_literal
           [("success", VBool true);
            ("message", VStr "Auto mode stopped");
            ("runningFeaturesCount", VNum runningCount);
            ("branchName", normalizedBranchName)]))
    (fun error =>
       logError error "Stop auto mode failed" ;;;
       res_status 500 ;;;
       res_json (obj_literal [("success", VBool false);
                              ("error", VStr (getErrorMessage error))])).

(** [createStatusHandler(autoModeService)], applied to [req.body]. *)
Definition createStatusHandler (req_body : JSVal) : M S unit :=
  try_catch
    (destructure req_body ;;;
     let projectPath := get_prop req_body "projectPath" in
     let branchName := get_prop req_body "branchName" in
     if truthy projectPath then
       let normalizedBranchName := nullish branchName VNull in
       let! projectStatus :=
         invoke (CGetStatusForProject projectPath normalizedBranchName)
                (getStatusForProject projectPath normalizedBranchName) in
       res_json (obj_literal
         [("success", VBool true);
          ("isRunning", VBool (0 <? runningCount projectStatus));
          ("isAutoLoopRunning", VBool (isAutoLoopRunning projectStatus));
          ("runningFeatures", VArr (map VStr (runningFeatures projectStatus)));
          ("runningCount", VNum (runningCount projectStatus));
          ("maxConcurrency", VNum (maxConcurrency projectStatus));
          ("projectPath", projectPath);
          ("branchName", normalizedBranchName)])
     else
       let! status := invoke CGetStatus getStatus in
       let! activeProjects := invoke CGetActiveAutoLoopProjects getActiveAutoLoopProjects in
       let! activeWorktrees := invoke CGetActiveAutoLoopWorktrees getActiveAutoLoopWorktrees in
       res_json (obj_literal
         ([("success", VBool true)] ++ status ++
          [("activeAutoLoopProjects", activeProjects);
           ("activeAutoLoopWorktrees", activeWorktrees)])))
    (fun error =>
       logError error "Get status failed" ;;;
       res_status 500 ;;;
       res_json (obj_literal [("success", VBool false);
                              ("error", VStr (getErrorMessage error))])).

End Handlers.

(** The text both [/start] and [/stop] compute for a normalized branch:
    [normalizedBranchName ? `worktree ${normalizedBranchName}` : 'main worktree']. *)
Definition worktreeDesc (normalizedBranchName : JSVal) : string :=
  if truthy normalizedBranchName
  then "worktree " +:+ to_string normalizedBranchName
  else "main worktree".

Definition sent (code : Z) (o : Obj) : Response :=
  {| statusCode := code; body := Some o |}.

(** The last value the entries of an object literal give a key, [d] when
    none does. *)
Fixpoint entries_get (entries : list (string * JSVal)) (k : string) (d : JSVal) : JSVal :=
  match entries with
  | [] => d
  | (k', v) :: rest => entries_get rest k (if String.eqb k' k then v else d)
  end.

(** A run answered a per-key request with [branchName: null]: whenever
    the response is a 200, its [branchName] field is [null]. *)
Definition echoes_null_branch {S} (r : Outcome unit * World S) : Prop :=
  forall b, statusCode (res (snd r)) = 200 -> body (res (snd r)) = Some b ->
            obj_get b "branchName" = VNull.

(** A run contained its failures: the handler returned normally, and if a
    service method threw, the response is the 500 built from what was
    thrown. *)
Definition failure_contained `{Common} {S} (r : Outcome unit * World S) : Prop :=
  fst r = Ok tt /\
  forall c e, In (c, Some e) (calls (snd r)) ->
              res (snd r) = sent 500 [("success", VBool false);
                                      ("error", VStr (getErrorMessage e))].

(** Running a handler on a request: a fresh response object, no calls
    made and nothing logged yet. *)
Definition initial_world {S} (s : S) : World S :=
  {| service := s; calls := []; logs := []; res := fresh_response |}.

Definition handle {S} (handler : JSVal -> M S unit) (req_body : JSVal) (s : S)
  : Outcome unit * World S :=
  handler req_body (initial_world s).

End Routes.

(** ** The scheduler *)

Module Scheduler.

Local Open Scope nat_scope.

(** Modelled from the spec: the status of a Feature (section 3); the
    feature store and its types are not among the sources. *)
Inductive FeatureStatus : Type :=
| backlog
| in_progress
| waiting_approval
| verified
| failed (message : string).

(** Modelled from the spec: the Feature record of section 3, with the
    fields the scheduler reads. *)
Record Feature : Type := {
  id : string;
  status : FeatureStatus;
  dependencies : list string;
  priority : Z;
  complexity : string
}.

Definition is_verified (s : FeatureStatus) : bool :=
  match s with verified => true | _ => false end.

Definition is_backlog (s : FeatureStatus) : bool :=
  match s with backlog => true | _ => false end.

(** Modelled from the spec: the Feature Graph of section 4.1, whose code
    (the dependency resolver) is not among the sources.  [buildMap] maps
    each identifier to its feature. *)
Definition buildMap (features : list Feature) : gmap string Feature :=
  list_to_map (map (fun f => (id f, f)) features).

(** Modelled from the spec: [blockingDependencies] of section 4.1, absent
    from the sources: the dependencies that are present in the map and not
    [verified]; unknown identifiers are left out. *)
Definition blockingDependencies (f : Feature) (m : gmap string Feature) : list string :=
  List.filter
    (fun d => match m !! d with
              | Some g => negb (is_verified (status g))
              | None => false
              end)
    (dependencies f).

(** Modelled from the spec: the Loop Key of section 3,
    [(projectPath, branchName | null)]; no branch is the primary worktree. *)
Definition LoopKey : Type := (string * option string)%type.

(** Modelled from the spec: the Auto-Loop State of section 3, kept by the
    absent [AutoModeService]. *)
Record AutoLoopState : Type := {
  isRunning : bool;
  maxConcurrency : positive;
  runningFeatureIds : gset string;
  cancellationRequested : bool
}.

(** Modelled from the spec: tick step (b) of section 4.2, candidate
    selection: status [backlog], not in [runningFeatureIds], no blocking
    dependency. *)
Definition candidates (features : list Feature) (running : gset string) : list Feature :=
  let m := buildMap features in
  List.filter
    (fun f => is_backlog (status f)
              && negb (bool_decide (id f ∈ running))
              && match blockingDependencies f m with [] => true | _ => false end)
    features.

(** Modelled from the spec: tick step (c), ascending priority, ties in
    declaration order (a stable insertion sort). *)
Fixpoint insert_by_priority (f : Feature) (l : list Feature) : list Feature :=
  match l with
  | [] => [f]
  | g :: rest =>
      if (priority f <=? priority g)%Z then f :: g :: rest
      else g :: insert_by_priority f rest
  end.

Definition order_candidates (l : list Feature) : list Feature :=
  foldr insert_by_priority [] l.

(** Modelled from the spec: tick step (d): while a slot is free and
    candidates remain, pop the head candidate, add its id to the running
    set and dispatch it.  Returns the running set and the ids dispatched,
    in dispatch order. *)
Fixpoint dispatch (ceiling : positive) (cands : list Feature)
    (running : gset string) : gset string * list string :=
  match cands with
  | [] => (running, [])
  | f :: rest =>
      if decide (size running < Pos.to_nat ceiling) then
        let '(running', ids) := dispatch ceiling rest ({[id f]} ∪ running) in
        (running', id f :: ids)
      else (running, [])
  end.

(** Modelled from the spec: tick step (d), the status change of the
    features just dispatched, as written back to the feature store. *)
Definition mark_in_progress (ids : list string) (features : list Feature) : list Feature :=
  map (fun f => if bool_decide (id f ∈ ids)
                then {| id := id f; status := in_progress;
                        dependencies := dependencies f; priority := priority f;
                        complexity := complexity f |}
                else f)
      features.

(** Modelled from the spec: one scheduling tick of section 4.2 on a
    feature snapshot.  A stopped loop dispatches nothing. *)
Definition tick (st : AutoLoopState) (snapshot : list Feature)
  : AutoLoopState * list string :=
  if isRunning st && negb (cancellationRequested st) then
    let cands := order_candidates (candidates snapshot (runningFeatureIds st)) in
    let '(running', ids) := dispatch (maxConcurrency st) cands (runningFeatureIds st) in
    ({| isRunning := isRunning st; maxConcurrency := maxConcurrency st;
        runningFeatureIds := running';
        cancellationRequested := cancellationRequested st |}, ids)
  else (st, []).

(** Modelled from the spec: design note of section 9, the completion of a
    dispatched feature as a tagged result. *)
Inductive Completion : Type :=
| Success (featureId : string)
| Failure (featureId message : string).

Definition completed_id (c : Completion) : string :=
  match c with Success i => i | Failure i _ => i end.

(** Modelled from the spec: tick step (e), the status a completion gives
    its feature: [waiting_approval] or [verified] on success, by caller
    policy, and the error state with its message on failure. *)
Definition settle (verify : bool) (c : Completion) (features : list Feature) : list Feature :=
  map (fun f => if String.eqb (id f) (completed_id c)
                then {| id := id f;
                        status := match c with
                                  | Success _ => if verify then verified else waiting_approval
                                  | Failure _ m => failed m
                                  end;
                        dependencies := dependencies f; priority := priority f;
                        complexity := complexity f |}
                else f)
      features.

(** Modelled from the spec: tick step (e), the completion callback: the
    id leaves the running set, the feature takes its new status, and the
    loop re-ticks at once on the updated features. *)
Definition complete (st : AutoLoopState) (verify : bool) (c : Completion)
    (snapshot : list Feature) : AutoLoopState * list string :=
  tick {| isRunning := isRunning st; maxConcurrency := maxConcurrency st;
          runningFeatureIds := runningFeatureIds st ∖ {[completed_id c]};
          cancellationRequested := cancellationRequested st |}
       (settle verify c snapshot).

(** Modelled from the spec: [start] of sections 4.2 and 4.3.  On a
    running loop nothing changes (4.2: an idempotent no-op that does not
    alter maxConcurrency).  On a stopped or new loop the ceiling is the
    supplied value if there is one (4.2: it is validated to a positive
    integer and becomes the new ceiling), else the previously configured
    one, else the default.  The running set of a stopped loop is kept
    (section 3: the state is retained across stop and reports the last
    known running set until it drains to empty). *)
Definition start_loop (default : positive) (requested : option positive)
    (prev : option AutoLoopState) : AutoLoopState :=
  match prev with
  | Some st =>
      if isRunning st then st
      else {| isRunning := true;
              maxConcurrency := match requested with
                                | Some c => c
                                | None => maxConcurrency st
                                end;
              runningFeatureIds := runningFeatureIds st;
              cancellationRequested := false |}
  | None =>
      {| isRunning := true;
         maxConcurrency := match requested with Some c => c | None => default end;
         runningFeatureIds := ∅;
         cancellationRequested := false |}
  end.

(** Modelled from the spec: the transition Running to Stopped of section
    4.2: no new dispatch; in-flight dispatches are not aborted, they stay
    in the running set until their completion callbacks fire. *)
Definition stop_loop (st : AutoLoopState) : AutoLoopState :=
  {| isRunning := false; maxConcurrency := maxConcurrency st;
     runningFeatureIds := runningFeatureIds st;
     cancellationRequested := true |}.

(** Modelled from the spec: what can happen to the registry of loops:
    the start and stop requests, a scheduling tick on the features read
    from the store, a completion callback, and the collection of a
    stopped and drained loop (section 3). *)
Inductive Event : Type :=
| EStart (k : LoopKey) (requested : option positive)
| EStop (k : LoopKey)
| ETick (k : LoopKey) (snapshot : list Feature)
| EComplete (k : LoopKey) (verify : bool) (c : Completion) (snapshot : list Feature)
| ECollect (k : LoopKey).

(** Modelled from the spec: the Loop Key Registry of section 2 with the
    transitions of section 4.2, one atomic step per event (section 5:
    decisions within a key are serialized). *)
Definition step (default : positive) (reg : gmap LoopKey AutoLoopState) (ev : Event)
  : gmap LoopKey AutoLoopState :=
  match ev with
  | EStart k requested => <[k := start_loop default requested (reg !! k)]> reg
  | EStop k =>
      match reg !! k with
      | Some st => if isRunning st then <[k := stop_loop st]> reg else reg
      | None => reg
      end
  | ETick k snapshot =>
      match reg !! k with
      | Some st => <[k := fst (tick st snapshot)]> reg
      | None => reg
      end
  | EComplete k verify c snapshot =>
      match reg !! k with
      | Some st => <[k := fst (complete st verify c snapshot)]> reg
      | None => reg
      end
  | ECollect k =>
      match reg !! k with
      | Some st =>
          if negb (isRunning st) && bool_decide (runningFeatureIds st = ∅)
          then delete k reg else reg
      | None => reg
      end
  end.

Definition run (default : positive) (evs : list Event)
    (reg : gmap LoopKey AutoLoopState) : gmap LoopKey AutoLoopState :=
  fold_left (step default) evs reg.




End Scheduler.

(** ** The scheduler facade as a service *)

Module Facade.

Import Routes Scheduler.

(** The loop key denoted by the arguments of a service method. *)
Definition key_of (projectPath branchName : JSVal) : option LoopKey :=
  match projectPath, branchName with
  | VStr p, VNull => Some (p, None)
  | VStr p, VStr b => Some (p, Some b)
  | _, _ => None
  end.

Definition invalid_argument (what : string) : Thrown :=
  JsError "InvalidArgument" what.

(** Modelled from the spec: the optional [maxConcurrency] of [start]
    (section 4.3), absent from the sources: a supplied value must be a
    positive integer. *)
Definition requested_ceiling (v : JSVal) : option (option positive) :=
  match v with
  | VUndefined => Some None
  | VNum n => if (0 <? n)%Z then Some (Some (Z.to_pos n)) else None
  | _ => None
  end.

Definition loop_is_running (reg : gmap LoopKey AutoLoopState) (k : LoopKey) : bool :=
  match reg !! k with
  | Some st => isRunning st
  | None => false
  end.

Definition running_count (reg : gmap LoopKey AutoLoopState) (k : LoopKey) : nat :=
  match reg !! k with
  | Some st => size (runningFeatureIds st)
  | None => 0
  end.

(** Modelled from the spec: [isRunning(projectPath, branchName)] of
    section 4.3, a method of the absent [AutoModeService]. *)
Definition facade_isRunning (projectPath branchName : JSVal)
    (reg : gmap LoopKey AutoLoopState) : Outcome bool * gmap LoopKey AutoLoopState :=
  match key_of projectPath branchName with
  | Some k => (Ok (loop_is_running reg k), reg)
  | None => (Ok false, reg)
  end.

(** Modelled from the spec: [start] of section 4.3, a method of the absent
    [AutoModeService]: [InvalidArgument] on an empty [projectPath],
    otherwise the start transition; returns the resolved ceiling. *)
Definition facade_start (default : positive)
    (projectPath branchName maxConcurrency : JSVal)
    (reg : gmap LoopKey AutoLoopState) : Outcome Z * gmap LoopKey AutoLoopState :=
  match key_of projectPath branchName, requested_ceiling maxConcurrency with
  | Some (p, b), Some requested =>
      if String.eqb p "" then (Throw (invalid_argument "projectPath"), reg)
      else
        let reg' := step default reg (EStart (p, b) requested) in
        match reg' !! (p, b) with
        | Some st => (Ok (Z.pos (Scheduler.maxConcurrency st)), reg')
        | None => (Throw (JsError "Error" "loop state missing"), reg')
        end
  | None, _ => (Throw (invalid_argument "projectPath"), reg)
  | _, None => (Throw (invalid_argument "maxConcurrency"), reg)
  end.

(** Modelled from the spec: [stop] of section 4.3, a method of the absent
    [AutoModeService]: the stop transition; returns how many features are
    still in flight. *)
Definition facade_stop (default : positive) (projectPath branchName : JSVal)
    (reg : gmap LoopKey AutoLoopState) : Outcome Z * gmap LoopKey AutoLoopState :=
  match key_of projectPath branchName with
  | Some k =>
      let reg' := step default reg (EStop k) in
      (Ok (Z.of_nat (running_count reg' k)), reg')
  | None => (Throw (invalid_argument "projectPath"), reg)
  end.

(** Modelled from the spec: [statusForProject] of section 4.3, a method
    of the absent [AutoModeService]. *)
Definition facade_statusForProject (default : positive) (projectPath branchName : JSVal)
    (reg : gmap LoopKey AutoLoopState) : Outcome ProjectStatus * gmap LoopKey AutoLoopState :=
  match key_of projectPath branchName with
  | Some k =>
      match reg !! k with
      | Some st =>
          (Ok {| isAutoLoopRunning := isRunning st;
                 runningFeatures := elements (runningFeatureIds st);
                 runningCount := Z.of_nat (size (runningFeatureIds st));
                 Routes.maxConcurrency := Z.pos (Scheduler.maxConcurrency st) |}, reg)
      | None =>
          (Ok {| isAutoLoopRunning := false; runningFeatures := [];
                 runningCount := 0; Routes.maxConcurrency := Z.pos default |}, reg)
      end
  | None => (Throw (invalid_argument "projectPath"), reg)
  end.

Definition all_running (reg : gmap LoopKey AutoLoopState) : list string :=
  concat (map (fun kst => elements (runningFeatureIds (snd kst))) (map_to_list reg)).

Definition running_keys (reg : gmap LoopKey AutoLoopState) : list LoopKey :=
  map fst (List.filter (fun kst => isRunning (snd kst)) (map_to_list reg)).

(** Modelled from the spec: [globalStatus()] of section 4.3, a method of
    the absent [AutoModeService]: the aggregate over all keys. *)
Definition facade_globalStatus (reg : gmap LoopKey AutoLoopState)
  : Outcome Obj * gmap LoopKey AutoLoopState :=
  let ids := all_running reg in
  (Ok [("isRunning", VBool (negb (Nat.eqb (length ids) 0)));
       ("runningFeatures", VArr (map VStr ids));
       ("runningCount", VNum (Z.of_nat (length ids)))], reg).

(** Modelled from the spec: [activeAutoLoopProjects()] of section 4.3,
    the distinct project paths that have a running loop. *)
Definition facade_activeProjects (reg : gmap LoopKey AutoLoopState)
  : Outcome JSVal * gmap LoopKey AutoLoopState :=
  (Ok (VArr (map VStr (remove_dups (map fst (running_keys reg))))), reg).

(** Modelled from the spec: [activeAutoLoopWorktrees()] of section 4.3,
    the keys that have a running loop. *)
Definition facade_activeWorktrees (reg : gmap LoopKey AutoLoopState)
  : Outcome JSVal * gmap LoopKey AutoLoopState :=
  (Ok (VArr (map (fun k : LoopKey =>
                    VObj [("projectPath", VStr (fst k));
                          ("branchName", match snd k with
                                         | Some b => VStr b
                                         | None => VNull
                                         end)])
                 (running_keys reg))), reg).

Definition facade (default : positive) : AutoModeService (gmap LoopKey AutoLoopState) :=
  {| isAutoLoopRunningForProject := facade_isRunning;
     startAutoLoopForProject := facade_start default;
     stopAutoLoopForProject := facade_stop default;
     getStatusForProject := facade_statusForProject default;
     getStatus := facade_globalStatus;
     getActiveAutoLoopProjects := facade_activeProjects;
     getActiveAutoLoopWorktrees := facade_activeWorktrees |}.

(** A [getErrorMessage] in the usual shape: the message of an [Error],
    a fixed text for anything else. *)
Definition error_message : Common :=
  {| getErrorMessage := fun e =>
       match e with
       | JsError _ m => m
       | ThrownValue _ => "Unknown error"
       end |}.

End Facade.

(** ** Scenarios *)

Module Scenarios.

Import Routes Scheduler Facade.

(** The trace on which the bound is lost: two features are dispatched
    under a ceiling of two, the loop is stopped while both are in flight,
    and it is started again with a ceiling of one. *)
Definition feature (i : string) (p : Z) : Feature :=
  {| id := i; status := backlog; dependencies := []; priority := p; complexity := "" |}.

Definition primary : LoopKey := ("/repo", None).


(** The backlog of the determinism property of section 8, with two more
    features behind it, and the feature store after the first tick. *)
Definition backlog0 : list Feature :=
  [feature "A" 2; feature "B" 1; feature "C" 1; feature "D" 3;
   feature "E" 4; feature "F" 5].

Definition backlog1 : list Feature := mark_in_progress ["B"; "C"] backlog0.


(** Registries reached by the scheduler: a loop that was just started, a
    loop with two features dispatched, and the same loop after a stop. *)
Definition just_started : gmap LoopKey AutoLoopState :=
  run 3 [EStart primary (Some 2%positive)] ∅.

Definition two_in_flight : gmap LoopKey AutoLoopState :=
  run 3 [EStart primary (Some 2%positive);
         ETick primary [feature "A" 1; feature "B" 1]] ∅.

Definition draining : gmap LoopKey AutoLoopState :=
  run 3 [EStart primary (Some 2%positive);
         ETick primary [feature "A" 1; feature "B" 1];
         EStop primary] ∅.

(** Request bodies. *)
Definition for_repo : Obj := [("projectPath", VStr "/repo")].

Definition for_repo_null_branch : Obj :=
  [("projectPath", VStr "/repo"); ("branchName", VNull)].

Definition for_repo_ceiling (n : Z) : Obj :=
  [("projectPath", VStr "/repo"); ("maxConcurrency", VNum n)].

Definition empty_project_path : Obj := [("projectPath", VStr "")].

Definition no_project_path : Obj := [("branchName", VStr "feature/a")].

(** A service whose every method throws. *)
Definition failing : Thrown := JsError "Error" "feature store unreadable".

Definition broken_service : AutoModeService unit :=
  {| isAutoLoopRunningForProject := fun _ _ u => (Throw failing, u);
     startAutoLoopForProject := fun _ _ _ u => (Throw failing, u);
     stopAutoLoopForProject := fun _ _ u => (Throw failing, u);
     getStatusForProject := fun _ _ u => (Throw failing, u);
     getStatus := fun u => (Throw failing, u);
     getActiveAutoLoopProjects := fun u => (Throw failing, u);
     getActiveAutoLoopWorktrees := fun u => (Throw failing, u) |}.

(** The three handlers over the scheduler facade, default ceiling 3. *)
Abbreviation start_on_facade := (@createStartHandler _ (facade 3) error_message).
Abbreviation stop_on_facade := (@createStopHandler _ (facade 3) error_message).
Abbreviation status_on_facade := (@createStatusHandler _ (facade 3) error_message).

(** The ceiling the registry holds for the primary worktree of [/repo]. *)
Definition primary_ceiling (reg : gmap LoopKey AutoLoopState) : option positive :=
  Scheduler.maxConcurrency <$> reg !! primary.

End Scenarios.

(** ** Worktree routes: [/info] and [/discard-changes] *)

Module Worktree.

Import Routes.

(** *** Strings of command output *)

(** WhiteSpace and LineTerminator code units (those below 256): what
    [String.prototype.trim] strips. *)
Definition is_space (c : ascii) : bool :=
  let n := nat_of_ascii c in
  (Nat.eqb n 9 || Nat.eqb n 10 || Nat.eqb n 11 || Nat.eqb n 12 || Nat.eqb n 13
   || Nat.eqb n 32 || Nat.eqb n 160)%bool.

Fixpoint trim_start (s : string) : string :=
  match s with
  | EmptyString => EmptyString
  | String c rest => if is_space c then trim_start rest else s
  end.

(** Drops the trailing white space; [None] when nothing else is left. *)
Fixpoint trim_end_aux (s : string) : option string :=
  match s with
  | EmptyString => None
  | String c rest =>
      match trim_end_aux rest with
      | Some rest' => Some (String c rest')
      | None => if is_space c then None else Some (String c EmptyString)
      end
  end.

Definition trim_end (s : string) : string :=
  match trim_end_aux s with
  | Some s' => s'
  | None => EmptyString
  end.

(** [s.trim()] *)
Definition trim (s : string) : string := trim_end (trim_start s).

Definition newline : ascii := ascii_of_nat 10.

(** [s.split('\n')]: the pieces between line feeds; never an empty
    array. *)
Fixpoint split_lines (s : string) : list string :=
  match s with
  | EmptyString => [EmptyString]
  | String c rest =>
      if Ascii.eqb c newline then EmptyString :: split_lines rest
      else match split_lines rest with
           | [] => [String c EmptyString]
           | piece :: pieces => String c piece :: pieces
           end
  end.

(** [status.trim().split('\n').filter(Boolean).length] *)
Definition count_lines (status : string) : Z :=
  Z.of_nat (List.length
              (List.filter (fun l => negb (String.eqb l EmptyString))
                           (split_lines (trim status)))).

(** [/[^a-zA-Z0-9_-]/]: the characters a sanitized feature id keeps. *)
Definition is_id_char (c : ascii) : bool :=
  let n := nat_of_ascii c in
  ((Nat.leb 97 n && Nat.leb n 122) || (Nat.leb 65 n && Nat.leb n 90)
   || (Nat.leb 48 n && Nat.leb n 57) || Nat.eqb n 95 || Nat.eqb n 45)%bool.

(** [featureId.replace(/[^a-zA-Z0-9_-]/g, '-')] *)
Fixpoint sanitize (featureId : string) : string :=
  match featureId with
  | EmptyString => EmptyString
  | String c rest =>
      String (if is_id_char c then c else "-"%char) (sanitize rest)
  end.

Fixpoint all_chars (p : ascii -> bool) (s : string) : bool :=
  match s with
  | EmptyString => true
  | String c rest => p c && all_chars p rest
  end.

(** *** The environment *)

(** What the two handlers reach outside the process: [execAsync] (a
    command and its [cwd], resolving to stdout or rejecting),
    [secureFs.access], [path.join] and [normalizePath] of
    [routes/worktree/common.ts]. *)
Class Shell (E : Type) : Type := {
  execAsync : string -> JSVal -> E -> Outcome string * E;
  access : string -> E -> Outcome unit * E;
  path_join : JSVal -> string -> string -> Outcome string;
  normalizePath : string -> string
}.

(** The environment together with the commands run so far, each with its
    [cwd]. *)
Record Host (E : Type) : Type := {
  env : E;
  executed : list (string * JSVal)
}.
Arguments env {E} h.
Arguments executed {E} h.
Arguments Build_Host {E} _ _.

Definition on_host {E A} (op : E -> Outcome A * E) : M (Host E) A :=
  fun w =>
    let '(r, e') := op (env (service w)) in
    (r, {| service := {| env := e'; executed := executed (service w) |};
           calls := calls w; logs := logs w; res := res w |}).

(** [await execAsync(command, { cwd })] *)
Definition run_command {E} `{Shell E} (command : string) (cwd : JSVal)
  : M (Host E) string :=
  fun w =>
    let '(r, e') := execAsync command cwd (env (service w)) in
    (r, {| service := {| env := e';
                         executed := executed (service w) ++ [(command, cwd)] |};
           calls := calls w; logs := logs w; res := res w |}).

(** [await p.catch(() => {})]: a rejection is swallowed. *)
Definition ignoring_errors {S A} (c : M S A) : M S unit :=
  fun w => (Ok tt, snd (c w)).

Definition lift_outcome {S A} (r : Outcome A) : M S A := fun w => (r, w).

Section Handlers.
Context {E : Type} `{Shell E} `{Common}.

(** [createInfoHandler()], applied to [req.body]. *)
Definition createInfoHandler (req_body : JSVal) : M (Host E) unit :=
  try_catch
    (destructure req_body ;;;
     let projectPath := get_prop req_body "projectPath" in
     let featureId := get_prop req_body "featureId" in
     if negb (truthy projectPath) || negb (truthy featureId) then
       res_status 400 ;;;
       res_json (obj_literal [("success", VBool false);
                              ("error", VStr "projectPath and featureId required")])
     else
       let! sanitizedFeatureId :=
         match featureId with
         | VStr s => ret (sanitize s)
         | _ => throw (JsError "TypeError" "featureId.replace is not a function")
         end in
       let! worktreePath :=
         lift_outcome (path_join projectPath ".worktrees" sanitizedFeatureId) in
       try_catch
         (on_host (access worktreePath) ;;;
          let! stdout := run_command "git rev-parse --abbrev-ref HEAD" (VStr worktreePath) in
          res_json (obj_literal [("success", VBool true);
                                 ("worktreePath", VStr (normalizePath worktreePath));
                                 ("branchName", VStr (trim stdout))]))
         (fun _ =>
            res_json (obj_literal [("success", VBool true);
                                   ("worktreePath", VNull);
                                   ("branchName", VNull)])))
    (fun error =>
       logError error "Get worktree info failed" ;;;
       res_status 500 ;;;
       res_json (obj_literal [("success", VBool false);
                              ("error", VStr (getErrorMessage error))])).

(** [createDiscardChangesHandler()], applied to [req.body]. *)
Definition createDiscardChangesHandler (req_body : JSVal) : M (Host E) unit :=
  try_catch
    (destructure req_body ;;;
     let worktreePath := get_prop req_body "worktreePath" in
     if negb (truthy worktreePath) then
       res_status 400 ;;;
       res_json (obj_literal [("success", VBool false);
                              ("error", VStr "worktreePath required")])
     else
       let! status := run_command "git status --porcelain" worktreePath in
       if String.eqb (trim status) "" then
         res_json (obj_literal
           [("success", VBool true);
            ("result", VObj (obj_literal
               [("discarded", VBool false);
                ("message", VStr "No changes to discard")]))])
       else
         let fileCount := count_lines status in
         let! branchOutput := run_command "git rev-parse --abbrev-ref HEAD" worktreePath in
         let branchName := trim branchOutput in
         ignoring_errors (run_command "git reset HEAD" worktreePath) ;;;
         ignoring_errors (run_command "git checkout ." worktreePath) ;;;
         ignoring_errors (run_command "git clean -fd" worktreePath) ;;;
         let! finalStatus := run_command "git status --porcelain" worktreePath in
         if negb (String.eqb (trim finalStatus) "") then
           let remainingCount := count_lines finalStatus in
           res_json (obj_literal
             [("success", VBool true);
              ("result", VObj (obj_literal
                 [("discarded", VBool true);
                  ("filesDiscarded", VNum (fileCount - remainingCount));
                  ("filesRemaining", VNum remainingCount);
                  ("branch", VStr branchName);
                  ("message", VStr ("Discarded " +:+ num_to_string (fileCount - remainingCount)
                                    +:+ " files, " +:+ num_to_string remainingCount
                                    +:+ " files could not be removed"))]))])
         else
           res_json (obj_literal
             [("success", VBool true);
              ("result", VObj (obj_literal
                 [("discarded", VBool true);
                  ("filesDiscarded", VNum fileCount);
                  ("filesRemaining", VNum 0);
                  ("branch", VStr branchName);
                  ("message", VStr ("Discarded " +:+ num_to_string fileCount +:+ " "
                                    +:+ (if fileCount =? 1 then "file" else "files")))]))]))
    (fun error =>
       logError error "Discard changes failed" ;;;
       res_status 500 ;;;
       res_json (obj_literal [("success", VBool false);
                              ("error", VStr (getErrorMessage error))])).

End Handlers.

Definition fresh_host {E} (e : E) : Host E := {| env := e; executed := [] |}.

(** What a run of a handler on a fresh host leaves: the commands it ran,
    the environment, the response. *)
Definition commands_run {E} (r : Outcome unit * World (Host E)) : list (string * JSVal) :=
  executed (service (snd r)).

Definition response_of {S} (r : Outcome unit * World S) : Response := res (snd r).

(** The commands that change the working tree. *)
Definition destructive (command : string) : bool :=
  (String.eqb command "git reset HEAD" || String.eqb command "git checkout ."
   || String.eqb command "git clean -fd")%bool.

(** *** A simulated checkout

    The environment is the list of porcelain status lines of one
    worktree at [/repo/.worktrees/feat-1] on branch [feat-1].  Nothing is
    ever staged, so [git reset HEAD] fails; [git checkout .] reverts the
    modified files, [git clean -fd] removes the untracked ones. *)

Definition starts_with (prefix s : string) : bool :=
  String.eqb (String.substring 0 (String.length prefix) s) prefix.

Definition porcelain (lines : list string) : string :=
  String.concat (String newline EmptyString) lines +:+ String newline EmptyString.

Definition simulated_exec (command : string) (cwd : JSVal) (lines : list string)
  : Outcome string * list string :=
  match cwd with
  | VStr "/repo/.worktrees/feat-1" =>
      if String.eqb command "git status --porcelain" then
        (Ok (match lines with [] => "" | _ => porcelain lines end), lines)
      else if String.eqb command "git rev-parse --abbrev-ref HEAD" then
        (Ok (porcelain ["feat-1"]), lines)
      else if String.eqb command "git reset HEAD" then
        (Throw (JsError "Error" "Command failed: git reset HEAD"), lines)
      else if String.eqb command "git checkout ." then
        (Ok "", List.filter (fun l => negb (starts_with " M" l)) lines)
      else if String.eqb command "git clean -fd" then
        (Ok "", List.filter (fun l => negb (starts_with "??" l)) lines)
      else (Throw (JsError "Error" "unknown command"), lines)
  | _ => (Throw (JsError "Error" "spawn ENOTDIR"), lines)
  end.

Definition simulated : Shell (list string) :=
  {| execAsync := simulated_exec;
     access := fun p lines =>
       (if String.eqb p "/repo/.worktrees/feat-1" then Ok tt
        else Throw (JsError "Error" "ENOENT"), lines);
     path_join := fun a b c =>
       match a with
       | VStr root => Ok (root +:+ "/" +:+ b +:+ "/" +:+ c)
       | _ => Throw (JsError "TypeError" "The path argument must be of type string")
       end;
     normalizePath := fun p => p |}.

Definition message_of : Common :=
  {| getErrorMessage := fun e =>
       match e with
       | JsError _ m => m
       | ThrownValue _ => "Unknown error"
       end |}.

Definition dirty : list string := [" M src/a.ts"; "?? notes.txt"; " M src/b.ts"].

Definition in_feat_1 : Obj := [("worktreePath", VStr "/repo/.worktrees/feat-1")].

Definition info_feat_1 : Obj := [("projectPath", VStr "/repo"); ("featureId", VStr "feat-1")].

Definition info_traversal : Obj :=
  [("projectPath", VStr "/repo"); ("featureId", VStr "../../etc")].

End Worktree.

(** ** Spec regeneration routes *)

Module SpecRegeneration.

Import Routes.

(** The background work a request starts: [generateSpec(projectPath,
    text, events, abortController, generateFeatures)] or
    [generateFeaturesFromSpec(projectPath, events, abortController)]. *)
Inductive Generation : Type :=
| GenerateSpec (projectPath text generateFeatures : JSVal)
| GenerateFeaturesFromSpec (projectPath : JSVal).

(** A generation in flight, with the [AbortController] made for it.
    Controllers are told apart by the order of their creation. *)
Record Job : Type := {
  controller : nat;
  work : Generation
}.

(** The two module-level variables [isRunning] and
    [currentAbortController], and what they are about: the controllers
    aborted so far, the generations whose promise has not settled, and the
    number of controllers created. *)
Record State : Type := {
  isRunning : bool;
  currentAbortController : option nat;
  aborted : list nat;
  inFlight : list Job;
  created : nat
}.

Definition initial : State :=
  {| isRunning := false; currentAbortController := None; aborted := [];
     inFlight := []; created := 0 |}.

(** [isRunning = true; currentAbortController = new AbortController();]
    followed by the call that starts the generation. *)
Definition launch (g : Generation) (st : State) : State :=
  {| isRunning := true;
     currentAbortController := Some (created st);
     aborted := aborted st;
     inFlight := inFlight st ++ [{| controller := created st; work := g |}];
     created := S (created st) |}.

(** The message of the TypeError that destructuring an undefined or null
    [req.body] throws; its wording belongs to the engine. *)
Class Engine : Type := {
  destructuring_message : string
}.

Section Handlers.
Context `{Engine}.

(** The answer of the [catch] of a route whose destructuring of
    [req.body] threw. *)
Definition destructuring_failed : Response :=
  sent 500 (obj_literal [("success", VBool false); ("error", VStr destructuring_message)]).

(** [router.post("/create", ...)] *)
Definition create (req_body : JSVal) (st : State) : Response * State :=
  if negb (object_coercible req_body) then (destructuring_failed, st)
  else
    let projectPath := get_prop req_body "projectPath" in
    let projectOverview := get_prop req_body "projectOverview" in
    let generateFeatures := get_prop req_body "generateFeatures" in
    if negb (truthy projectPath) || negb (truthy projectOverview) then
      (sent 400 (obj_literal [("success", VBool false);
                              ("error", VStr "projectPath and projectOverview required")]),
       st)
    else if isRunning st then
      (sent 200 (obj_literal [("success", VBool false);
                              ("error", VStr "Spec generation already running")]),
       st)
    else
      let st1 := launch (GenerateSpec projectPath projectOverview generateFeatures) st in
      (sent 200 (obj_literal [("success", VBool true)]), st1).

(** [router.post("/generate", ...)] *)
Definition generate (req_body : JSVal) (st : State) : Response * State :=
  if negb (object_coercible req_body) then (destructuring_failed, st)
  else
    let projectPath := get_prop req_body "projectPath" in
    let projectDefinition := get_prop req_body "projectDefinition" in
    if negb (truthy projectPath) || negb (truthy projectDefinition) then
      (sent 400 (obj_literal [("success", VBool false);
                              ("error", VStr "projectPath and projectDefinition required")]),
       st)
    else if isRunning st then
      (sent 200 (obj_literal [("success", VBool false);
                              ("error", VStr "Spec generation already running")]),
       st)
    else
      let st1 := launch (GenerateSpec projectPath projectDefinition (VBool false)) st in
      (sent 200 (obj_literal [("success", VBool true)]), st1).

(** [router.post("/generate-features", ...)] *)
Definition generate_features (req_body : JSVal) (st : State) : Response * State :=
  if negb (object_coercible req_body) then (destructuring_failed, st)
  else
    let projectPath := get_prop req_body "projectPath" in
    if negb (truthy projectPath) then
      (sent 400 (obj_literal [("success", VBool false);
                              ("error", VStr "projectPath required")]),
       st)
    else if isRunning st then
      (sent 200 (obj_literal [("success", VBool false);
                              ("error", VStr "Generation already running")]),
       st)
    else
      let st1 := launch (GenerateFeaturesFromSpec projectPath) st in
      (sent 200 (obj_literal [("success", VBool true)]), st1).

(** [router.post("/stop", ...)]: aborts the current controller, if there
    is one, and clears [isRunning]; the controller stays current. *)
Definition stop (st : State) : Response * State :=
  (sent 200 (obj_literal [("success", VBool true)]),
   {| isRunning := false;
      currentAbortController := currentAbortController st;
      aborted := match currentAbortController st with
                 | Some c => c :: aborted st
                 | None => aborted st
                 end;
      inFlight := inFlight st;
      created := created st |}).

(** [router.get("/status", ...)] *)
Definition status (st : State) : Response * State :=
  (sent 200 (obj_literal [("success", VBool true); ("isRunning", VBool (isRunning st))]), st).

(** The [.finally] callback of the generation made with controller [c]:
    it runs once, when that generation's promise settles. *)
Definition settle (c : nat) (st : State) : State :=
  if existsb (fun j => Nat.eqb (controller j) c) (inFlight st) then
    {| isRunning := false;
       currentAbortController := None;
       aborted := aborted st;
       inFlight := List.filter (fun j => negb (Nat.eqb (controller j) c)) (inFlight st);
       created := created st |}
  else st.

(** What the server sees, one at a time: a request to one of the five
    routes, or the settling of a generation. *)
Inductive Event : Type :=
| Create (req_body : JSVal)
| Generate (req_body : JSVal)
| GenerateFeatures (req_body : JSVal)
| Stop
| Status
| Settled (c : nat).

Definition step (st : State) (ev : Event) : State :=
  match ev with
  | Create b => snd (create b st)
  | Generate b => snd (generate b st)
  | GenerateFeatures b => snd (generate_features b st)
  | Stop => snd (stop st)
  | Status => snd (status st)
  | Settled c => settle c st
  end.

(** What the three starting routes have in common: a validity test, then
    the lock, then the launch. *)
Definition start_route (req_body : JSVal) (invalid : bool) (required busy : string)
    (g : Generation) (st : State) : Response * State :=
  if negb (object_coercible req_body) then (destructuring_failed, st)
  else if invalid then
    (sent 400 (obj_literal [("success", VBool false); ("error", VStr required)]), st)
  else if isRunning st then
    (sent 200 (obj_literal [("success", VBool false); ("error", VStr busy)]), st)
  else
    (sent 200 (obj_literal [("success", VBool true)]), launch g st).

Definition run (evs : list Event) (st : State) : State := fold_left step evs st.

End Handlers.

Definition is_stop (ev : Event) : bool :=
  match ev with Stop => true | _ => false end.

(** [isRunning] is backed by a live generation: the current controller
    belongs to a generation in flight and has not been aborted. *)
Definition lock_backed (st : State) : Prop :=
  isRunning st = true ->
  exists c, currentAbortController st = Some c /\
            In c (map controller (inFlight st)) /\ ~ In c (aborted st).

(** Controllers in flight are distinct, and they, the aborted ones and
    the current one were all created. *)
Definition controllers_fresh (st : State) : Prop :=
  List.NoDup (map controller (inFlight st)) /\
  List.Forall (fun c => (c < created st)%nat) (map controller (inFlight st)) /\
  List.Forall (fun c => (c < created st)%nat) (aborted st) /\
  (forall c, currentAbortController st = Some c -> (c < created st)%nat).

(** What every reachable state satisfies. *)
Definition sound (st : State) : Prop := lock_backed st /\ controllers_fresh st.

(** At most one generation is in flight, and [isRunning] says whether one
    is. *)
Definition exclusive (st : State) : Prop :=
  (List.length (inFlight st) <= 1)%nat /\
  (isRunning st = true <-> inFlight st <> []).

Definition v8 : Engine :=
  {| destructuring_message :=
       "Cannot destructure property 'projectPath' of 'req.body' as it is undefined." |}.

Definition overview : JSVal :=
  VObj [("projectPath", VStr "/repo"); ("projectOverview", VStr "a to-do list")].

(** A stop followed by a new start, then the settling of the stopped
    generation. *)
Definition stop_and_restart : list Event :=
  [Create overview; Stop; Create overview; Settled 0; Create overview].

End SpecRegeneration.

(** ** String utilities ([libs/utils/src/string-utils.ts]) *)

Module StringUtils.

Import Routes.

Local Open Scope list_scope.

(** A JavaScript string is its sequence of UTF-16 code units; [length],
    [slice], [charAt] and the regular expressions used here (none has the
    [u] flag) all work on code units. *)
Definition Str : Type := list N.

Definition units (s : string) : Str := map N_of_ascii (list_ascii_of_string s).

Definition len (s : Str) : Z := Z.of_nat (List.length s).

(** *** Character classes *)

Definition is_lower (c : N) : bool := ((97 <=? c) && (c <=? 122))%N.
Definition is_upper (c : N) : bool := ((65 <=? c) && (c <=? 90))%N.
Definition is_digit (c : N) : bool := ((48 <=? c) && (c <=? 57))%N.
Definition is_alnum (c : N) : bool := is_lower c || is_upper c || is_digit c.
Definition hyphen : N := 45%N.
Definition underscore : N := 95%N.
Definition space : N := 32%N.
Definition backslash : N := 92%N.
Definition is_hyphen (c : N) : bool := (c =? hyphen)%N.

(** [\s], which is also what [trim] strips and [parseInt] skips:
    WhiteSpace and LineTerminator. *)
Definition is_ws (c : N) : bool :=
  ((c =? 9) || (c =? 10) || (c =? 11) || (c =? 12) || (c =? 13) || (c =? 32)
   || (c =? 160) || (c =? 5760) || ((8192 <=? c) && (c <=? 8202))
   || (c =? 8232) || (c =? 8233) || (c =? 8239) || (c =? 8287)
   || (c =? 12288) || (c =? 65279))%N.

(** The case mappings on the letters A-Z and a-z. *)
Definition lower_ascii (c : N) : N := if is_upper c then (c + 32)%N else c.
Definition upper_ascii (c : N) : N := if is_lower c then (c - 32)%N else c.
Definition is_ascii (c : N) : bool := (c <? 128)%N.

(** *** Slices and replacements *)

(** [s.slice(0, stop)]: a negative [stop] counts from the end. *)
Definition slice_to (s : Str) (stop : Z) : Str :=
  let n := if stop <? 0 then Z.max (len s + stop) 0 else Z.min stop (len s) in
  firstn (Z.to_nat n) s.

(** [s.replace(/[class]+/g, r)]: every maximal run of characters of the
    class becomes one [r]. *)
Fixpoint replace_runs_from (p : N -> bool) (r : Str) (in_run : bool) (s : Str) : Str :=
  match s with
  | [] => []
  | c :: rest =>
      if p c then (if in_run then [] else r) ++ replace_runs_from p r true rest
      else c :: replace_runs_from p r false rest
  end.

Definition replace_runs (p : N -> bool) (r : Str) (s : Str) : Str :=
  replace_runs_from p r false s.

Fixpoint drop_while (p : N -> bool) (s : Str) : Str :=
  match s with
  | [] => []
  | c :: rest => if p c then drop_while p rest else s
  end.

(** Drops the longest suffix whose characters are all in the class. *)
Fixpoint drop_end_while (p : N -> bool) (s : Str) : Str :=
  match s with
  | [] => []
  | c :: rest =>
      match drop_end_while p rest with
      | [] => if p c then [] else [c]
      | kept => c :: kept
      end
  end.

(** [s.trim()] *)
Definition trim (s : Str) : Str :=
  drop_end_while is_ws (drop_while is_ws s).

(** [s.replace(/-$/g, '')]: one trailing hyphen goes. *)
Fixpoint strip_trailing_hyphen (s : Str) : Str :=
  match s with
  | [] => []
  | c :: rest =>
      match rest with
      | [] => if is_hyphen c then [] else [c]
      | _ :: _ => c :: strip_trailing_hyphen rest
      end
  end.

(** [s.replace(/^-|-$/g, '')]: a leading hyphen goes, then a trailing one
    of what is left. *)
Definition strip_edge_hyphens (s : Str) : Str :=
  strip_trailing_hyphen
    (match s with
     | c :: rest => if is_hyphen c then rest else s
     | [] => []
     end).

(** [s.lastIndexOf('-')], -1 when there is none. *)
Fixpoint last_index_from (i : Z) (found : Z) (s : Str) : Z :=
  match s with
  | [] => found
  | c :: rest => last_index_from (i + 1) (if is_hyphen c then i else found) rest
  end.

Definition lastIndexOf_hyphen (s : Str) : Z := last_index_from 0 (-1) s.

(** *** truncate *)

(** [truncate(str, maxLength, ellipsis = '...')] *)
Definition truncate (str : Str) (maxLength : Z) (ellipsis : option Str) : Outcome Str :=
  let ellipsis := match ellipsis with Some e => e | None => units "..." end in
  if maxLength <? len ellipsis then
    Throw (JsError "Error"
             ("maxLength (" +:+ num_to_string maxLength
              +:+ ") must be at least the length of ellipsis ("
              +:+ num_to_string (len ellipsis) +:+ ")"))
  else if len str <=? maxLength then Ok str
  else Ok (slice_to str (maxLength - len ellipsis) ++ ellipsis)%list.

(** *** White space *)

(** [collapseWhitespace(str)] *)
Definition collapseWhitespace (str : Str) : Str :=
  trim (replace_runs is_ws [space] str).

(** An argument of type [string | null | undefined]. *)
Inductive MaybeStr : Type :=
| SNull
| SUndefined
| SStr (s : Str).

(** [isBlank(str)] *)
Definition isBlank (str : MaybeStr) : bool :=
  match str with
  | SNull => true
  | SUndefined => true
  | SStr s => len (trim s) =? 0
  end.

(** [isNotBlank(str)] *)
Definition isNotBlank (str : MaybeStr) : bool := negb (isBlank str).

(** *** safeParseInt *)

Fixpoint take_while (p : N -> bool) (s : Str) : Str :=
  match s with
  | [] => []
  | c :: rest => if p c then c :: take_while p rest else []
  end.

(** What [parseInt(s, 10)] reads: the leading white space is skipped, a
    sign is taken, then the longest run of decimal digits; [None] (NaN)
    when that run is empty. *)
Definition parseInt_reads (s : Str) : option (bool * Str) :=
  let s1 := drop_while is_ws s in
  let '(negative, s2) :=
    match s1 with
    | c :: rest =>
        if (c =? 45)%N then (true, rest)
        else if (c =? 43)%N then (false, rest)
        else (false, s1)
    | [] => (false, s1)
    end in
  match take_while is_digit s2 with
  | [] => None
  | digits => Some (negative, digits)
  end.

Section Numbers.
(** JavaScript numbers, with the number [parseInt] makes of a sign and a
    run of digits, and zero. *)
Variable Number : Type.
Variable number_of_digits : bool -> Str -> Number.
Variable zero : Number.

(** [safeParseInt(str, defaultValue = 0)] *)
Definition safeParseInt (str : MaybeStr) (defaultValue : option Number) : Number :=
  let defaultValue := match defaultValue with Some d => d | None => zero end in
  if isBlank str then defaultValue
  else
    match str with
    | SStr s =>
        match parseInt_reads s with
        | Some (negative, digits) => number_of_digits negative digits
        | None => defaultValue
        end
    | _ => defaultValue
    end.

End Numbers.

(** *** escapeRegex *)

(** The characters of the class that [escapeRegex] matches: dot, star,
    plus, question mark, caret, dollar, braces, parentheses, bar, square
    brackets and backslash. *)
Definition is_regex_special (c : N) : bool :=
  ((c =? 46) || (c =? 42) || (c =? 43) || (c =? 63) || (c =? 94) || (c =? 36)
   || (c =? 123) || (c =? 125) || (c =? 40) || (c =? 41) || (c =? 124)
   || (c =? 91) || (c =? 93) || (c =? 92))%N.

(** [escapeRegex(str)]: each special character gets a backslash before
    it. *)
Definition escapeRegex (str : Str) : Str :=
  flat_map (fun c => if is_regex_special c then [backslash; c] else [c]) str.

(** *** Case conversions *)

(** [String.prototype.toLowerCase], [toUpperCase] and [normalize('NFD')]
    of the engine. *)
Class Unicode : Type := {
  toLowerCase : Str -> Str;
  toUpperCase : Str -> Str;
  normalizeNFD : Str -> Str
}.

(** [s.replace(/([a-z])([A-Z])/g, '$1-$2')] *)
Fixpoint split_camel (s : Str) : Str :=
  match s with
  | [] => []
  | a :: tl =>
      match tl with
      | b :: rest =>
          if is_lower a && is_upper b then a :: hyphen :: b :: split_camel rest
          else a :: split_camel tl
      | [] => [a]
      end
  end.

(** [[\s_]] *)
Definition is_kebab_separator (c : N) : bool := is_ws c || (c =? underscore)%N.

(** [[a-zA-Z0-9-]], the characters [toKebabCase] keeps. *)
Definition is_kebab_kept (c : N) : bool := is_alnum c || is_hyphen c.

(** [[-_\s]] *)
Definition is_camel_separator (c : N) : bool :=
  is_hyphen c || (c =? underscore)%N || is_ws c.

(** [[a-zA-Z0-9\s_-]], the characters [toCamelCase] keeps. *)
Definition is_camel_kept (c : N) : bool := is_alnum c || is_camel_separator c.

(** The combining diacritical marks, U+0300 to U+036F. *)
Definition is_combining (c : N) : bool := ((768 <=? c) && (c <=? 879))%N.

(** [[a-z0-9\s-]], the characters [slugify] keeps. *)
Definition is_slug_kept (c : N) : bool :=
  is_lower c || is_digit c || is_ws c || is_hyphen c.

Section Conversions.
Context `{Unicode}.

(** [toKebabCase(str)] *)
Definition toKebabCase (str : Str) : Str :=
  toLowerCase
    (strip_edge_hyphens
       (replace_runs is_hyphen [hyphen]
          (List.filter is_kebab_kept
             (replace_runs is_kebab_separator [hyphen]
                (split_camel str))))).

(** [s.replace(/[-_\s]+(.)?/g, (_, char) => (char ? char.toUpperCase() : ''))]:
    a run of separators goes, and the character after it, if there is
    one, is put in upper case. *)
Fixpoint camel_join (after_separator : bool) (s : Str) : Str :=
  match s with
  | [] => []
  | c :: rest =>
      if is_camel_separator c then camel_join true rest
      else ((if after_separator then toUpperCase [c] else [c])
            ++ camel_join false rest)%list
  end.

(** [s.replace(/^[A-Z]/, (char) => char.toLowerCase())] *)
Definition lower_first (s : Str) : Str :=
  match s with
  | c :: rest => if is_upper c then (toLowerCase [c] ++ rest)%list else s
  | [] => []
  end.

(** [toCamelCase(str)] *)
Definition toCamelCase (str : Str) : Str :=
  lower_first (camel_join false (List.filter is_camel_kept str)).

(** [toPascalCase(str)]:
    [camel.charAt(0).toUpperCase() + camel.slice(1)] *)
Definition toPascalCase (str : Str) : Str :=
  let camel := toCamelCase str in
  (toUpperCase (firstn 1 camel) ++ skipn 1 camel)%list.

(** [capitalize(str)] *)
Definition capitalize (str : Str) : Str :=
  if len str =? 0 then str
  else (toUpperCase (firstn 1 str) ++ skipn 1 str)%list.

(** [slugify(str, maxLength)]; [lastHyphen > maxLength * 0.5] is
    [2 * lastHyphen > maxLength] on integers. *)
Definition slugify (str : Str) (maxLength : option Z) : Str :=
  let slug :=
    strip_edge_hyphens
      (replace_runs is_hyphen [hyphen]
         (replace_runs is_ws [hyphen]
            (List.filter is_slug_kept
               (List.filter (fun c => negb (is_combining c))
                  (normalizeNFD (toLowerCase str)))))) in
  match maxLength with
  | Some maxLength =>
      if len slug >? maxLength then
        let slug1 := slice_to slug maxLength in
        let lastHyphen := lastIndexOf_hyphen slug1 in
        let slug2 := if 2 * lastHyphen >? maxLength
                     then slice_to slug1 lastHyphen else slug1 in
        strip_trailing_hyphen slug2
      else slug
  | None => slug
  end.

End Conversions.

(** *** pluralize and formatCount *)

(** [pluralize(word, count, pluralForm)]; an empty [pluralForm] is falsy
    and falls back to [word + 's']. *)
Definition pluralize (word : Str) (count : Z) (pluralForm : option Str) : Str :=
  if count =? 1 then word
  else match pluralForm with
       | Some (c :: rest) => c :: rest
       | _ => (word ++ units "s")%list
       end.

(** [formatCount(count, singular, plural)] *)
Definition formatCount (count : Z) (singular : Str) (plural : option Str) : Str :=
  (units (num_to_string count) ++ [space] ++ pluralize singular count plural)%list.

(** *** Shapes of results *)

(** No two neighbours both in the class. *)
Fixpoint no_adjacent (p : N -> bool) (s : Str) : bool :=
  match s with
  | [] => true
  | a :: tl =>
      match tl with
      | b :: _ => negb (p a && p b) && no_adjacent p tl
      | [] => true
      end
  end.

Definition starts_in (p : N -> bool) (s : Str) : bool :=
  match s with
  | c :: _ => p c
  | [] => false
  end.

Fixpoint ends_in (p : N -> bool) (s : Str) : bool :=
  match s with
  | [] => false
  | c :: rest =>
      match rest with
      | [] => p c
      | _ :: _ => ends_in p rest
      end
  end.

(** Words of the class [word] joined by single separators of the class
    [sep]: nothing else occurs, no separator stands first or last, no two
    stand side by side. *)
Definition joined (word sep : N -> bool) (s : Str) : bool :=
  forallb (fun c => word c || sep c) s
  && no_adjacent sep s && negb (starts_in sep s) && negb (ends_in sep s).

(** [[a-z0-9]] *)
Definition is_slug_word (c : N) : bool := is_lower c || is_digit c.

(** Lower-case words and digits joined by single hyphens: what
    [toKebabCase] and [slugify] produce. *)
Definition hyphenated (s : Str) : bool := joined is_slug_word is_hyphen s.

(** Where [truncate] cuts: the default ellipsis is three dots. *)
Definition ellipsis_or_default (ellipsis : option Str) : Str :=
  match ellipsis with Some e => e | None => units "..." end.

(** What [collapseWhitespace] leaves: the only white space is the space
    character, never first, never last, never twice in a row. *)
Definition single_spaced (s : Str) : bool :=
  forallb (fun c => negb (is_ws c) || (c =? space)%N) s
  && no_adjacent is_ws s && negb (starts_in is_ws s) && negb (ends_in is_ws s).

(** The sign [parseInt] may read: a minus, a plus, or none. *)
Definition sign_units (sign : option bool) : Str :=
  match sign with
  | Some true => [45%N]
  | Some false => [43%N]
  | None => []
  end.

Definition is_negative (sign : option bool) : bool :=
  match sign with Some true => true | _ => false end.

Definition is_sign_or_ws (c : N) : bool := is_ws c || (c =? 45)%N || (c =? 43)%N.

Definition count_special (s : Str) : Z :=
  Z.of_nat (List.length (List.filter is_regex_special s)).

(** The engine's case mappings agree with the ASCII ones on ASCII
    strings. *)
Definition ascii_case_laws `{Unicode} : Prop :=
  (forall s, forallb is_ascii s = true -> toLowerCase s = map lower_ascii s) /\
  (forall s, forallb is_ascii s = true -> toUpperCase s = map upper_ascii s).

(** Mappings that satisfy them, for running the conversions. *)
Definition ascii_only : Unicode :=
  {| toLowerCase := map lower_ascii;
     toUpperCase := map upper_ascii;
     normalizeNFD := fun s => s |}.

(** The integer a run of decimal digits denotes. *)
Definition digits_value (digits : Str) : Z :=
  fold_left (fun acc d => 10 * acc + (Z.of_N d - 48)) digits 0.

(** What ECMAScript fixes of the number [parseInt] makes of a sign and a
    run of decimal digits: up to 2^53 it is the integer they denote,
    exactly, and negative zero for a zero after a minus sign.  [integer]
    is the number that an integer is. *)
Definition exact_on_safe_integers (Number : Type) (integer : Z -> Number)
    (negative_zero : Number) (number_of_digits : bool -> Str -> Number) : Prop :=
  forall (negative : bool) (digits : Str),
    digits <> [] -> forallb is_digit digits = true ->
    digits_value digits <= 2 ^ 53 ->
    number_of_digits negative digits
    = if negative
      then (if digits_value digits =? 0 then negative_zero
            else integer (- digits_value digits))
      else integer (digits_value digits).

(** The integer a sign and a run of decimal digits denote, for running
    [safeParseInt] on small numbers. *)
Definition decimal_value (negative : bool) (digits : Str) : Z :=
  let magnitude := fold_left (fun acc d => 10 * acc + (Z.of_N d - 48)) digits 0 in
  if negative then - magnitude else magnitude.

End StringUtils.

(** ** Graph view: features to nodes and edges ([use-graph-nodes.ts]) *)

Module GraphNodes.

Section Graph.

(** [Feature['status']] and the background settings are carried, never
    inspected. *)
Variables Status Background RenderMode : Type.

(** The fields of a [Feature] the hook reads; [dependencies] may be
    absent. *)
Record Feature : Type := {
  id : string;
  status : Status;
  dependencies : option (list string)
}.

(** [createFeatureMap] and [getBlockingDependenciesFromMap] of
    [@automaker/dependency-resolver]. *)
Class Resolver : Type := {
  createFeatureMap : list Feature -> gmap string Feature;
  getBlockingDependenciesFromMap : Feature -> gmap string Feature -> list string
}.

(** [GraphFilterResult] *)
Record FilterResult : Type := {
  hasActiveFilter : bool;
  matchedNodeIds : gset string;
  highlightedNodeIds : gset string;
  highlightedEdgeIds : gset string
}.

(** The node actions a caller may supply a callback for. *)
Inductive Action : Type :=
| ViewLogs | ViewDetails | StartTask | StopTask | ResumeTask | SpawnTask | DeleteTask.

(** [NodeActionCallbacks]: which callbacks are supplied. *)
Record Callbacks : Type := {
  supplied : Action -> bool;
  onDeleteDependency : bool
}.

(** A [TaskNode]: [type] is always [task] and [position] the origin.
    [bound a] is the feature id the callback for [a] is bound to, when
    that callback was supplied. *)
Record TaskNode : Type := {
  node_id : string;
  data : Feature;
  isBlocked : bool;
  isRunning : bool;
  blockingDependencies : list string;
  isMatched : bool;
  isHighlighted : bool;
  isDimmed : bool;
  background : option Background;
  nodeRenderMode : RenderMode;
  bound : Action -> option string
}.

(** A [DependencyEdge]: [type] is always [dependency]. *)
Record DependencyEdge : Type := {
  edge_id : string;
  source : string;
  target : string;
  animated : bool;
  sourceStatus : Status;
  targetStatus : Status;
  edgeIsHighlighted : bool;
  edgeIsDimmed : bool;
  deleteDependency : bool;
  edgeRenderMode : RenderMode
}.

Context `{Resolver}.

(** The arguments of [useGraphNodes]. *)
Record Props : Type := {
  features : list Feature;
  runningAutoTasks : list string;
  filterResult : option FilterResult;
  actionCallbacks : option Callbacks;
  backgroundSettings : option Background;
  renderMode : RenderMode;
  enableEdgeAnimations : bool
}.

Definition filter_active (props : Props) : bool :=
  match filterResult props with Some f => hasActiveFilter f | None => false end.

Definition in_filter (pick : FilterResult -> gset string) (props : Props) (x : string) : bool :=
  match filterResult props with
  | Some f => bool_decide (x ∈ pick f)
  | None => false
  end.

Definition running (props : Props) (x : string) : bool :=
  bool_decide (x ∈ (list_to_set (runningAutoTasks props) : gset string)).

(** The node made for one feature. *)
Definition node_of (props : Props) (featureMap : gmap string Feature)
    (feature : Feature) : TaskNode :=
  let blockingDeps := getBlockingDependenciesFromMap feature featureMap in
  {| node_id := id feature;
     data := feature;
     isBlocked := negb (Nat.eqb (List.length blockingDeps) 0);
     isRunning := running props (id feature);
     blockingDependencies := blockingDeps;
     isMatched := filter_active props && in_filter matchedNodeIds props (id feature);
     isHighlighted := filter_active props && in_filter highlightedNodeIds props (id feature);
     isDimmed := filter_active props
                 && negb (in_filter highlightedNodeIds props (id feature));
     background := backgroundSettings props;
     nodeRenderMode := renderMode props;
     bound := fun a =>
       match actionCallbacks props with
       | Some cb => if supplied cb a then Some (id feature) else None
       | None => None
       end |}.

(** The edges made for one feature: one for each dependency found in the
    feature map, in the order of the dependency list. *)
Definition edges_of (props : Props) (featureMap : gmap string Feature)
    (feature : Feature) : list DependencyEdge :=
  match dependencies feature with
  | Some deps =>
      omap (fun depId =>
              match featureMap !! depId with
              | Some sourceFeature =>
                  let edgeId := (depId +:+ "->" +:+ id feature)%string in
                  Some {| edge_id := edgeId;
                          source := depId;
                          target := id feature;
                          animated := enableEdgeAnimations props
                                      && (running props (id feature) || running props depId);
                          sourceStatus := status sourceFeature;
                          targetStatus := status feature;
                          edgeIsHighlighted :=
                            filter_active props && in_filter highlightedEdgeIds props edgeId;
                          edgeIsDimmed :=
                            filter_active props
                            && negb (in_filter highlightedEdgeIds props edgeId);
                          deleteDependency :=
                            match actionCallbacks props with
                            | Some cb => onDeleteDependency cb
                            | None => false
                            end;
                          edgeRenderMode := renderMode props |}
              | None => None
              end)
           deps
  | None => []
  end.

(** The callback of the [useMemo]: the nodes and the edges, in the order
    the features are listed.  What the hook returns over a sequence of
    calls is [rendered] below. *)
Definition useGraphNodes (props : Props) : list TaskNode * list DependencyEdge :=
  let featureMap := createFeatureMap (features props) in
  (map (node_of props featureMap) (features props),
   flat_map (edges_of props featureMap) (features props)).

(** The dependency array of the [useMemo]:
    [[features, runningAutoTasks, filterResult, actionCallbacks,
    backgroundSettings]].  [renderMode] and [enableEdgeAnimations] are
    read by the callback and are not in it. *)
Definition memo_deps (props : Props)
  : list Feature * list string * option FilterResult * option Callbacks
    * option Background :=
  (features props, runningAutoTasks props, filterResult props,
   actionCallbacks props, backgroundSettings props).

(** One call of the hook: its arguments, and whether React runs the
    callback of the [useMemo] again at this call or hands back the value
    it remembers. *)
Record Render : Type := {
  args : Props;
  recomputed : bool
}.

(** [useMemo(callback, deps)]: the first call runs the callback; a later
    call runs it again or returns the remembered value. *)
Definition memo_render (cache : option (list TaskNode * list DependencyEdge))
    (r : Render) : list TaskNode * list DependencyEdge :=
  match cache with
  | Some remembered => if recomputed r then useGraphNodes (args r) else remembered
  | None => useGraphNodes (args r)
  end.

(** [{ nodes, edges }] as the hook returns them at the last of a sequence
    of calls. *)
Definition rendered (first : Render) (later : list Render)
  : list TaskNode * list DependencyEdge :=
  fold_left (fun out r => memo_render (Some out) r) later (memo_render None first).

(** React's rule for the memo: the remembered value is handed back only
    at a call whose dependencies are those of the call before. *)
Fixpoint memo_respected (previous : Props) (later : list Render) : Prop :=
  match later with
  | [] => True
  | r :: rest =>
      (recomputed r = false -> memo_deps (args r) = memo_deps previous)
      /\ memo_respected (args r) rest
  end.

(** The arguments of the call at which the callback last ran, and those
    of the last call. *)
Fixpoint computed_at (ran_at : Props) (later : list Render) : Props :=
  match later with
  | [] => ran_at
  | r :: rest => computed_at (if recomputed r then args r else ran_at) rest
  end.

Fixpoint current_args (previous : Props) (later : list Render) : Props :=
  match later with
  | [] => previous
  | r :: rest => current_args (args r) rest
  end.

(** The feature map knows exactly the listed features, each under its
    id. *)
Definition map_of_features : Prop :=
  forall (fs : list Feature) (k : string) (f : Feature),
    createFeatureMap fs !! k = Some f -> In f fs /\ id f = k.

End Graph.

Arguments id {Status} f.
Arguments status {Status} f.
Arguments dependencies {Status} f.
Arguments node_id {Status Background RenderMode} t.
Arguments isMatched {Status Background RenderMode} t.
Arguments isHighlighted {Status Background RenderMode} t.
Arguments isDimmed {Status Background RenderMode} t.
Arguments edge_id {Status RenderMode} d.
Arguments source {Status RenderMode} d.
Arguments target {Status RenderMode} d.
Arguments animated {Status RenderMode} d.
Arguments edgeIsHighlighted {Status RenderMode} d.
Arguments edgeIsDimmed {Status RenderMode} d.
Arguments features {Status Background RenderMode} p.
Arguments enableEdgeAnimations {Status Background RenderMode} p.
Arguments filter_active {Status Background RenderMode} props.
Arguments running {Status Background RenderMode} props x.
Arguments useGraphNodes {Status Background RenderMode _} props.
Arguments map_of_features {Status _}.
Arguments createFeatureMap {Status _} fs.
Arguments getBlockingDependenciesFromMap {Status _} f m.
Arguments node_of {Status Background RenderMode _} props featureMap feature.
Arguments edges_of {Status Background RenderMode} props featureMap feature.
Arguments in_filter {Status Background RenderMode} pick props x.
Arguments runningAutoTasks {Status Background RenderMode} p.
Arguments filterResult {Status Background RenderMode} p.
Arguments actionCallbacks {Status Background RenderMode} p.
Arguments backgroundSettings {Status Background RenderMode} p.
Arguments args {Status Background RenderMode} r.
Arguments recomputed {Status Background RenderMode} r.
Arguments memo_deps {Status Background RenderMode} props.
Arguments rendered {Status Background RenderMode _} first later.
Arguments memo_respected {Status Background RenderMode} previous later.
Arguments computed_at {Status Background RenderMode} ran_at later.
Arguments current_args {Status Background RenderMode} previous later.

(** A feature map built by inserting each feature under its id. *)
Definition by_id {Status : Type} : Resolver Status :=
  {| createFeatureMap := fun fs => list_to_map (map (fun f => (id f, f)) fs);
     getBlockingDependenciesFromMap := fun f m =>
       match dependencies f with
       | Some deps => List.filter (fun d => bool_decide (is_Some (m !! d))) deps
       | None => []
       end |}.

(** Three tasks: [b] and [c] depend on [a], [c] also on a task that is
    not in the view. *)
Definition three_tasks : Props bool unit unit :=
  {| features := [ {| id := "a"; status := true; dependencies := None |};
                   {| id := "b"; status := false; dependencies := Some ["a"] |};
                   {| id := "c"; status := false; dependencies := Some ["a"; "gone"] |} ];
     runningAutoTasks := ["b"];
     filterResult := Some {| hasActiveFilter := true;
                             matchedNodeIds := {["b"]};
                             highlightedNodeIds := {["a"; "b"]};
                             highlightedEdgeIds := {["a->b"]} |};
     actionCallbacks := None;
     backgroundSettings := None;
     renderMode := tt;
     enableEdgeAnimations := true |}.

(** The three tasks drawn once, then the hook called again with edge
    animations switched off and everything else as it was. *)
Definition drawn : Render bool unit unit :=
  {| args := three_tasks; recomputed := true |}.

Definition animations_off : Render bool unit unit :=
  {| args := {| features := features three_tasks;
                runningAutoTasks := runningAutoTasks three_tasks;
                filterResult := filterResult three_tasks;
                actionCallbacks := actionCallbacks three_tasks;
                backgroundSettings := backgroundSettings three_tasks;
                renderMode := tt;
                enableEdgeAnimations := false |};
     recomputed := false |}.

End GraphNodes.

(** ** Update routes ([routes/updates]) *)

Module Updates.

Import Routes Worktree.

(** *** isValidGitUrl *)

(** The class [[;`|&<>()$!\\[\] ]]: the characters [isValidGitUrl]
    blocks. *)
Definition is_shell_char (c : ascii) : bool :=
  let n := nat_of_ascii c in
  (Nat.eqb n 59 || Nat.eqb n 96 || Nat.eqb n 124 || Nat.eqb n 38 || Nat.eqb n 60
   || Nat.eqb n 62 || Nat.eqb n 40 || Nat.eqb n 41 || Nat.eqb n 36 || Nat.eqb n 33
   || Nat.eqb n 92 || Nat.eqb n 91 || Nat.eqb n 93 || Nat.eqb n 32)%bool.

(** [regexp.test(s)] for a one-character class. *)
Fixpoint has_char (p : ascii -> bool) (s : string) : bool :=
  match s with
  | EmptyString => false
  | String c rest => p c || has_char p rest
  end.

Definition starts_with_protocol (url : string) : bool :=
  (String.prefix "https://" url || String.prefix "git@" url
   || String.prefix "git://" url || String.prefix "ssh://" url)%bool.

(** [isValidGitUrl(url)] *)
Definition isValidGitUrl (url : string) : bool :=
  let startsWithValidProtocol := starts_with_protocol url in
  let hasShellChars := has_char is_shell_char url in
  startsWithValidProtocol && negb hasShellChars.

(** *** The update check *)

(** A double quote, as it stands around the URL in the command line. *)
Definition dquote : string := String (ascii_of_nat 34) EmptyString.

(** Beside the shell: the settings service, the source of random remote
    names ([crypto.randomBytes(8).toString('hex')]) and the install path
    ([getAutomakerRoot()]). *)
Class Installation (E : Type) : Type := {
  getGlobalSettings : E -> Outcome JSVal * E;
  randomHex : E -> string * E;
  getAutomakerRoot : string
}.

Definition defaultUpstream : string := "https://github.com/AutoMaker-Org/automaker.git".

Section Handlers.
Context {E : Type} `{Shell E} `{Installation E} `{Common}.

(** [isGitAvailable()] *)
Definition isGitAvailable : M (Host E) bool :=
  try_catch (run_command "git --version" VUndefined ;;; ret true)
            (fun _ => ret false).

(** [isGitRepo(repoPath)] *)
Definition isGitRepo (repoPath : string) : M (Host E) bool :=
  try_catch (run_command "git rev-parse --is-inside-work-tree" (VStr repoPath) ;;; ret true)
            (fun _ => ret false).

(** [getCurrentCommit(repoPath)] *)
Definition getCurrentCommit (repoPath : string) : M (Host E) string :=
  let! stdout := run_command "git rev-parse HEAD" (VStr repoPath) in
  ret (trim stdout).

(** [getShortCommit(repoPath)] *)
Definition getShortCommit (repoPath : string) : M (Host E) string :=
  let! stdout := run_command "git rev-parse --short HEAD" (VStr repoPath) in
  ret (trim stdout).

(** [hasLocalChanges(repoPath)] *)
Definition hasLocalChanges (repoPath : string) : M (Host E) bool :=
  let! stdout := run_command "git status --porcelain" (VStr repoPath) in
  ret (negb (Nat.eqb (String.length (trim stdout)) 0)).

(** [settings.autoUpdate?.upstreamUrl || default] *)
Definition upstream_of (settings : JSVal) : M (Host E) JSVal :=
  if negb (object_coercible settings) then
    throw (JsError "TypeError" "Cannot read properties of undefined")
  else
    let autoUpdate := get_prop settings "autoUpdate" in
    let upstreamUrl :=
      if object_coercible autoUpdate then get_prop autoUpdate "upstreamUrl"
      else VUndefined in
    ret (if truthy upstreamUrl then upstreamUrl else VStr defaultUpstream).

(** [isValidGitUrl(sourceUrl)] on whatever the settings hold: only a
    string has [startsWith]. *)
Definition validate_url (sourceUrl : JSVal) : M (Host E) (bool * string) :=
  match sourceUrl with
  | VStr url => ret (isValidGitUrl url, url)
  | _ => throw (JsError "TypeError" "url.startsWith is not a function")
  end.

(** [try { body } finally { cleanup }], for a cleanup that swallows its
    own errors. *)
Definition try_finally {S A} (body : M S A) (cleanup : M S unit) : M S A :=
  fun w =>
    let '(r, w1) := body w in
    (r, snd (cleanup w1)).

Definition add_remote (name url : string) : string :=
  "git remote add " +:+ name +:+ " " +:+ dquote +:+ url +:+ dquote.

Definition remove_remote (name : string) : string := "git remote remove " +:+ name.

(** [createCheckHandler(settingsService)]; the request is not read. *)
Definition createCheckHandler : M (Host E) unit :=
  try_catch
    (let installPath := getAutomakerRoot in
     let! available := isGitAvailable in
     if negb available then
       res_status 500 ;;;
       res_json (obj_literal
         [("success", VBool false);
          ("error", VStr "Git is not installed or not available in PATH")])
     else
       let! repo := isGitRepo installPath in
       if negb repo then
         res_status 500 ;;;
         res_json (obj_literal
           [("success", VBool false);
            ("error", VStr "Automaker installation is not a git repository")])
       else
         let! settings := on_host getGlobalSettings in
         let! sourceUrl := upstream_of settings in
         let! checked := validate_url sourceUrl in
         if negb (fst checked) then
           res_status 400 ;;;
           res_json (obj_literal
             [("success", VBool false); ("error", VStr "Invalid upstream URL format")])
         else
           let url := snd checked in
           let! localVersion := getCurrentCommit installPath in
           let! localVersionShort := getShortCommit installPath in
           let! hex := on_host (fun e => let '(h, e') := randomHex e in (Ok h, e')) in
           let tempRemoteName := "automaker-update-check-" +:+ hex in
           try_finally
             (try_catch
                (run_command (add_remote tempRemoteName url) (VStr installPath) ;;;
                 run_command ("git fetch " +:+ tempRemoteName +:+ " main")
                             (VStr installPath) ;;;
                 let! remoteVersionOutput :=
                   run_command ("git rev-parse " +:+ tempRemoteName +:+ "/main")
                               (VStr installPath) in
                 let remoteVersion := trim remoteVersionOutput in
                 let! remoteVersionShortOutput :=
                   run_command ("git rev-parse --short " +:+ tempRemoteName +:+ "/main")
                               (VStr installPath) in
                 let remoteVersionShort := trim remoteVersionShortOutput in
                 let! updateAvailable :=
                   if negb (String.eqb localVersion remoteVersion) then
                     try_catch
                       (run_command ("git merge-base --is-ancestor " +:+ localVersion
                                     +:+ " " +:+ remoteVersion) (VStr installPath) ;;;
                        ret true)
                       (fun _ => ret false)
                   else ret false in
                 res_json (obj_literal
                   [("success", VBool true);
                    ("result", VObj (obj_literal
                       [("updateAvailable", VBool updateAvailable);
                        ("localVersion", VStr localVersion);
                        ("localVersionShort", VStr localVersionShort);
                        ("remoteVersion", VStr remoteVersion);
                        ("remoteVersionShort", VStr remoteVersionShort);
                        ("sourceUrl", VStr url);
                        ("installPath", VStr installPath)]))]))
                (fun fetchError =>
                   let errorMsg := getErrorMessage fetchError in
                   logError fetchError "Failed to fetch from upstream" ;;;
                   res_json (obj_literal
                     [("success", VBool true);
                      ("result", VObj (obj_literal
                         [("updateAvailable", VBool false);
                          ("localVersion", VStr localVersion);
                          ("localVersionShort", VStr localVersionShort);
                          ("remoteVersion", VNull);
                          ("remoteVersionShort", VNull);
                          ("sourceUrl", VStr url);
                          ("installPath", VStr installPath);
                          ("error", VStr ("Could not fetch from upstream: "
                                          +:+ errorMsg))]))])))
             (ignoring_errors
                (run_command (remove_remote tempRemoteName) (VStr installPath))))
    (fun error =>
       logError error "Update check failed" ;;;
       res_status 500 ;;;
       res_json (obj_literal [("success", VBool false);
                              ("error", VStr (getErrorMessage error))])).

End Handlers.

(** The commands of a run that add a remote. *)
Definition is_remote_add (command : string) : bool :=
  String.prefix "git remote add " command.

Definition merge_base (localVersion remoteVersion : string) : string :=
  "git merge-base --is-ancestor " +:+ localVersion +:+ " " +:+ remoteVersion.

(** *** A simulated installation

    Git is installed and [/opt/automaker] is a repository at commit
    [1111111]; the configured upstream is a fork; fetching fails when the
    machine is offline. *)
Definition simulated_git (online : bool) (command : string) (cwd : JSVal) (e : unit)
  : Outcome string * unit :=
  if String.prefix "git fetch " command && negb online then
    (Throw (JsError "Error" "Could not resolve host"), e)
  else if String.eqb command "git rev-parse HEAD" then (Ok (porcelain ["1111111aaaa"]), e)
  else if String.eqb command "git rev-parse --short HEAD" then (Ok (porcelain ["1111111"]), e)
  else if String.prefix "git rev-parse --short " command then (Ok (porcelain ["2222222"]), e)
  else if String.prefix "git rev-parse " command then (Ok (porcelain ["2222222bbbb"]), e)
  else (Ok "", e).

Definition installed (online : bool) : Shell unit :=
  {| execAsync := simulated_git online;
     access := fun _ e => (Ok tt, e);
     path_join := fun _ b c => Ok (b +:+ "/" +:+ c);
     normalizePath := fun p => p |}.

Definition with_upstream (upstream : JSVal) : Installation unit :=
  {| getGlobalSettings := fun e =>
       (Ok (VObj [("autoUpdate", VObj [("upstreamUrl", upstream)])]), e);
     randomHex := fun e => ("00ff00ff00ff00ff", e);
     getAutomakerRoot := "/opt/automaker" |}.

Definition fork : string := "https://example.com/fork.git".

(** The check with and without a network. *)
Abbreviation online_check :=
  (@createCheckHandler unit (installed true) (with_upstream (VStr fork)) message_of
     (initial_world (fresh_host tt))).

Abbreviation offline_check :=
  (@createCheckHandler unit (installed false) (with_upstream (VStr fork)) message_of
     (initial_world (fresh_host tt))).

Definition offline_commands : list string :=
  ["git --version"; "git rev-parse --is-inside-work-tree"; "git rev-parse HEAD";
   "git rev-parse --short HEAD";
   add_remote "automaker-update-check-00ff00ff00ff00ff" fork;
   "git fetch automaker-update-check-00ff00ff00ff00ff main";
   remove_remote "automaker-update-check-00ff00ff00ff00ff"].

(** What the online check answers: the fork is ahead. *)
Definition update_found : Obj :=
  [("success", VBool true);
   ("result", VObj [("updateAvailable", VBool true);
                    ("localVersion", VStr "1111111aaaa");
                    ("localVersionShort", VStr "1111111");
                    ("remoteVersion", VStr "2222222bbbb");
                    ("remoteVersionShort", VStr "2222222");
                    ("sourceUrl", VStr fork);
                    ("installPath", VStr "/opt/automaker")])].

End Updates.

(** ** The concurrency bound *)

Module SchedulerFacts.

Import Scheduler Scenarios.
Local Open Scope nat_scope.






Lemma tick_ceiling (st : AutoLoopState) (snapshot : list Feature) :
  maxConcurrency (fst (tick st snapshot)) = maxConcurrency st.
Proof.
  unfold tick.
  destruct (isRunning st && negb (cancellationRequested st)); [|reflexivity].
  destruct (dispatch _ _ _) as [R' ids]. reflexivity.
Qed.











(** The determinism property of section 8: under a ceiling of two the
    first tick dispatches B then C, and B's completion dispatches A. *)
Example dispatch_order :
  let st := start_loop 3 (Some 2%positive) None in
  snd (tick st backlog0) = ["B"; "C"] /\
  snd (complete (fst (tick st backlog0)) false (Success "B") backlog1) = ["A"].
Proof. split; vm_compute; reflexivity. Qed.

(** Dependency gating: a feature whose dependency is known and not yet
    verified is no candidate; an unknown dependency blocks nothing. *)
Example dependency_gating :
  let y := feature "Y" 1 in
  let x := {| id := "X"; status := backlog; dependencies := ["Y"; "gone"];
              priority := 1; complexity := "" |} in
  map id (candidates [x; y] ∅) = ["Y"] /\
  map id (candidates [x; hd y (settle true (Success "Y") [y])] ∅) = ["X"].
Proof. split; vm_compute; reflexivity. Qed.




End SchedulerFacts.

(** ** The handlers *)

Module RouteFacts.

Import Routes Scheduler Facade Scenarios.

(** Unfolds one handler run down to the service calls. *)
Ltac run_handler :=
  unfold handle, createStartHandler, createStopHandler, createStatusHandler,
    try_catch, bind, invoke, destructure, ret, throw, res_status, res_json,
    logger_info, logError, initial_world, worktreeDesc, sent, fresh_response;
  cbn [get_prop object_coercible service calls logs res statusCode body negb
       fst snd app].

Ltac reduce_handler :=
  cbn [get_prop object_coercible service calls logs res statusCode body negb
       fst snd app].

(** Splits on the outcome of the next service call in the goal. *)
Ltac next_call :=
  match goal with
  | |- context [isAutoLoopRunningForProject ?p ?b ?s] =>
      destruct (isAutoLoopRunningForProject p b s) as [[[|]|?] ?]
  | |- context [startAutoLoopForProject ?p ?b ?m ?s] =>
      destruct (startAutoLoopForProject p b m s) as [[?|?] ?]
  | |- context [stopAutoLoopForProject ?p ?b ?s] =>
      destruct (stopAutoLoopForProject p b s) as [[?|?] ?]
  | |- context [getStatusForProject ?p ?b ?s] =>
      destruct (getStatusForProject p b s) as [[?|?] ?]
  | |- context [getStatus ?s] =>
      destruct (getStatus s) as [[?|?] ?]
  | |- context [getActiveAutoLoopProjects ?s] =>
      destruct (getActiveAutoLoopProjects s) as [[?|?] ?]
  | |- context [getActiveAutoLoopWorktrees ?s] =>
      destruct (getActiveAutoLoopWorktrees s) as [[?|?] ?]
  end;
  cbn [get_prop object_coercible service calls logs res statusCode body negb
       fst snd app].

Section Objects.

Lemma obj_get_set (o : Obj) (k k' : string) (v : JSVal) :
  obj_get (obj_set o k v) k' = if String.eqb k k' then v else obj_get o k'.
Proof.
  induction o as [|[k0 v0] rest IH]; simpl.
  - reflexivity.
  - destruct (String.eqb k0 k) eqn:E0; simpl.
    + apply String.eqb_eq in E0; subst k0.
      destruct (String.eqb k k'); reflexivity.
    + rewrite IH. destruct (String.eqb k0 k') eqn:E1; [|reflexivity].
      apply String.eqb_eq in E1; subst k0. rewrite String.eqb_sym, E0. reflexivity.
Qed.

Lemma obj_has_set (o : Obj) (k k' : string) (v : JSVal) :
  obj_has (obj_set o k v) k' = String.eqb k k' || obj_has o k'.
Proof.
  induction o as [|[k0 v0] rest IH]; simpl.
  - reflexivity.
  - destruct (String.eqb k0 k) eqn:E0; simpl.
    + apply String.eqb_eq in E0; subst k0.
      destruct (String.eqb k k'); reflexivity.
    + rewrite IH. destruct (String.eqb k0 k'), (String.eqb k k'); reflexivity.
Qed.

Lemma obj_get_fold (entries : list (string * JSVal)) (k : string) :
  forall o : Obj,
    obj_get (fold_left (fun o kv => obj_set o (fst kv) (snd kv)) entries o) k
    = entries_get entries k (obj_get o k).
Proof.
  induction entries as [|[k0 v0] rest IH]; intros o; simpl; [reflexivity|].
  rewrite IH, obj_get_set. reflexivity.
Qed.

Lemma obj_has_fold (entries : list (string * JSVal)) (k : string) :
  forall o : Obj,
    obj_has (fold_left (fun o kv => obj_set o (fst kv) (snd kv)) entries o) k
    = obj_has entries k || obj_has o k.
Proof.
  induction entries as [|[k0 v0] rest IH]; intros o; simpl; [reflexivity|].
  rewrite IH, obj_has_set.
  destruct (String.eqb k0 k), (obj_has rest k), (obj_has o k); reflexivity.
Qed.

Lemma entries_get_app (a b : list (string * JSVal)) (k : string) (d : JSVal) :
  entries_get (a ++ b) k d = entries_get b k (entries_get a k d).
Proof.
  revert d. induction a as [|[k0 v0] rest IH]; intros d; simpl; [reflexivity|].
  apply IH.
Qed.

Lemma entries_get_absent (a : list (string * JSVal)) (k : string) (d : JSVal) :
  obj_has a k = false -> entries_get a k d = d.
Proof.
  revert d. induction a as [|[k0 v0] rest IH]; intros d Hk; simpl in *; [reflexivity|].
  apply orb_false_iff in Hk as [Hk0 Hrest]. rewrite Hk0. auto.
Qed.

Lemma obj_has_In (a : list (string * JSVal)) (k : string) (v : JSVal) :
  In (k, v) a -> obj_has a k = true.
Proof.
  induction a as [|[k0 v0] rest IH]; simpl; [tauto|].
  intros [Heq|Hin].
  - inversion Heq; subst. rewrite String.eqb_refl. reflexivity.
  - rewrite (IH Hin). apply orb_true_r.
Qed.

(** In an object (no key twice) the value an entry list gives a key is
    the value of the one entry that has it. *)
Lemma entries_get_In (a : list (string * JSVal)) (k : string) (v d : JSVal) :
  List.NoDup (map fst a) -> In (k, v) a -> entries_get a k d = v.
Proof.
  revert d. induction a as [|[k0 v0] rest IH]; intros d Hnd Hin; simpl in *; [tauto|].
  inversion Hnd as [|? ? Hk0 Hrest]; subst.
  destruct Hin as [Heq|Hin].
  - inversion Heq; subst. rewrite String.eqb_refl.
    apply entries_get_absent.
    destruct (obj_has rest k) eqn:E; [|reflexivity].
    exfalso. apply Hk0. clear -E.
    induction rest as [|[k1 v1] rest IH]; simpl in *; [discriminate|].
    destruct (String.eqb k1 k) eqn:E1.
    + left. apply String.eqb_eq in E1. exact E1.
    + right. auto.
  - apply IH; assumption.
Qed.

Lemma obj_has_app (a b : list (string * JSVal)) (k : string) :
  obj_has (a ++ b)%list k = obj_has a k || obj_has b k.
Proof.
  induction a as [|[k0 v0] rest IH]; simpl; [reflexivity|].
  rewrite IH. apply orb_assoc.
Qed.

Lemma obj_get_absent (o : Obj) (k : string) :
  obj_has o k = false -> obj_get o k = VUndefined.
Proof.
  induction o as [|[k0 v0] rest IH]; simpl; [reflexivity|].
  intros Hk. apply orb_false_iff in Hk as [Hk0 Hrest]. rewrite Hk0. auto.
Qed.

End Objects.

Section HandlerFacts.

Context {S : Type} {svc : AutoModeService S} {cmn : Common}.

(** A falsy [projectPath] is refused before the service is touched. *)
Lemma start_refuses_falsy (req_body : JSVal) (s : S) :
  object_coercible req_body = true ->
  truthy (get_prop req_body "projectPath") = false ->
  handle createStartHandler req_body s
  = (Ok tt, {| service := s; calls := []; logs := [];
               res := sent 400 [("success", VBool false);
                                ("error", VStr "projectPath is required")] |}).
Proof.
  intros Hc Hp. run_handler. rewrite Hc, Hp. reflexivity.
Qed.

Lemma stop_refuses_falsy (req_body : JSVal) (s : S) :
  object_coercible req_body = true ->
  truthy (get_prop req_body "projectPath") = false ->
  handle createStopHandler req_body s
  = (Ok tt, {| service := s; calls := []; logs := [];
               res := sent 400 [("success", VBool false);
                                ("error", VStr "projectPath is required")] |}).
Proof.
  intros Hc Hp. run_handler. rewrite Hc, Hp. reflexivity.
Qed.

(** C4: a [/start] or [/stop] request whose body has [projectPath]
    missing, undefined or the empty string is answered 400 with
    [success: false] and the error text [projectPath is required], and no
    method of the service is invoked (the service state is untouched). *)
Theorem projectPath_required (o : Obj) (s : S) :
  obj_get o "projectPath" = VUndefined \/ obj_get o "projectPath" = VStr "" ->
  let refusal :=
    (Ok tt, {| service := s; calls := []; logs := [];
               res := sent 400 [("success", VBool false);
                                ("error", VStr "projectPath is required")] |}) in
  handle createStartHandler (VObj o) s = refusal /\
  handle createStopHandler (VObj o) s = refusal.
Proof.
  intros Hp.
  assert (Hf : truthy (get_prop (VObj o) "projectPath") = false).
  { simpl. destruct Hp as [-> | ->]; reflexivity. }
  split; [apply start_refuses_falsy | apply stop_refuses_falsy];
    solve [reflexivity | exact Hf].
Qed.

(** C2: a [/start] request for a key whose loop is already running is
    answered 200 with [success: true] and [alreadyRunning: true]; the one
    service call made is the running query, [startAutoLoopForProject] is
    not invoked, and whatever the query leaves alone (the key's
    maxConcurrency, for one) the handler leaves alone. *)
Theorem start_already_running (o : Obj) (s s' : S)
    (A : Type) (maxConcurrencyOf : S -> A) :
  let projectPath := obj_get o "projectPath" in
  let branch := nullish (obj_get o "branchName") VNull in
  truthy projectPath = true ->
  isAutoLoopRunningForProject projectPath branch s = (Ok true, s') ->
  maxConcurrencyOf s' = maxConcurrencyOf s ->
  exists w,
    handle createStartHandler (VObj o) s = (Ok tt, w) /\
    res w = sent 200 [("success", VBool true);
                      ("message", VStr ("Auto mode is already running for "
                                        +:+ worktreeDesc branch));
                      ("alreadyRunning", VBool true);
                      ("branchName", branch)] /\
    calls w = [(CIsAutoLoopRunningForProject projectPath branch, None)] /\
    (forall p b m r, ~ In (CStartAutoLoopForProject p b m, r) (calls w)) /\
    maxConcurrencyOf (service w) = maxConcurrencyOf s.
Proof.
  intros projectPath branch Hp Hq Hc. subst projectPath branch.
  eexists. split.
  - run_handler. rewrite Hp. reduce_handler. rewrite Hq. reflexivity.
  - cbn [res calls service]. repeat split; try assumption.
    intros p b m r [Heq|[]]. discriminate.
Qed.

(** C3: a [/stop] request for a key with no running loop is answered 200
    with [success: true] and [wasRunning: false]; the one service call
    made is the running query, [stopAutoLoopForProject] is not invoked,
    and the service state is the one the query left. *)
Theorem stop_not_running (o : Obj) (s s' : S) :
  let projectPath := obj_get o "projectPath" in
  let branch := nullish (obj_get o "branchName") VNull in
  truthy projectPath = true ->
  isAutoLoopRunningForProject projectPath branch s = (Ok false, s') ->
  exists w,
    handle createStopHandler (VObj o) s = (Ok tt, w) /\
    res w = sent 200 [("success", VBool true);
                      ("message", VStr ("Auto mode is not running for "
                                        +:+ worktreeDesc branch));
                      ("wasRunning", VBool false);
                      ("branchName", branch)] /\
    calls w = [(CIsAutoLoopRunningForProject projectPath branch, None)] /\
    (forall p b r, ~ In (CStopAutoLoopForProject p b, r) (calls w)) /\
    service w = s'.
Proof.
  intros projectPath branch Hp Hq. subst projectPath branch.
  eexists. split.
  - run_handler. rewrite Hp. reduce_handler. rewrite Hq. reflexivity.
  - cbn [res calls service]. repeat split.
    intros p b r [Heq|[]]. discriminate.
Qed.

(** C7: a [/stop] request for a key whose loop is running is answered 200
    with [success: true], the normalized [branchName] echoed, and
    [runningFeaturesCount] equal to what [stopAutoLoopForProject]
    returned for that key. *)
Theorem stop_reports_running_count (o : Obj) (s s1 s2 : S) (n : Z) :
  let projectPath := obj_get o "projectPath" in
  let branch := nullish (obj_get o "branchName") VNull in
  truthy projectPath = true ->
  isAutoLoopRunningForProject projectPath branch s = (Ok true, s1) ->
  stopAutoLoopForProject projectPath branch s1 = (Ok n, s2) ->
  exists w,
    handle createStopHandler (VObj o) s = (Ok tt, w) /\
    res w = sent 200 [("success", VBool true);
                      ("message", VStr "Auto mode stopped");
                      ("runningFeaturesCount", VNum n);
                      ("branchName", branch)] /\
    calls w = [(CIsAutoLoopRunningForProject projectPath branch, None);
               (CStopAutoLoopForProject projectPath branch, None)] /\
    service w = s2.
Proof.
  intros projectPath branch Hp Hq Hstop. subst projectPath branch.
  eexists. split.
  - run_handler. rewrite Hp. reduce_handler. rewrite Hq.
    reduce_handler. rewrite Hstop. reflexivity.
  - cbn [res calls service]. repeat split.
Qed.

(** Equal requests up to an omitted or null [branchName] run alike. *)
Lemma start_branch_normalized (o1 o2 : Obj) (s : S) :
  obj_get o1 "branchName" = VUndefined ->
  obj_get o2 "branchName" = VNull ->
  obj_get o1 "projectPath" = obj_get o2 "projectPath" ->
  obj_get o1 "maxConcurrency" = obj_get o2 "maxConcurrency" ->
  handle createStartHandler (VObj o1) s = handle createStartHandler (VObj o2) s.
Proof.
  intros H1 H2 Hp Hm. run_handler. rewrite H1, H2, Hp, Hm. reflexivity.
Qed.

Lemma stop_branch_normalized (o1 o2 : Obj) (s : S) :
  obj_get o1 "branchName" = VUndefined ->
  obj_get o2 "branchName" = VNull ->
  obj_get o1 "projectPath" = obj_get o2 "projectPath" ->
  handle createStopHandler (VObj o1) s = handle createStopHandler (VObj o2) s.
Proof.
  intros H1 H2 Hp. run_handler. rewrite H1, H2, Hp. reflexivity.
Qed.

Lemma status_branch_normalized (o1 o2 : Obj) (s : S) :
  obj_get o1 "branchName" = VUndefined ->
  obj_get o2 "branchName" = VNull ->
  obj_get o1 "projectPath" = obj_get o2 "projectPath" ->
  handle createStatusHandler (VObj o1) s = handle createStatusHandler (VObj o2) s.
Proof.
  intros H1 H2 Hp. run_handler. rewrite H1, H2, Hp. reflexivity.
Qed.

Ltac echo_cases :=
  unfold echoes_null_branch;
  let Hcode := fresh "Hcode" in
  let Hbody := fresh "Hbody" in
  intros ? Hcode Hbody;
  cbn in Hcode, Hbody;
  first [ discriminate Hcode
        | injection Hbody as <-; reflexivity ].

Lemma start_echoes_null (o : Obj) (s : S) :
  obj_get o "branchName" = VNull ->
  echoes_null_branch (handle createStartHandler (VObj o) s).
Proof.
  intros Hb. run_handler. rewrite Hb.
  destruct (truthy (obj_get o "projectPath")); reduce_handler; [|echo_cases].
  next_call; [echo_cases| |echo_cases].
  next_call; echo_cases.
Qed.

Lemma stop_echoes_null (o : Obj) (s : S) :
  obj_get o "branchName" = VNull ->
  echoes_null_branch (handle createStopHandler (VObj o) s).
Proof.
  intros Hb. run_handler. rewrite Hb.
  destruct (truthy (obj_get o "projectPath")); reduce_handler; [|echo_cases].
  next_call; [|echo_cases|echo_cases].
  next_call; echo_cases.
Qed.

Lemma status_echoes_null (o : Obj) (s : S) :
  obj_get o "branchName" = VNull ->
  truthy (obj_get o "projectPath") = true ->
  echoes_null_branch (handle createStatusHandler (VObj o) s).
Proof.
  intros Hb Hp. run_handler. rewrite Hb, Hp.
  next_call; echo_cases.
Qed.

(** C5: for each of [/start], [/stop] and [/status], a request with
    [branchName] omitted (undefined) makes exactly the service calls and
    gets exactly the response of the same request with [branchName: null]
    (the whole run is equal: service state, calls, log, response), and the
    per-key response echoes [branchName] as [null] in both cases. *)
Theorem branch_undefined_as_null (o1 o2 : Obj) (s : S) :
  obj_get o1 "branchName" = VUndefined ->
  obj_get o2 "branchName" = VNull ->
  obj_get o1 "projectPath" = obj_get o2 "projectPath" ->
  obj_get o1 "maxConcurrency" = obj_get o2 "maxConcurrency" ->
  (handle createStartHandler (VObj o1) s = handle createStartHandler (VObj o2) s /\
   handle createStopHandler (VObj o1) s = handle createStopHandler (VObj o2) s /\
   handle createStatusHandler (VObj o1) s = handle createStatusHandler (VObj o2) s) /\
  (echoes_null_branch (handle createStartHandler (VObj o1) s) /\
   echoes_null_branch (handle createStartHandler (VObj o2) s) /\
   echoes_null_branch (handle createStopHandler (VObj o1) s) /\
   echoes_null_branch (handle createStopHandler (VObj o2) s)) /\
  (truthy (obj_get o2 "projectPath") = true ->
   echoes_null_branch (handle createStatusHandler (VObj o1) s) /\
   echoes_null_branch (handle createStatusHandler (VObj o2) s)).
Proof.
  intros H1 H2 Hp Hm.
  pose proof (start_branch_normalized o1 o2 s H1 H2 Hp Hm) as Estart.
  pose proof (stop_branch_normalized o1 o2 s H1 H2 Hp) as Estop.
  pose proof (status_branch_normalized o1 o2 s H1 H2 Hp) as Estatus.
  split; [auto|]. split.
  - rewrite Estart, Estop.
    repeat split; solve [apply start_echoes_null; exact H2
                        | apply stop_echoes_null; exact H2].
  - intros Htruthy. rewrite Estatus.
    split; apply status_echoes_null; assumption.
Qed.

Ltac contained :=
  unfold failure_contained; split; [reflexivity|];
  let Hin := fresh "Hin" in
  intros ? ? Hin; cbn in Hin;
  repeat match goal with
         | H : _ \/ _ |- _ => destruct H
         | H : False |- _ => destruct H
         | H : (_, _) = (_, _) |- _ => first [discriminate H | injection H as <- <-]
         end;
  reflexivity.

Lemma start_contained (req_body : JSVal) (s : S) :
  failure_contained (handle createStartHandler req_body s).
Proof.
  run_handler.
  destruct (object_coercible req_body); reduce_handler; [|contained].
  destruct (truthy (get_prop req_body "projectPath")); reduce_handler; [|contained].
  next_call; [contained| |contained].
  next_call; contained.
Qed.

Lemma stop_contained (req_body : JSVal) (s : S) :
  failure_contained (handle createStopHandler req_body s).
Proof.
  run_handler.
  destruct (object_coercible req_body); reduce_handler; [|contained].
  destruct (truthy (get_prop req_body "projectPath")); reduce_handler; [|contained].
  next_call; [|contained|contained].
  next_call; contained.
Qed.

Lemma status_contained (req_body : JSVal) (s : S) :
  failure_contained (handle createStatusHandler req_body s).
Proof.
  run_handler.
  destruct (object_coercible req_body); reduce_handler; [|contained].
  destruct (truthy (get_prop req_body "projectPath")); reduce_handler.
  - next_call; contained.
  - next_call; [|contained].
    next_call; [|contained].
    next_call; contained.
Qed.

(** C6: on every request to [/start], [/stop] or [/status], whatever the
    body, the handler returns normally (nothing reaches the transport
    layer), and if a service method it invoked threw, the response is 500
    with [success: false] and the error message. *)
Theorem failures_answered_500 (req_body : JSVal) (s : S) :
  failure_contained (handle createStartHandler req_body s) /\
  failure_contained (handle createStopHandler req_body s) /\
  failure_contained (handle createStatusHandler req_body s).
Proof.
  split; [apply start_contained|split; [apply stop_contained|apply status_contained]].
Qed.

(** The aggregate that [/status] sends when it takes the global branch. *)
Lemma status_global (req_body : JSVal) (s s1 s2 s3 : S)
    (status : Obj) (projects worktrees : JSVal) :
  object_coercible req_body = true ->
  truthy (get_prop req_body "projectPath") = false ->
  getStatus s = (Ok status, s1) ->
  getActiveAutoLoopProjects s1 = (Ok projects, s2) ->
  getActiveAutoLoopWorktrees s2 = (Ok worktrees, s3) ->
  handle createStatusHandler req_body s
  = (Ok tt, {| service := s3;
               calls := [(CGetStatus, None);
                         (CGetActiveAutoLoopProjects, None);
                         (CGetActiveAutoLoopWorktrees, None)];
               logs := [];
               res := sent 200 (obj_literal
                        ([("success", VBool true)] ++ status ++
                         [("activeAutoLoopProjects", projects);
                          ("activeAutoLoopWorktrees", worktrees)])) |}).
Proof.
  intros Hc Hp H1 H2 H3. run_handler. rewrite Hc, Hp. reduce_handler.
  rewrite H1. reduce_handler. rewrite H2. reduce_handler. rewrite H3.
  reflexivity.
Qed.

(** The fields of that aggregate. *)
Lemma aggregate_fields (status : Obj) (projects worktrees : JSVal) :
  List.NoDup (map fst status) ->
  obj_has status "success" = false ->
  let b := obj_literal ([("success", VBool true)] ++ status ++
                        [("activeAutoLoopProjects", projects);
                         ("activeAutoLoopWorktrees", worktrees)]) in
  obj_get b "success" = VBool true /\
  (forall k v, In (k, v) status ->
               k <> "activeAutoLoopProjects" -> k <> "activeAutoLoopWorktrees" ->
               obj_get b k = v) /\
  obj_get b "activeAutoLoopProjects" = projects /\
  obj_get b "activeAutoLoopWorktrees" = worktrees /\
  (forall k, obj_has b k = true ->
             k = "success" \/ obj_has status k = true \/
             k = "activeAutoLoopProjects" \/ k = "activeAutoLoopWorktrees").
Proof.
  intros Hnd Hsucc b. subst b. unfold obj_literal.
  repeat split.
  - rewrite obj_get_fold, !entries_get_app.
    rewrite (entries_get_absent status) by exact Hsucc. reflexivity.
  - intros k v Hin Hk1 Hk2.
    rewrite obj_get_fold, !entries_get_app.
    rewrite (entries_get_In status k v _ Hnd Hin).
    cbn [entries_get].
    apply String.eqb_neq in Hk1, Hk2.
    rewrite String.eqb_sym in Hk1. rewrite String.eqb_sym in Hk2.
    rewrite Hk1, Hk2. reflexivity.
  - rewrite obj_get_fold, !entries_get_app. reflexivity.
  - rewrite obj_get_fold, !entries_get_app. reflexivity.
  - intros k Hk. rewrite obj_has_fold, !obj_has_app in Hk.
    cbn [obj_has] in Hk. rewrite !orb_false_r in Hk.
    apply orb_true_iff in Hk as [Hk|Hk]; [left; apply String.eqb_eq in Hk; auto|].
    apply orb_true_iff in Hk as [Hk|Hk]; [right; left; exact Hk|].
    apply orb_true_iff in Hk as [Hk|Hk]; apply String.eqb_eq in Hk; auto.
Qed.

(** C8: [/status] with a [projectPath] answers 200 with [success: true]
    and exactly [isRunning], [isAutoLoopRunning], [runningFeatures],
    [runningCount] and [maxConcurrency] from [getStatusForProject] for that
    key, then the echoed [projectPath] and normalized [branchName];
    without one it answers 200 with [success: true], the fields of
    [getStatus()], [activeAutoLoopProjects] and
    [activeAutoLoopWorktrees]. *)
Theorem status_answers (o : Obj) (s : S) :
  let projectPath := obj_get o "projectPath" in
  let branch := nullish (obj_get o "branchName") VNull in
  (truthy projectPath = true ->
   forall (st : ProjectStatus) (s' : S),
     getStatusForProject projectPath branch s = (Ok st, s') ->
     handle createStatusHandler (VObj o) s
     = (Ok tt, {| service := s';
                  calls := [(CGetStatusForProject projectPath branch, None)];
                  logs := [];
                  res := sent 200
                    [("success", VBool true);
                     ("isRunning", VBool (0 <? runningCount st));
                     ("isAutoLoopRunning", VBool (isAutoLoopRunning st));
                     ("runningFeatures", VArr (map VStr (runningFeatures st)));
                     ("runningCount", VNum (runningCount st));
                     ("maxConcurrency", VNum (Routes.maxConcurrency st));
                     ("projectPath", projectPath);
                     ("branchName", branch)] |})) /\
  (obj_has o "projectPath" = false ->
   forall (status : Obj) (projects worktrees : JSVal) (s1 s2 s3 : S),
     getStatus s = (Ok status, s1) ->
     getActiveAutoLoopProjects s1 = (Ok projects, s2) ->
     getActiveAutoLoopWorktrees s2 = (Ok worktrees, s3) ->
     List.NoDup (map fst status) ->
     obj_has status "success" = false ->
     exists b,
       handle createStatusHandler (VObj o) s
       = (Ok tt, {| service := s3;
                    calls := [(CGetStatus, None);
                              (CGetActiveAutoLoopProjects, None);
                              (CGetActiveAutoLoopWorktrees, None)];
                    logs := [];
                    res := sent 200 b |}) /\
       obj_get b "success" = VBool true /\
       (forall k v, In (k, v) status ->
                    k <> "activeAutoLoopProjects" -> k <> "activeAutoLoopWorktrees" ->
                    obj_get b k = v) /\
       obj_get b "activeAutoLoopProjects" = projects /\
       obj_get b "activeAutoLoopWorktrees" = worktrees /\
       (forall k, obj_has b k = true ->
                  k = "success" \/ obj_has status k = true \/
                  k = "activeAutoLoopProjects" \/ k = "activeAutoLoopWorktrees")).
Proof.
  intros projectPath branch. subst projectPath branch. split.
  - intros Hp st s' Hst. run_handler. rewrite Hp. reduce_handler.
    rewrite Hst. reflexivity.
  - intros Habsent status projects worktrees s1 s2 s3 H1 H2 H3 Hnd Hsucc.
    eexists. split.
    + apply (status_global (VObj o) s s1 s2 s3 status projects worktrees);
        try assumption; [reflexivity|].
      cbn [get_prop]. rewrite (obj_get_absent o _ Habsent). reflexivity.
    + apply aggregate_fields; assumption.
Qed.

(** The two fields of a per-project answer that say what is running. *)
Lemma status_isRunning_field (o : Obj) (s s' : S) (st : ProjectStatus) :
  truthy (obj_get o "projectPath") = true ->
  getStatusForProject (obj_get o "projectPath")
                      (nullish (obj_get o "branchName") VNull) s = (Ok st, s') ->
  exists b,
    res (snd (handle createStatusHandler (VObj o) s)) = sent 200 b /\
    obj_get b "isRunning" = VBool (0 <? runningCount st) /\
    obj_get b "isAutoLoopRunning" = VBool (isAutoLoopRunning st).
Proof.
  intros Hp Hst. eexists. split.
  - run_handler. rewrite Hp. reduce_handler. rewrite Hst. reflexivity.
  - split; reflexivity.
Qed.

(** C10: a [/status] request whose [projectPath] is the empty string is
    answered like one that omits [projectPath]: the run is the same, the
    first call is [getStatus], [getStatusForProject] is never called, the
    answer is not a 400 (while [/start] and [/stop] answer that body with
    400), and when the three global queries return it is the global
    aggregate. *)
Theorem status_empty_projectPath_is_global (o o' : Obj) (s : S) :
  obj_get o "projectPath" = VStr "" ->
  obj_has o' "projectPath" = false ->
  let r := handle createStatusHandler (VObj o) s in
  r = handle createStatusHandler (VObj o') s /\
  (exists thrown, hd_error (calls (snd r)) = Some (CGetStatus, thrown)) /\
  (forall p b thrown, ~ In (CGetStatusForProject p b, thrown) (calls (snd r))) /\
  statusCode (res (snd r)) <> 400 /\
  statusCode (res (snd (handle createStartHandler (VObj o) s))) = 400 /\
  statusCode (res (snd (handle createStopHandler (VObj o) s))) = 400 /\
  (forall (status : Obj) (projects worktrees : JSVal) (s1 s2 s3 : S),
     getStatus s = (Ok status, s1) ->
     getActiveAutoLoopProjects s1 = (Ok projects, s2) ->
     getActiveAutoLoopWorktrees s2 = (Ok worktrees, s3) ->
     r = (Ok tt, {| service := s3;
                    calls := [(CGetStatus, None);
                              (CGetActiveAutoLoopProjects, None);
                              (CGetActiveAutoLoopWorktrees, None)];
                    logs := [];
                    res := sent 200 (obj_literal
                             ([("success", VBool true)] ++ status ++
                              [("activeAutoLoopProjects", projects);
                               ("activeAutoLoopWorktrees", worktrees)])) |})).
Proof.
  intros Hempty Homitted r. subst r.
  assert (Hf : truthy (get_prop (VObj o) "projectPath") = false).
  { cbn [get_prop]. rewrite Hempty. reflexivity. }
  split; [|split; [|split; [|split; [|split; [|split]]]]].
  - run_handler. rewrite Hempty, (obj_get_absent o' _ Homitted). reflexivity.
  - run_handler. rewrite Hempty. cbn [truthy String.eqb negb].
    next_call; [|eexists; reflexivity].
    next_call; [|eexists; reflexivity].
    next_call; eexists; reflexivity.
  - intros p b thrown. run_handler. rewrite Hempty. cbn [truthy String.eqb negb].
    next_call; [|cbn; intuition discriminate].
    next_call; [|cbn; intuition discriminate].
    next_call; cbn; intuition discriminate.
  - run_handler. rewrite Hempty. cbn [truthy String.eqb negb].
    next_call; [|cbn; discriminate].
    next_call; [|cbn; discriminate].
    next_call; cbn; discriminate.
  - rewrite (start_refuses_falsy (VObj o) s eq_refl Hf). reflexivity.
  - rewrite (stop_refuses_falsy (VObj o) s eq_refl Hf). reflexivity.
  - intros status projects worktrees s1 s2 s3 H1 H2 H3.
    apply (status_global (VObj o) s s1 s2 s3 status projects worktrees);
      solve [assumption | reflexivity].
Qed.

End HandlerFacts.

(** C9: in every per-project [/status] answer [isRunning] is
    [runningCount > 0] and [isAutoLoopRunning] is the service's flag, the
    one computed without the other: while features drain after a stop
    [isRunning] is true and [isAutoLoopRunning] false, and on a loop that
    runs with nothing dispatched [isRunning] is false and
    [isAutoLoopRunning] true. *)
Theorem isRunning_is_count_positive :
  (forall (S : Type) (svc : AutoModeService S) (cmn : Common)
          (o : Obj) (s s' : S) (st : ProjectStatus),
     truthy (obj_get o "projectPath") = true ->
     getStatusForProject (obj_get o "projectPath")
                         (nullish (obj_get o "branchName") VNull) s = (Ok st, s') ->
     exists b,
       res (snd (handle createStatusHandler (VObj o) s)) = sent 200 b /\
       obj_get b "isRunning" = VBool (0 <? runningCount st) /\
       obj_get b "isAutoLoopRunning" = VBool (isAutoLoopRunning st)) /\
  (exists b,
     res (snd (handle (@createStatusHandler _ (facade 3) error_message)
                      (VObj for_repo) draining)) = sent 200 b /\
     obj_get b "isRunning" = VBool true /\
     obj_get b "isAutoLoopRunning" = VBool false) /\
  (exists b,
     res (snd (handle (@createStatusHandler _ (facade 3) error_message)
                      (VObj for_repo) just_started)) = sent 200 b /\
     obj_get b "isRunning" = VBool false /\
     obj_get b "isAutoLoopRunning" = VBool true).
Proof.
  split; [|split].
  - intros S svc cmn o s s' st Hp Hst.
    exact (status_isRunning_field o s s' st Hp Hst).
  - eexists. split; [vm_compute; reflexivity|]. split; reflexivity.
  - eexists. split; [vm_compute; reflexivity|]. split; reflexivity.
Qed.

(** *** The theorems at work on the scheduler facade *)

(** The running query of the facade reads the registry and leaves it as
    it is. *)
Lemma facade_isRunning_pure (projectPath branchName : JSVal)
    (reg : gmap LoopKey AutoLoopState) :
  snd (facade_isRunning projectPath branchName reg) = reg.
Proof.
  unfold facade_isRunning.
  destruct (key_of projectPath branchName); reflexivity.
Qed.

(** An empty [projectPath] sent to [/start] and [/stop] while two
    features are in flight. *)
Lemma projectPath_required_witness :
  (obj_get empty_project_path "projectPath" = VUndefined \/
   obj_get empty_project_path "projectPath" = VStr "") /\
  res (snd (handle start_on_facade (VObj empty_project_path) two_in_flight))
  = sent 400 [("success", VBool false); ("error", VStr "projectPath is required")] /\
  calls (snd (handle stop_on_facade (VObj empty_project_path) two_in_flight)) = [].
Proof.
  assert (H : obj_get empty_project_path "projectPath" = VUndefined \/
              obj_get empty_project_path "projectPath" = VStr "")
    by (right; reflexivity).
  split; [exact H|].
  destruct (@projectPath_required _ (facade 3) error_message
              empty_project_path two_in_flight H) as [Hstart Hstop].
  rewrite Hstart, Hstop. split; reflexivity.
Defined.

(** A [/start] asking for a ceiling of five on a loop that runs with a
    ceiling of two: the ceiling stays two. *)
Lemma start_already_running_witness :
  exists w,
    handle start_on_facade (VObj (for_repo_ceiling 5)) two_in_flight = (Ok tt, w) /\
    calls w = [(CIsAutoLoopRunningForProject (VStr "/repo") VNull, None)] /\
    primary_ceiling two_in_flight = Some 2%positive /\
    primary_ceiling (service w) = Some 2%positive.
Proof.
  destruct (@start_already_running _ (facade 3) error_message
              (for_repo_ceiling 5) two_in_flight two_in_flight
              _ primary_ceiling eq_refl
              ltac:(vm_compute; reflexivity) eq_refl)
    as (w & Hrun & Hres & Hcalls & Hnostart & Hceil).
  exists w. split; [exact Hrun|]. split; [exact Hcalls|].
  rewrite Hceil. split; vm_compute; reflexivity.
Defined.

(** A [/stop] on a loop that was already stopped and is draining. *)
Lemma stop_not_running_witness :
  exists w,
    handle stop_on_facade (VObj for_repo) draining = (Ok tt, w) /\
    res w = sent 200 [("success", VBool true);
                      ("message", VStr "Auto mode is not running for main worktree");
                      ("wasRunning", VBool false);
                      ("branchName", VNull)] /\
    service w = draining.
Proof.
  destruct (@stop_not_running _ (facade 3) error_message
              for_repo draining draining eq_refl
              ltac:(vm_compute; reflexivity))
    as (w & Hrun & Hres & Hcalls & Hnostop & Hsvc).
  exists w. split; [exact Hrun|]. split; [exact Hres|exact Hsvc].
Defined.

(** A [/stop] on a running loop with two features in flight reports
    two and leaves the draining registry. *)
Lemma stop_reports_running_count_witness :
  exists w,
    handle stop_on_facade (VObj for_repo) two_in_flight = (Ok tt, w) /\
    res w = sent 200 [("success", VBool true);
                      ("message", VStr "Auto mode stopped");
                      ("runningFeaturesCount", VNum 2);
                      ("branchName", VNull)] /\
    service w = draining.
Proof.
  destruct (@stop_reports_running_count _ (facade 3) error_message
              for_repo two_in_flight two_in_flight draining 2 eq_refl
              ltac:(vm_compute; reflexivity) ltac:(vm_compute; reflexivity))
    as (w & Hrun & Hres & Hcalls & Hsvc).
  exists w. split; [exact Hrun|]. split; [exact Hres|exact Hsvc].
Defined.

(** The same requests with and without [branchName: null]. *)
Lemma branch_undefined_as_null_witness :
  handle start_on_facade (VObj for_repo) draining
  = handle start_on_facade (VObj for_repo_null_branch) draining /\
  handle stop_on_facade (VObj for_repo) two_in_flight
  = handle stop_on_facade (VObj for_repo_null_branch) two_in_flight /\
  handle status_on_facade (VObj for_repo) two_in_flight
  = handle status_on_facade (VObj for_repo_null_branch) two_in_flight.
Proof.
  split; [|split].
  - exact (proj1 (proj1 (@branch_undefined_as_null _ (facade 3) error_message
             for_repo for_repo_null_branch draining
             eq_refl eq_refl eq_refl eq_refl))).
  - exact (proj1 (proj2 (proj1 (@branch_undefined_as_null _ (facade 3) error_message
             for_repo for_repo_null_branch two_in_flight
             eq_refl eq_refl eq_refl eq_refl)))).
  - exact (proj2 (proj2 (proj1 (@branch_undefined_as_null _ (facade 3) error_message
             for_repo for_repo_null_branch two_in_flight
             eq_refl eq_refl eq_refl eq_refl)))).
Defined.

(** A [/stop] against a service whose every method throws. *)
Lemma failures_answered_500_witness :
  fst (handle (@createStopHandler unit broken_service error_message) (VObj for_repo) tt)
  = Ok tt /\
  res (snd (handle (@createStopHandler unit broken_service error_message)
                   (VObj for_repo) tt))
  = sent 500 [("success", VBool false); ("error", VStr "feature store unreadable")].
Proof.
  destruct (@failures_answered_500 unit broken_service error_message (VObj for_repo) tt)
    as (_ & [Hok H500] & _).
  split; [exact Hok|].
  apply (H500 (CIsAutoLoopRunningForProject (VStr "/repo") VNull) failing).
  left. reflexivity.
Defined.

(** [/status] for the draining primary worktree, and without a
    [projectPath]. *)
Lemma status_answers_witness :
  (exists w,
     handle status_on_facade (VObj for_repo) draining = (Ok tt, w) /\
     exists b, res w = sent 200 b /\
               map fst b = ["success"; "isRunning"; "isAutoLoopRunning";
                            "runningFeatures"; "runningCount"; "maxConcurrency";
                            "projectPath"; "branchName"] /\
               obj_get b "runningCount" = VNum 2 /\
               obj_get b "maxConcurrency" = VNum 2 /\
               obj_get b "isAutoLoopRunning" = VBool false) /\
  (exists b,
     res (snd (handle status_on_facade (VObj no_project_path) draining)) = sent 200 b /\
     obj_get b "success" = VBool true /\
     obj_get b "runningCount" = VNum 2 /\
     obj_get b "activeAutoLoopProjects" = VArr []).
Proof.
  split.
  - destruct (facade_statusForProject 3 (VStr "/repo") VNull draining) as [r reg] eqn:E.
    vm_compute in E. injection E as <- <-.
    eexists. split.
    + refine (proj1 (@status_answers _ (facade 3) error_message for_repo draining)
                eq_refl _ draining _).
      vm_compute. reflexivity.
    + eexists. split; [reflexivity|]. vm_compute. repeat split.
  - destruct (proj2 (@status_answers _ (facade 3) error_message no_project_path draining)
                eq_refl
                [("isRunning", VBool true);
                 ("runningFeatures", VArr (map VStr (all_running draining)));
                 ("runningCount", VNum 2)]
                (VArr []) (VArr []) draining draining draining
                ltac:(vm_compute; reflexivity) ltac:(vm_compute; reflexivity)
                ltac:(vm_compute; reflexivity))
      as (b & Hrun & Hsucc & Hfields & Hprojects & Hworktrees & Honly).
    + repeat constructor; cbn; intuition discriminate.
    + reflexivity.
    + exists b. rewrite Hrun. split; [reflexivity|]. split; [exact Hsucc|].
      split; [|exact Hprojects].
      apply Hfields; [right; right; left; reflexivity|discriminate|discriminate].
Defined.

(** [/status] for a running loop with two features in flight. *)
Lemma isRunning_is_count_positive_witness :
  exists b,
    res (snd (handle status_on_facade (VObj for_repo) two_in_flight)) = sent 200 b /\
    obj_get b "isRunning" = VBool true /\
    obj_get b "isAutoLoopRunning" = VBool true.
Proof.
  destruct (facade_statusForProject 3 (VStr "/repo") VNull two_in_flight)
    as [[st|e] reg] eqn:E; [|vm_compute in E; discriminate E].
  destruct (proj1 isRunning_is_count_positive _ (facade 3) error_message
              for_repo two_in_flight reg st eq_refl E) as (b & Hres & Hrun & Hloop).
  exists b. split; [exact Hres|].
  rewrite Hrun, Hloop. vm_compute in E. injection E as <- <-.
  split; reflexivity.
Defined.

(** [/status] with [projectPath: ''] against one with no
    [projectPath]. *)
Lemma status_empty_projectPath_is_global_witness :
  handle status_on_facade (VObj empty_project_path) two_in_flight
  = handle status_on_facade (VObj no_project_path) two_in_flight /\
  statusCode (res (snd (handle status_on_facade (VObj empty_project_path) two_in_flight)))
  = 200 /\
  statusCode (res (snd (handle start_on_facade (VObj empty_project_path) two_in_flight)))
  = 400.
Proof.
  destruct (@status_empty_projectPath_is_global _ (facade 3) error_message
              empty_project_path no_project_path two_in_flight eq_refl eq_refl)
    as (Hsame & Hfirst & Hnever & Hnot400 & Hstart & Hstop & Hglobal).
  split; [exact Hsame|]. split; [|exact Hstart].
  vm_compute. reflexivity.
Defined.

End RouteFacts.

(** ** The worktree handlers *)

Module WorktreeFacts.

Import Routes Worktree.

Ltac run_worktree :=
  unfold handle, commands_run, response_of, createInfoHandler,
    createDiscardChangesHandler, try_catch, bind, destructure, ret, throw,
    res_status, res_json, logError, initial_world, sent, fresh_response,
    fresh_host, on_host, run_command, ignoring_errors, lift_outcome;
  cbn [get_prop object_coercible service calls logs res statusCode body negb
       fst snd app env executed].

Ltac reduce_worktree :=
  cbn [get_prop object_coercible service calls logs res statusCode body negb
       fst snd app env executed orb andb].

(** Splits on the outcome of the next command or file-system access. *)
Ltac next_effect :=
  match goal with
  | |- context [execAsync ?c ?d ?e] =>
      is_var e;
      let out := fresh "out" in
      let err := fresh "err" in
      let e' := fresh "e" in
      let E := fresh "Hexec" in
      destruct (execAsync c d e) as [[out|err] e'] eqn:E
  | |- context [access ?p ?e] =>
      is_var e;
      let err := fresh "err" in
      let e' := fresh "e" in
      let E := fresh "Haccess" in
      destruct (access p e) as [[[]|err] e'] eqn:E
  end;
  reduce_worktree.

Section Sanitize.

Lemma sanitize_length (featureId : string) :
  String.length (sanitize featureId) = String.length featureId.
Proof. induction featureId as [|c rest IH]; simpl; congruence. Qed.

Lemma sanitize_safe (featureId : string) :
  all_chars is_id_char (sanitize featureId) = true.
Proof.
  induction featureId as [|c rest IH]; simpl; [reflexivity|].
  rewrite IH, andb_true_r.
  destruct (is_id_char c) eqn:Hc; [exact Hc|reflexivity].
Qed.

Lemma sanitize_fixed (featureId : string) :
  all_chars is_id_char featureId = true -> sanitize featureId = featureId.
Proof.
  induction featureId as [|c rest IH]; simpl; [reflexivity|].
  intros Hall. apply andb_true_iff in Hall as [Hc Hrest].
  rewrite Hc, (IH Hrest). reflexivity.
Qed.

(** A character that is kept is no path separator and no dot. *)
Lemma id_char_not_path (c : ascii) :
  is_id_char c = true -> c <> "/"%char /\ c <> "\"%char /\ c <> "."%char.
Proof.
  intros Hc. repeat split; intros ->; vm_compute in Hc; discriminate.
Qed.

(** The feature id that names the worktree directory keeps the length of
    the id it comes from, consists of letters, digits, underscores and
    hyphens only (so it holds no slash, backslash or dot), and an id
    already of that form is left as it is. *)
Theorem sanitize_names_one_directory (featureId : string) :
  String.length (sanitize featureId) = String.length featureId /\
  all_chars is_id_char (sanitize featureId) = true /\
  all_chars (fun c => negb (Ascii.eqb c "/" || Ascii.eqb c "\" || Ascii.eqb c "."))
            (sanitize featureId) = true /\
  sanitize (sanitize featureId) = sanitize featureId.
Proof.
  split; [apply sanitize_length|]. split; [apply sanitize_safe|]. split.
  - pose proof (sanitize_safe featureId) as Hsafe.
    induction (sanitize featureId) as [|c rest IH]; simpl in *; [reflexivity|].
    apply andb_true_iff in Hsafe as [Hc Hrest]. rewrite (IH Hrest), andb_true_r.
    destruct (id_char_not_path c Hc) as (H1 & H2 & H3).
    apply Ascii.eqb_neq in H1, H2, H3. rewrite H1, H2, H3. reflexivity.
  - apply sanitize_fixed, sanitize_safe.
Qed.

End Sanitize.

Section HandlerFacts.

Context {E : Type} {shell : Shell E} {cmn : Common}.

(** [/info] without a [projectPath] or without a [featureId] is refused
    with 400 before the file system is looked at or a command is run. *)
Theorem info_requires_both (o : Obj) (e : E) :
  truthy (obj_get o "projectPath") = false \/ truthy (obj_get o "featureId") = false ->
  handle createInfoHandler (VObj o) (fresh_host e)
  = (Ok tt, {| service := fresh_host e; calls := []; logs := [];
               res := sent 400 [("success", VBool false);
                                ("error", VStr "projectPath and featureId required")] |}).
Proof.
  intros Hmissing. run_worktree.
  destruct Hmissing as [Hp|Hf].
  - rewrite Hp. reflexivity.
  - rewrite Hf, orb_true_r. reflexivity.
Qed.

(** [/info] never turns a missing worktree into an error: when the
    directory cannot be accessed, or the branch cannot be read in it, the
    answer is 200 with [worktreePath] and [branchName] null; no command
    is run in a directory that could not be accessed; and when both
    succeed the answer carries the normalized path and the trimmed branch
    name. *)
Theorem info_missing_worktree_is_null (o : Obj) (e : E)
    (featureId worktreePath : string) :
  truthy (obj_get o "projectPath") = true ->
  obj_get o "featureId" = VStr featureId ->
  featureId <> "" ->
  path_join (obj_get o "projectPath") ".worktrees" (sanitize featureId) = Ok worktreePath ->
  let r := handle createInfoHandler (VObj o) (fresh_host e) in
  let absent := sent 200 [("success", VBool true); ("worktreePath", VNull);
                          ("branchName", VNull)] in
  fst r = Ok tt /\
  match access worktreePath e with
  | (Throw _, _) => response_of r = absent /\ commands_run r = []
  | (Ok _, e1) =>
      commands_run r = [("git rev-parse --abbrev-ref HEAD", VStr worktreePath)] /\
      match execAsync "git rev-parse --abbrev-ref HEAD" (VStr worktreePath) e1 with
      | (Throw _, _) => response_of r = absent
      | (Ok stdout, _) =>
          response_of r = sent 200 [("success", VBool true);
                                    ("worktreePath", VStr (normalizePath worktreePath));
                                    ("branchName", VStr (trim stdout))]
      end
  end.
Proof.
  intros Hp Hf Hne Hjoin r absent. subst r absent.
  assert (Htruthy : truthy (VStr featureId) = true).
  { simpl. destruct (String.eqb featureId "") eqn:E0; [|reflexivity].
    apply String.eqb_eq in E0. contradiction. }
  run_worktree. rewrite Hp, Hf, Htruthy. reduce_worktree. rewrite Hjoin.
  reduce_worktree.
  destruct (access worktreePath e) as [[[]|err] e1]; reduce_worktree;
    [|split; [reflexivity|split; reflexivity]].
  destruct (execAsync "git rev-parse --abbrev-ref HEAD" (VStr worktreePath) e1)
    as [[out|err] e2]; reduce_worktree; repeat split.
Qed.

(** [/info] with a [featureId] that is not a string (a number, a
    boolean, an array, an object) is answered 500: the sanitizing
    [replace] throws, and neither the file system nor git is reached. *)
Theorem info_rejects_non_string_id (o : Obj) (e : E) :
  truthy (obj_get o "projectPath") = true ->
  truthy (obj_get o "featureId") = true ->
  (forall s, obj_get o "featureId" <> VStr s) ->
  exists thrown,
    handle createInfoHandler (VObj o) (fresh_host e)
    = (Ok tt, {| service := fresh_host e; calls := [];
                 logs := [LogError thrown "Get worktree info failed"];
                 res := sent 500 [("success", VBool false);
                                  ("error", VStr (getErrorMessage thrown))] |}).
Proof.
  intros Hp Hf Hnot. run_worktree. rewrite Hp, Hf. reduce_worktree.
  destruct (obj_get o "featureId") as [| |b|n|s|xs|fields];
    try (eexists; reflexivity).
  exfalso. apply (Hnot s). reflexivity.
Qed.

(** [/discard-changes] without a [worktreePath] is refused with 400 and
    runs no command. *)
Theorem discard_requires_worktreePath (o : Obj) (e : E) :
  truthy (obj_get o "worktreePath") = false ->
  handle createDiscardChangesHandler (VObj o) (fresh_host e)
  = (Ok tt, {| service := fresh_host e; calls := []; logs := [];
               res := sent 400 [("success", VBool false);
                                ("error", VStr "worktreePath required")] |}).
Proof. intros Hw. run_worktree. rewrite Hw. reflexivity. Qed.

(** On a clean worktree (the status output is blank) [/discard-changes]
    answers [discarded: false] and the status query is the only command
    it runs. *)
Theorem discard_clean_is_noop (o : Obj) (e e1 : E) (status : string) :
  let worktreePath := obj_get o "worktreePath" in
  truthy worktreePath = true ->
  execAsync "git status --porcelain" worktreePath e = (Ok status, e1) ->
  trim status = "" ->
  handle createDiscardChangesHandler (VObj o) (fresh_host e)
  = (Ok tt, {| service := {| env := e1;
                             executed := [("git status --porcelain", worktreePath)] |};
               calls := []; logs := [];
               res := sent 200 [("success", VBool true);
                                ("result", VObj [("discarded", VBool false);
                                                 ("message", VStr "No changes to discard")])] |}).
Proof.
  intros worktreePath Hw Hstatus Hblank. subst worktreePath.
  run_worktree. rewrite Hw. reduce_worktree. rewrite Hstatus. reduce_worktree.
  rewrite Hblank. reflexivity.
Qed.

(** Whatever the body and the environment, [/discard-changes] returns
    normally, and it runs a command that changes the working tree only
    in the requested [worktreePath] and only after [git status] there
    reported changes and the branch name was read. *)
Theorem discard_guards_destructive (req_body : JSVal) (e : E) :
  let r := handle createDiscardChangesHandler req_body (fresh_host e) in
  let worktreePath := get_prop req_body "worktreePath" in
  fst r = Ok tt /\
  forall command cwd,
    In (command, cwd) (commands_run r) -> destructive command = true ->
    cwd = worktreePath /\ truthy worktreePath = true /\
    exists status e1 branch e2,
      execAsync "git status --porcelain" worktreePath e = (Ok status, e1) /\
      trim status <> "" /\
      execAsync "git rev-parse --abbrev-ref HEAD" worktreePath e1 = (Ok branch, e2).
Proof.
  intros r worktreePath. subst r worktreePath.
  set (wp := get_prop req_body "worktreePath").
  set (G := exists status e1 branch e2,
              execAsync "git status --porcelain" wp e = (Ok status, e1) /\
              trim status <> "" /\
              execAsync "git rev-parse --abbrev-ref HEAD" wp e1 = (Ok branch, e2)).
  assert (HG : forall status e1 branch e2,
             execAsync "git status --porcelain" wp e = (Ok status, e1) ->
             trim status <> "" ->
             execAsync "git rev-parse --abbrev-ref HEAD" wp e1 = (Ok branch, e2) ->
             G) by (unfold G; eauto 10).
  clearbody G.
  run_worktree. fold wp.
  destruct (object_coercible req_body); reduce_worktree;
    [|split; [reflexivity|intros ? ? []]].
  destruct (truthy wp) eqn:Hw; reduce_worktree;
    [|split; [reflexivity|intros ? ? []]].
  destruct (execAsync "git status --porcelain" wp e)
    as [[status|err] e1] eqn:Hstatus; reduce_worktree.
  2:{ split; [reflexivity|]. intros command cwd [Heq|[]] Hd.
      injection Heq as <- <-. discriminate Hd. }
  destruct (String.eqb (trim status) "") eqn:Hblank; reduce_worktree.
  { split; [reflexivity|]. intros command cwd [Heq|[]] Hd.
    injection Heq as <- <-. discriminate Hd. }
  apply String.eqb_neq in Hblank.
  destruct (execAsync "git rev-parse --abbrev-ref HEAD" wp e1)
    as [[branch|err] e2] eqn:Hbranch; reduce_worktree.
  2:{ split; [reflexivity|]. intros command cwd [Heq|[Heq|[]]] Hd;
        injection Heq as <- <-; discriminate Hd. }
  pose proof (HG status e1 branch e2 eq_refl Hblank Hbranch) as Hguard.
  do 4 next_effect;
    try destruct (String.eqb (trim _) ""); reduce_worktree;
    (split; [reflexivity|]);
    intros command cwd Hin _;
    (split; [|split; [reflexivity|exact Hguard]]);
    cbn [In] in Hin;
    repeat (destruct Hin as [Hin|Hin]; [injection Hin as _ <-; reflexivity|]);
    destruct Hin.
Qed.

(** When the worktree has changes and the branch can be read,
    [/discard-changes] runs reset, checkout and clean in that order and
    then asks for the status again, whether or not any of the three
    succeeded; the answer is 200 with [discarded: true] and counts that
    add up to the number of changed files first reported:
    [filesRemaining] is the number of lines of the final status. *)
Theorem discard_counts_add_up (o : Obj) (e e1 e2 e6 : E)
    (status branch finalStatus : string) :
  let worktreePath := obj_get o "worktreePath" in
  truthy worktreePath = true ->
  execAsync "git status --porcelain" worktreePath e = (Ok status, e1) ->
  trim status <> "" ->
  execAsync "git rev-parse --abbrev-ref HEAD" worktreePath e1 = (Ok branch, e2) ->
  let e3 := snd (execAsync "git reset HEAD" worktreePath e2) in
  let e4 := snd (execAsync "git checkout ." worktreePath e3) in
  let e5 := snd (execAsync "git clean -fd" worktreePath e4) in
  execAsync "git status --porcelain" worktreePath e5 = (Ok finalStatus, e6) ->
  let r := handle createDiscardChangesHandler (VObj o) (fresh_host e) in
  fst r = Ok tt /\
  commands_run r = [("git status --porcelain", worktreePath);
                    ("git rev-parse --abbrev-ref HEAD", worktreePath);
                    ("git reset HEAD", worktreePath);
                    ("git checkout .", worktreePath);
                    ("git clean -fd", worktreePath);
                    ("git status --porcelain", worktreePath)] /\
  env (service (snd r)) = e6 /\
  exists result discarded remaining,
    response_of r = sent 200 [("success", VBool true); ("result", VObj result)] /\
    obj_get result "discarded" = VBool true /\
    obj_get result "filesDiscarded" = VNum discarded /\
    obj_get result "filesRemaining" = VNum remaining /\
    obj_get result "branch" = VStr (trim branch) /\
    discarded + remaining = count_lines status /\
    remaining = (if String.eqb (trim finalStatus) "" then 0 else count_lines finalStatus).
Proof.
  intros worktreePath Hw Hstatus Hdirty Hbranch e3 e4 e5 Hfinal r.
  subst r. revert Hfinal. subst e5 e4 e3 worktreePath.
  apply String.eqb_neq in Hdirty.
  run_worktree. rewrite Hw. reduce_worktree. rewrite Hstatus. reduce_worktree.
  rewrite Hdirty. reduce_worktree. rewrite Hbranch. reduce_worktree.
  destruct (execAsync "git reset HEAD" (obj_get o "worktreePath") e2)
    as [r3 e3]; reduce_worktree.
  destruct (execAsync "git checkout ." (obj_get o "worktreePath") e3)
    as [r4 e4]; reduce_worktree.
  destruct (execAsync "git clean -fd" (obj_get o "worktreePath") e4)
    as [r5 e5]; reduce_worktree.
  intros Hfinal. rewrite Hfinal. reduce_worktree.
  destruct (String.eqb (trim finalStatus) ""); reduce_worktree;
    (split; [reflexivity|]); (split; [reflexivity|]); (split; [reflexivity|]);
    eexists; eexists; eexists; (split; [reflexivity|]);
    cbn; repeat split; lia.
Qed.

End HandlerFacts.

Lemma info_requires_both_witness :
  response_of (handle (@createInfoHandler _ simulated message_of)
                      (VObj [("projectPath", VStr "/repo")]) (fresh_host dirty))
  = sent 400 [("success", VBool false);
              ("error", VStr "projectPath and featureId required")] /\
  commands_run (handle (@createInfoHandler _ simulated message_of)
                       (VObj [("projectPath", VStr "/repo")]) (fresh_host dirty)) = [].
Proof.
  rewrite (@info_requires_both _ simulated message_of
             [("projectPath", VStr "/repo")] dirty (or_intror eq_refl)).
  split; reflexivity.
Defined.

(** A feature id that tries to climb out of [.worktrees] names a
    directory inside it, which does not exist. *)
Lemma info_missing_worktree_is_null_witness :
  sanitize "../../etc" = "------etc" /\
  response_of (handle (@createInfoHandler _ simulated message_of)
                      (VObj info_traversal) (fresh_host dirty))
  = sent 200 [("success", VBool true); ("worktreePath", VNull); ("branchName", VNull)] /\
  response_of (handle (@createInfoHandler _ simulated message_of)
                      (VObj info_feat_1) (fresh_host dirty))
  = sent 200 [("success", VBool true);
              ("worktreePath", VStr "/repo/.worktrees/feat-1");
              ("branchName", VStr "feat-1")].
Proof.
  split; [reflexivity|]. split.
  - exact (proj1 (proj2 (@info_missing_worktree_is_null _ simulated message_of
             info_traversal dirty "../../etc" "/repo/.worktrees/------etc"
             eq_refl eq_refl ltac:(discriminate) eq_refl))).
  - exact (proj2 (proj2 (@info_missing_worktree_is_null _ simulated message_of
             info_feat_1 dirty "feat-1" "/repo/.worktrees/feat-1"
             eq_refl eq_refl ltac:(discriminate) eq_refl))).
Defined.

Lemma info_rejects_non_string_id_witness :
  exists thrown,
    handle (@createInfoHandler _ simulated message_of)
           (VObj [("projectPath", VStr "/repo"); ("featureId", VNum 7)])
           (fresh_host dirty)
    = (Ok tt, {| service := fresh_host dirty; calls := [];
                 logs := [LogError thrown "Get worktree info failed"];
                 res := sent 500 [("success", VBool false);
                                  ("error", VStr (@getErrorMessage message_of thrown))] |}).
Proof.
  apply (@info_rejects_non_string_id _ simulated message_of
           [("projectPath", VStr "/repo"); ("featureId", VNum 7)] dirty eq_refl eq_refl).
  intros s. discriminate.
Defined.

Lemma discard_requires_worktreePath_witness :
  handle (@createDiscardChangesHandler _ simulated message_of)
         (VObj [("worktreePath", VStr "")]) (fresh_host dirty)
  = (Ok tt, {| service := fresh_host dirty; calls := []; logs := [];
               res := sent 400 [("success", VBool false);
                                ("error", VStr "worktreePath required")] |}).
Proof.
  exact (@discard_requires_worktreePath _ simulated message_of
           [("worktreePath", VStr "")] dirty eq_refl).
Defined.

Lemma discard_clean_is_noop_witness :
  commands_run (handle (@createDiscardChangesHandler _ simulated message_of)
                       (VObj in_feat_1) (fresh_host []))
  = [("git status --porcelain", VStr "/repo/.worktrees/feat-1")].
Proof.
  rewrite (@discard_clean_is_noop _ simulated message_of in_feat_1 [] [] ""
             eq_refl eq_refl eq_refl).
  reflexivity.
Defined.

(** On the dirty checkout the reset fails and is ignored; three files
    were reported and none is left. *)
Lemma discard_counts_add_up_witness :
  exists result,
    response_of (handle (@createDiscardChangesHandler _ simulated message_of)
                        (VObj in_feat_1) (fresh_host dirty))
    = sent 200 [("success", VBool true); ("result", VObj result)] /\
    obj_get result "filesDiscarded" = VNum 3 /\
    obj_get result "filesRemaining" = VNum 0 /\
    obj_get result "message" = VStr "Discarded 3 files".
Proof.
  destruct (@discard_counts_add_up _ simulated message_of in_feat_1
              dirty dirty dirty [] (porcelain dirty) (porcelain ["feat-1"]) ""
              eq_refl eq_refl ltac:(vm_compute; discriminate) eq_refl eq_refl)
    as (_ & _ & _ & result & d & r & Hres & _).
  exists result. split; [exact Hres|].
  vm_compute in Hres. injection Hres as <-. repeat split.
Defined.

Lemma discard_guards_destructive_witness :
  fst (handle (@createDiscardChangesHandler _ simulated message_of)
              (VObj in_feat_1) (fresh_host dirty)) = Ok tt /\
  exists status, simulated_exec "git status --porcelain"
                   (VStr "/repo/.worktrees/feat-1") dirty = (Ok status, dirty) /\
                 trim status <> "".
Proof.
  destruct (@discard_guards_destructive _ simulated message_of (VObj in_feat_1) dirty)
    as [Hok Hguard].
  split; [exact Hok|].
  destruct (Hguard "git clean -fd" (VStr "/repo/.worktrees/feat-1"))
    as (_ & _ & status & e1 & branch & e2 & Hstatus & Hdirty & _).
  - vm_compute. tauto.
  - reflexivity.
  - exists status. split; [|exact Hdirty].
    vm_compute in Hstatus. injection Hstatus as <- <-. reflexivity.
Defined.

End WorktreeFacts.

(** ** The spec regeneration lock *)

Module SpecRegenerationFacts.

Import Routes SpecRegeneration.

Section LockFacts.

Context {engine : Engine}.

Lemma create_shape (req_body : JSVal) (st : State) :
  create req_body st
  = start_route req_body
      (negb (truthy (get_prop req_body "projectPath"))
       || negb (truthy (get_prop req_body "projectOverview")))
      "projectPath and projectOverview required" "Spec generation already running"
      (GenerateSpec (get_prop req_body "projectPath")
                    (get_prop req_body "projectOverview")
                    (get_prop req_body "generateFeatures")) st.
Proof. reflexivity. Qed.

Lemma generate_shape (req_body : JSVal) (st : State) :
  generate req_body st
  = start_route req_body
      (negb (truthy (get_prop req_body "projectPath"))
       || negb (truthy (get_prop req_body "projectDefinition")))
      "projectPath and projectDefinition required" "Spec generation already running"
      (GenerateSpec (get_prop req_body "projectPath")
                    (get_prop req_body "projectDefinition") (VBool false)) st.
Proof. reflexivity. Qed.

Lemma generate_features_shape (req_body : JSVal) (st : State) :
  generate_features req_body st
  = start_route req_body (negb (truthy (get_prop req_body "projectPath")))
      "projectPath required" "Generation already running"
      (GenerateFeaturesFromSpec (get_prop req_body "projectPath")) st.
Proof. reflexivity. Qed.

Lemma start_route_busy (req_body : JSVal) (invalid : bool) (required busy : string)
    (g : Generation) (st : State) :
  isRunning st = true ->
  snd (start_route req_body invalid required busy g st) = st.
Proof.
  intros Hbusy. unfold start_route.
  destruct (negb (object_coercible req_body)); [reflexivity|].
  destruct invalid; [reflexivity|].
  rewrite Hbusy. reflexivity.
Qed.

(** While [isRunning] is set, none of [/create], [/generate] and
    [/generate-features] starts a generation or changes the state,
    whatever the body; a well-formed request is answered 200 with
    [success: false] and the already-running error. *)
Theorem busy_refuses_every_start (req_body : JSVal) (st : State) :
  isRunning st = true ->
  (snd (create req_body st) = st /\
   snd (generate req_body st) = st /\
   snd (generate_features req_body st) = st) /\
  (object_coercible req_body = true ->
   truthy (get_prop req_body "projectPath") = true ->
   (truthy (get_prop req_body "projectOverview") = true ->
    fst (create req_body st)
    = sent 200 [("success", VBool false);
                ("error", VStr "Spec generation already running")]) /\
   (truthy (get_prop req_body "projectDefinition") = true ->
    fst (generate req_body st)
    = sent 200 [("success", VBool false);
                ("error", VStr "Spec generation already running")]) /\
   fst (generate_features req_body st)
   = sent 200 [("success", VBool false); ("error", VStr "Generation already running")]).
Proof.
  intros Hbusy. split.
  - rewrite create_shape, generate_shape, generate_features_shape.
    repeat split; apply start_route_busy; exact Hbusy.
  - intros Hc Hp. rewrite create_shape, generate_shape, generate_features_shape.
    unfold start_route. rewrite Hc, Hp, Hbusy. cbn [negb orb].
    repeat split; intros Hq; rewrite Hq; reflexivity.
Qed.

Lemma launch_sound (g : Generation) (st : State) :
  controllers_fresh st -> sound (launch g st).
Proof.
  intros (Hnd & Hlt & Hab & Hcur). split.
  - intros _. exists (created st). cbn.
    split; [reflexivity|]. split.
    + rewrite map_app. apply in_or_app. right. left. reflexivity.
    + intros Hin. pose proof (proj1 (List.Forall_forall _ _) Hab _ Hin) as Hlt'.
      cbn beta in Hlt'. lia.
  - unfold controllers_fresh. cbn. rewrite map_app. cbn.
    split; [|split; [|split]].
    + apply List.NoDup_app; [exact Hnd|repeat constructor; intros []|].
      intros c Hc [<-|[]].
      pose proof (proj1 (List.Forall_forall _ _) Hlt _ Hc) as Hlt'.
      cbn beta in Hlt'. lia.
    + apply List.Forall_app. split.
      * eapply List.Forall_impl; [|exact Hlt]. cbn. intros; lia.
      * repeat constructor.
    + eapply List.Forall_impl; [|exact Hab]. cbn. intros; lia.
    + intros c Hc. injection Hc as <-. lia.
Qed.

Lemma start_route_sound (req_body : JSVal) (valid : bool) (required busy : string)
    (g : Generation) (st : State) :
  sound st -> sound (snd (start_route req_body valid required busy g st)).
Proof.
  intros Hs. unfold start_route.
  destruct (negb (object_coercible req_body)); [exact Hs|].
  destruct valid; [exact Hs|].
  destruct (isRunning st); [exact Hs|].
  cbn [snd]. apply launch_sound, Hs.
Qed.

Lemma filter_controller_map (c : nat) (jobs : list Job) :
  map controller (List.filter (fun j => negb (Nat.eqb (controller j) c)) jobs)
  = List.filter (fun n => negb (Nat.eqb n c)) (map controller jobs).
Proof.
  induction jobs as [|j rest IH]; cbn; [reflexivity|].
  destruct (negb (Nat.eqb (controller j) c)); cbn; congruence.
Qed.

Lemma settle_sound (c : nat) (st : State) : sound st -> sound (settle c st).
Proof.
  intros Hs. unfold settle.
  destruct (existsb _ (inFlight st)); [|exact Hs].
  destruct Hs as (_ & Hnd & Hlt & Hab & Hcur). split.
  - intros Hrun. discriminate Hrun.
  - unfold controllers_fresh. cbn. rewrite filter_controller_map.
    split; [|split; [|split]].
    + apply List.NoDup_filter, Hnd.
    + apply List.Forall_forall. intros n Hn. apply List.filter_In in Hn as [Hn _].
      exact (proj1 (List.Forall_forall _ _) Hlt _ Hn).
    + exact Hab.
    + intros c' Hc'. discriminate Hc'.
Qed.

Lemma step_sound (st : State) (ev : Event) : sound st -> sound (step st ev).
Proof.
  intros Hs. destruct ev as [b|b|b| | |c]; cbn [step].
  - rewrite create_shape. apply start_route_sound, Hs.
  - rewrite generate_shape. apply start_route_sound, Hs.
  - rewrite generate_features_shape. apply start_route_sound, Hs.
  - destruct Hs as (_ & Hnd & Hlt & Hab & Hcur). split.
    + intros Hrun. discriminate Hrun.
    + unfold controllers_fresh. cbn. split; [exact Hnd|]. split; [exact Hlt|].
      split; [|exact Hcur].
      destruct (currentAbortController st) as [c|]; [|exact Hab].
      constructor; [apply Hcur; reflexivity|exact Hab].
  - exact Hs.
  - apply settle_sound, Hs.
Qed.

Lemma run_sound (evs : list Event) :
  forall st, sound st -> sound (run evs st).
Proof.
  induction evs as [|ev rest IH]; intros st Hs; cbn; [exact Hs|].
  apply IH, step_sound, Hs.
Qed.

Lemma initial_sound : sound initial.
Proof.
  split.
  - intros Hrun. discriminate Hrun.
  - unfold controllers_fresh. cbn. repeat split; try constructor.
    intros c Hc. discriminate Hc.
Qed.

(** After any sequence of requests and settlings, if [/status] says a
    generation is running then the current abort controller belongs to a
    generation still in flight and has not been aborted: a [/stop] would
    reach live work. *)
Theorem running_means_live (evs : list Event) :
  isRunning (run evs initial) = true ->
  exists c,
    currentAbortController (run evs initial) = Some c /\
    In c (map controller (inFlight (run evs initial))) /\
    ~ In c (aborted (run evs initial)).
Proof.
  intros Hrun. exact (proj1 (run_sound evs initial initial_sound) Hrun).
Qed.

Lemma start_route_exclusive (req_body : JSVal) (valid : bool) (required busy : string)
    (g : Generation) (st : State) :
  exclusive st -> exclusive (snd (start_route req_body valid required busy g st)).
Proof.
  intros Hx. unfold start_route.
  destruct (negb (object_coercible req_body)); [exact Hx|].
  destruct valid; [exact Hx|].
  destruct (isRunning st) eqn:Hrun; [exact Hx|].
  destruct Hx as [Hlen Hiff]. cbn [snd].
  destruct (inFlight st) as [|j rest] eqn:Hfl.
  - unfold exclusive, launch. rewrite Hfl. cbn. split; [lia|].
    split; [intros _; discriminate|reflexivity].
  - exfalso. destruct Hiff as [_ Hback].
    assert (Hne : j :: rest <> []) by discriminate.
    specialize (Hback Hne). congruence.
Qed.

Lemma settle_exclusive (c : nat) (st : State) : exclusive st -> exclusive (settle c st).
Proof.
  intros Hx. unfold settle.
  destruct (existsb _ (inFlight st)) eqn:Hex; [|exact Hx].
  destruct Hx as [Hlen _]. unfold exclusive. cbn.
  revert Hex Hlen.
  destruct (inFlight st) as [|j [|j' rest]]; cbn; intros Hex Hlen.
  - discriminate Hex.
  - rewrite orb_false_r in Hex. rewrite Hex. cbn.
    split; [lia|]. split; [discriminate|congruence].
  - lia.
Qed.

Lemma run_exclusive (evs : list Event) :
  forall st, forallb (fun ev => negb (is_stop ev)) evs = true ->
             exclusive st -> exclusive (run evs st).
Proof.
  induction evs as [|ev rest IH]; intros st Hns Hx; cbn in *; [exact Hx|].
  apply andb_true_iff in Hns as [Hev Hrest].
  apply IH; [exact Hrest|].
  destruct ev as [b|b|b| | |c]; cbn [step]; cbn in Hev; try discriminate Hev.
  - rewrite create_shape. apply start_route_exclusive, Hx.
  - rewrite generate_shape. apply start_route_exclusive, Hx.
  - rewrite generate_features_shape. apply start_route_exclusive, Hx.
  - exact Hx.
  - apply settle_exclusive, Hx.
Qed.

(** As long as [/stop] is never called, the three starting routes
    exclude one another: after any sequence of requests and settlings at
    most one generation is in flight, and [isRunning] is set exactly when
    one is. *)
Theorem one_generation_without_stop (evs : list Event) :
  forallb (fun ev => negb (is_stop ev)) evs = true ->
  (List.length (inFlight (run evs initial)) <= 1)%nat /\
  (isRunning (run evs initial) = true <-> inFlight (run evs initial) <> []).
Proof.
  intros Hns. apply (run_exclusive evs initial Hns).
  split; [cbn; lia|]. cbn. split; [discriminate|congruence].
Qed.

(** The lock is released by whichever generation settles, not only by
    the current one: once any generation in flight settles, [isRunning]
    is cleared and the current controller forgotten, and the next
    well-formed [/create] is accepted and starts its generation beside
    whatever else is still in flight. *)
Theorem any_settling_releases_lock (st : State) (c : nat) (req_body : JSVal) :
  In c (map controller (inFlight st)) ->
  object_coercible req_body = true ->
  truthy (get_prop req_body "projectPath") = true ->
  truthy (get_prop req_body "projectOverview") = true ->
  let others := List.filter (fun j => negb (Nat.eqb (controller j) c)) (inFlight st) in
  isRunning (settle c st) = false /\
  currentAbortController (settle c st) = None /\
  inFlight (settle c st) = others /\
  fst (create req_body (settle c st)) = sent 200 [("success", VBool true)] /\
  inFlight (snd (create req_body (settle c st)))
  = (others ++ [{| controller := created st;
                   work := GenerateSpec (get_prop req_body "projectPath")
                                        (get_prop req_body "projectOverview")
                                        (get_prop req_body "generateFeatures") |}])%list.
Proof.
  intros Hin Hc Hp Ho others. subst others.
  assert (Hex : existsb (fun j => Nat.eqb (controller j) c) (inFlight st) = true).
  { apply List.existsb_exists. apply List.in_map_iff in Hin as (j & Hj & Hjin).
    exists j. split; [exact Hjin|]. rewrite Hj. apply Nat.eqb_refl. }
  unfold settle. rewrite Hex.
  rewrite create_shape. unfold start_route. rewrite Hc, Hp, Ho. cbn.
  repeat split.
Qed.

End LockFacts.

#[local] Existing Instance v8.

Lemma busy_refuses_every_start_witness :
  snd (@create v8 overview (run [Create overview] initial)) = run [Create overview] initial /\
  fst (@create v8 overview (run [Create overview] initial))
  = sent 200 [("success", VBool false); ("error", VStr "Spec generation already running")].
Proof.
  destruct (@busy_refuses_every_start v8 overview (run [Create overview] initial) eq_refl)
    as [(Hsame & _ & _) Hanswer].
  split; [exact Hsame|].
  exact (proj1 (Hanswer eq_refl eq_refl) eq_refl).
Defined.

Lemma running_means_live_witness :
  isRunning (@run v8 stop_and_restart initial) = true /\
  exists c, currentAbortController (@run v8 stop_and_restart initial) = Some c /\
            In c (map controller (inFlight (@run v8 stop_and_restart initial))).
Proof.
  split; [reflexivity|].
  destruct (@running_means_live v8 stop_and_restart eq_refl) as (c & Hc & Hin & _).
  exists c. split; assumption.
Defined.

Lemma one_generation_without_stop_witness :
  (List.length (inFlight (@run v8 [Create overview; Generate overview; Status;
                                   Settled 0; GenerateFeatures overview] initial)) <= 1)%nat.
Proof.
  exact (proj1 (@one_generation_without_stop v8
                  [Create overview; Generate overview; Status;
                   Settled 0; GenerateFeatures overview] eq_refl)).
Defined.

(** With a stop in between, the settling of the stopped generation lets a
    third request in while the second generation is still running. *)
Lemma any_settling_releases_lock_witness :
  map controller (inFlight (@run v8 stop_and_restart initial)) = [1; 2]%nat /\
  aborted (@run v8 stop_and_restart initial) = [0%nat].
Proof.
  pose proof (@any_settling_releases_lock v8
                (@run v8 [Create overview; Stop; Create overview] initial) 0 overview
                ltac:(cbn; tauto) eq_refl eq_refl eq_refl) as (_ & _ & _ & _ & Hfl).
  split; [|reflexivity].
  change (@run v8 stop_and_restart initial)
    with (snd (@create v8 overview
                 (settle 0 (@run v8 [Create overview; Stop; Create overview] initial)))).
  rewrite Hfl. reflexivity.
Defined.

End SpecRegenerationFacts.

(** ** String utilities *)

Module StringUtilsFacts.

Import Routes StringUtils.

Local Open Scope list_scope.

(** *** Lists of code units *)

Section Lists.

Variables p q : N -> bool.

Lemma drop_while_forallb (s : Str) :
  forallb q s = true -> forallb q (drop_while p s) = true.
Proof.
  induction s as [|c rest IH]; cbn; [reflexivity|].
  intros Hq. destruct (p c); [|exact Hq].
  apply andb_true_iff in Hq as [_ Hrest]. auto.
Qed.

Lemma no_adjacent_cons (a b : N) (s : Str) :
  no_adjacent q (a :: b :: s) = negb (q a && q b) && no_adjacent q (b :: s).
Proof. reflexivity. Qed.

Lemma no_adjacent_tail (c : N) (s : Str) :
  no_adjacent q (c :: s) = true -> no_adjacent q s = true.
Proof.
  destruct s as [|b rest]; cbn; [reflexivity|].
  intros H. apply andb_true_iff in H as [_ H]. exact H.
Qed.

Lemma drop_while_no_adjacent (s : Str) :
  no_adjacent q s = true -> no_adjacent q (drop_while p s) = true.
Proof.
  induction s as [|c rest IH]; [reflexivity|].
  intros Hq. cbn [drop_while]. destruct (p c); [|exact Hq].
  apply IH. exact (no_adjacent_tail c rest Hq).
Qed.

Lemma drop_while_starts (s : Str) : starts_in p (drop_while p s) = false.
Proof.
  induction s as [|c rest IH]; cbn; [reflexivity|].
  destruct (p c) eqn:Hc; [exact IH|]. cbn. exact Hc.
Qed.

Lemma drop_while_fixed (s : Str) : starts_in p s = false -> drop_while p s = s.
Proof. destruct s as [|c rest]; cbn; [reflexivity|]. intros ->. reflexivity. Qed.

Lemma drop_while_nil (s : Str) : forallb p s = true -> drop_while p s = [].
Proof.
  induction s as [|c rest IH]; cbn; [reflexivity|].
  intros H. apply andb_true_iff in H as [Hc Hrest]. rewrite Hc. auto.
Qed.

Lemma drop_while_nil_inv (s : Str) : drop_while p s = [] -> forallb p s = true.
Proof.
  induction s as [|c rest IH]; cbn; [reflexivity|].
  destruct (p c); [intros H; cbn; auto|discriminate].
Qed.

Lemma drop_while_filter (s : Str) :
  (forall c, p c = true -> q c = false) ->
  List.filter q (drop_while p s) = List.filter q s.
Proof.
  intros Hpq. induction s as [|c rest IH]; cbn; [reflexivity|].
  destruct (p c) eqn:Hc; [|reflexivity].
  rewrite (Hpq c Hc). exact IH.
Qed.

Lemma drop_end_nil (s : Str) : forallb p s = true -> drop_end_while p s = [].
Proof.
  induction s as [|c rest IH]; cbn; [reflexivity|].
  intros H. apply andb_true_iff in H as [Hc Hrest]. rewrite (IH Hrest), Hc. reflexivity.
Qed.

Lemma drop_end_nil_inv (s : Str) : drop_end_while p s = [] -> forallb p s = true.
Proof.
  induction s as [|c rest IH]; cbn; [reflexivity|].
  destruct (drop_end_while p rest) as [|k kept]; [|discriminate].
  destruct (p c); [intros _; cbn; auto|discriminate].
Qed.

Lemma drop_end_forallb (s : Str) :
  forallb q s = true -> forallb q (drop_end_while p s) = true.
Proof.
  induction s as [|c rest IH]; cbn; [reflexivity|].
  intros H. apply andb_true_iff in H as [Hc Hrest]. specialize (IH Hrest).
  destruct (drop_end_while p rest) as [|k kept].
  - destruct (p c); cbn; [reflexivity|]. rewrite Hc. reflexivity.
  - cbn in *. rewrite Hc. exact IH.
Qed.

Lemma drop_end_starts (s : Str) :
  starts_in q s = false -> starts_in q (drop_end_while p s) = false.
Proof.
  destruct s as [|c rest]; cbn; [reflexivity|].
  intros Hc. destruct (drop_end_while p rest); [destruct (p c)|]; cbn; auto.
Qed.

Lemma drop_end_head (s : Str) (k : N) (kept : Str) :
  drop_end_while p s = k :: kept -> exists rest, s = k :: rest.
Proof.
  destruct s as [|c rest]; cbn; [discriminate|].
  destruct (drop_end_while p rest); [destruct (p c)|]; intros H;
    try discriminate; injection H as <- _; eauto.
Qed.

Lemma drop_end_no_adjacent (s : Str) :
  no_adjacent q s = true -> no_adjacent q (drop_end_while p s) = true.
Proof.
  induction s as [|c rest IH]; [reflexivity|].
  intros H. pose proof (no_adjacent_tail c rest H) as Hrest. specialize (IH Hrest).
  cbn [drop_end_while].
  destruct (drop_end_while p rest) as [|k kept] eqn:E.
  - destruct (p c); reflexivity.
  - destruct (drop_end_head rest k kept E) as [rest' ->].
    rewrite no_adjacent_cons in H |- *. apply andb_true_iff in H as [Hck _].
    rewrite Hck. exact IH.
Qed.

Lemma drop_end_ends (s : Str) : ends_in p (drop_end_while p s) = false.
Proof.
  induction s as [|c rest IH]; cbn; [reflexivity|].
  destruct (drop_end_while p rest) as [|k kept].
  - destruct (p c) eqn:Hc; cbn; [reflexivity|exact Hc].
  - exact IH.
Qed.

Lemma drop_end_fixed (s : Str) : ends_in p s = false -> drop_end_while p s = s.
Proof.
  induction s as [|c rest IH]; [reflexivity|].
  cbn [ends_in drop_end_while]. destruct rest as [|b rest'].
  - cbn. intros ->. reflexivity.
  - intros H. rewrite (IH H). reflexivity.
Qed.

Lemma drop_end_filter (s : Str) :
  (forall c, p c = true -> q c = false) ->
  List.filter q (drop_end_while p s) = List.filter q s.
Proof.
  intros Hpq. induction s as [|c rest IH]; cbn; [reflexivity|].
  destruct (drop_end_while p rest) as [|k kept].
  - cbn in IH. destruct (p c) eqn:Hc.
    + rewrite (Hpq c Hc). exact IH.
    + cbn. rewrite <- IH. reflexivity.
  - cbn [List.filter] in *. rewrite IH. reflexivity.
Qed.

End Lists.

(** *** Runs *)

Section Runs.

Variable p : N -> bool.
Variable r : N.
Hypothesis r_in_class : p r = true.

Lemma runs_shape (s : Str) :
  forall in_run,
    no_adjacent p (replace_runs_from p [r] in_run s) = true /\
    (in_run = true -> starts_in p (replace_runs_from p [r] in_run s) = false).
Proof.
  induction s as [|c rest IH]; intros in_run; cbn [replace_runs_from].
  - split; reflexivity.
  - destruct (p c) eqn:Hc.
    + destruct (IH true) as [Hadj Hstart]. specialize (Hstart eq_refl).
      destruct in_run; cbn [app].
      * split; [exact Hadj|intros _; exact Hstart].
      * split; [|discriminate].
        destruct (replace_runs_from p [r] true rest) as [|k kept]; [reflexivity|].
        cbn in Hstart. rewrite no_adjacent_cons, Hstart, andb_false_r. exact Hadj.
    + destruct (IH false) as [Hadj _]. split.
      * destruct (replace_runs_from p [r] false rest) as [|k kept]; [reflexivity|].
        rewrite no_adjacent_cons, Hc. exact Hadj.
      * intros _. cbn. exact Hc.
Qed.

Lemma runs_forallb (q : N -> bool) (s : Str) :
  q r = true ->
  (forall c, In c s -> p c = false -> q c = true) ->
  forall in_run, forallb q (replace_runs_from p [r] in_run s) = true.
Proof.
  intros Hr. induction s as [|c rest IH]; intros Hs in_run; cbn; [reflexivity|].
  assert (Hrest : forall c', In c' rest -> p c' = false -> q c' = true)
    by (intros c' Hin; apply Hs; right; exact Hin).
  destruct (p c) eqn:Hc.
  - destruct in_run; cbn; [|rewrite Hr]; apply IH; exact Hrest.
  - cbn. rewrite (Hs c (or_introl eq_refl) Hc). apply IH. exact Hrest.
Qed.

(** A string whose runs are already single [r]s is left as it is. *)
Lemma runs_fixed (s : Str) :
  forallb (fun c => negb (p c) || (c =? r)%N) s = true ->
  no_adjacent p s = true ->
  forall in_run, (in_run = true -> starts_in p s = false) ->
                 replace_runs_from p [r] in_run s = s.
Proof.
  induction s as [|c rest IH]; intros Hall Hadj in_run Hstart; cbn; [reflexivity|].
  cbn in Hall. apply andb_true_iff in Hall as [Hc Hall].
  pose proof (no_adjacent_tail p c rest Hadj) as Hadj'.
  destruct (p c) eqn:Hpc.
  - cbn in Hc. apply N.eqb_eq in Hc. subst c.
    destruct in_run; [specialize (Hstart eq_refl); cbn in Hstart; congruence|].
    cbn. f_equal. apply IH; try assumption.
    intros _. destruct rest as [|b rest']; [reflexivity|].
    rewrite no_adjacent_cons, Hpc in Hadj.
    apply andb_true_iff in Hadj as [Hb _]. cbn. apply negb_true_iff in Hb. exact Hb.
  - f_equal. apply IH; try assumption. discriminate.
Qed.

Lemma runs_filter (q : N -> bool) (s : Str) :
  (forall c, p c = true -> q c = false) ->
  forall in_run, List.filter q (replace_runs_from p [r] in_run s) = List.filter q s.
Proof.
  intros Hpq. induction s as [|c rest IH]; intros in_run; cbn; [reflexivity|].
  destruct (p c) eqn:Hc.
  - rewrite (Hpq c Hc). destruct in_run; cbn; [|rewrite (Hpq r r_in_class)]; apply IH.
  - cbn. rewrite IH. reflexivity.
Qed.

Lemma runs_nil (s : Str) :
  forallb p s = true ->
  forall in_run, forallb p (replace_runs_from p [r] in_run s) = true.
Proof.
  induction s as [|c rest IH]; intros Hall in_run; cbn; [reflexivity|].
  cbn in Hall. apply andb_true_iff in Hall as [Hc Hall]. rewrite Hc.
  destruct in_run; cbn; [|rewrite r_in_class]; apply IH; exact Hall.
Qed.

End Runs.

(** *** truncate *)

Lemma len_firstn (n : nat) (s : Str) :
  (n <= List.length s)%nat -> len (firstn n s) = Z.of_nat n.
Proof. intros H. unfold len. rewrite List.length_firstn. lia. Qed.

(** [truncate] throws exactly when [maxLength] is below the length of
    the ellipsis, whatever the string, even one that would fit; otherwise
    its result is never longer than [maxLength]: the string itself when
    it fits, and else the first [maxLength - ellipsis.length] characters
    followed by the ellipsis, [maxLength] characters in all. *)
Theorem truncate_never_exceeds (str : Str) (maxLength : Z) (ellipsis : option Str) :
  let e := ellipsis_or_default ellipsis in
  match truncate str maxLength ellipsis with
  | Throw _ => maxLength < len e
  | Ok r =>
      len e <= maxLength /\ len r <= maxLength /\
      (len str <= maxLength -> r = str) /\
      (maxLength < len str ->
       len r = maxLength /\
       r = firstn (Z.to_nat (maxLength - len e)) str ++ e)
  end.
Proof.
  intros e. unfold truncate. fold (ellipsis_or_default ellipsis). fold e.
  destruct (maxLength <? len e) eqn:Hlow.
  - apply Z.ltb_lt in Hlow. exact Hlow.
  - apply Z.ltb_ge in Hlow.
    destruct (len str <=? maxLength) eqn:Hfit.
    + apply Z.leb_le in Hfit. repeat split; try lia; intros; lia.
    + apply Z.leb_gt in Hfit.
      assert (Hslice : slice_to str (maxLength - len e)
                       = firstn (Z.to_nat (maxLength - len e)) str).
      { unfold slice_to.
        destruct (maxLength - len e <? 0) eqn:Hneg; [apply Z.ltb_lt in Hneg; lia|].
        f_equal. unfold len in *. lia. }
      rewrite Hslice.
      assert (Hlen : len (firstn (Z.to_nat (maxLength - len e)) str ++ e) = maxLength).
      { unfold len in *. rewrite List.length_app, List.length_firstn. lia. }
      repeat split; try lia; intros; lia.
Qed.

(** *** White space *)

Lemma ws_not_word (c : N) : is_ws c = true -> negb (is_ws c) = false.
Proof. intros ->. reflexivity. Qed.

Lemma space_is_ws : is_ws space = true.
Proof. reflexivity. Qed.

Lemma isBlank_of_string (s : Str) : isBlank (SStr s) = forallb is_ws s.
Proof.
  unfold isBlank, trim.
  destruct (forallb is_ws s) eqn:Hall.
  - rewrite (drop_while_nil is_ws s Hall). reflexivity.
  - destruct (drop_end_while is_ws (drop_while is_ws s)) as [|k kept] eqn:E;
      [|reflexivity].
    apply drop_end_nil_inv in E.
    pose proof (drop_while_starts is_ws s) as Hstart.
    destruct (drop_while is_ws s) as [|c rest] eqn:Hdw.
    + apply drop_while_nil_inv in Hdw. congruence.
    + cbn in Hstart, E. rewrite Hstart in E. discriminate E.
Qed.

(** [isBlank] holds of null, of undefined and of exactly the strings
    made of white space only (the empty one among them). *)
Theorem isBlank_iff_all_whitespace (s : Str) :
  isBlank SNull = true /\ isBlank SUndefined = true /\
  isBlank (SStr s) = forallb is_ws s /\
  isNotBlank (SStr s) = existsb (fun c => negb (is_ws c)) s.
Proof.
  repeat split; [apply isBlank_of_string|].
  unfold isNotBlank. rewrite isBlank_of_string.
  induction s as [|c rest IH]; cbn; [reflexivity|].
  rewrite negb_andb, IH. reflexivity.
Qed.

Lemma collapse_shape (s : Str) : single_spaced (collapseWhitespace s) = true.
Proof.
  unfold single_spaced, collapseWhitespace, trim, replace_runs.
  destruct (runs_shape is_ws space s false) as [Hadj _].
  rewrite drop_end_forallb.
  2:{ apply drop_while_forallb.
      apply (runs_forallb is_ws space (fun c => negb (is_ws c) || (c =? space)%N));
        [reflexivity|].
      intros c _ Hc. rewrite Hc. reflexivity. }
  rewrite drop_end_no_adjacent.
  2:{ apply drop_while_no_adjacent. exact Hadj. }
  rewrite drop_end_starts by apply drop_while_starts.
  rewrite drop_end_ends. reflexivity.
Qed.

Lemma collapse_fixed (s : Str) : single_spaced s = true -> collapseWhitespace s = s.
Proof.
  unfold single_spaced. intros H.
  apply andb_true_iff in H as [H Hend]. apply andb_true_iff in H as [H Hstart].
  apply andb_true_iff in H as [Hall Hadj].
  apply negb_true_iff in Hend, Hstart.
  unfold collapseWhitespace, trim, replace_runs.
  rewrite (runs_fixed is_ws space s Hall Hadj false) by discriminate.
  rewrite (drop_while_fixed is_ws s Hstart).
  apply drop_end_fixed. exact Hend.
Qed.

(** [collapseWhitespace] returns a string whose only white space is the
    space character, never first, never last and never twice in a row,
    and it leaves such a string as it is: collapsing twice is collapsing
    once. *)
Theorem collapseWhitespace_normalizes (s : Str) :
  single_spaced (collapseWhitespace s) = true /\
  collapseWhitespace (collapseWhitespace s) = collapseWhitespace s /\
  (single_spaced s = true -> collapseWhitespace s = s).
Proof.
  split; [apply collapse_shape|].
  split; [apply collapse_fixed, collapse_shape|apply collapse_fixed].
Qed.

(** [collapseWhitespace] keeps every character that is not white space,
    in order, and its result is empty exactly when the string is blank. *)
Theorem collapseWhitespace_keeps_words (s : Str) :
  List.filter (fun c => negb (is_ws c)) (collapseWhitespace s)
  = List.filter (fun c => negb (is_ws c)) s /\
  (collapseWhitespace s = [] <-> isBlank (SStr s) = true).
Proof.
  assert (Hkeep : List.filter (fun c => negb (is_ws c)) (collapseWhitespace s)
                  = List.filter (fun c => negb (is_ws c)) s).
  { unfold collapseWhitespace, trim, replace_runs.
    rewrite drop_end_filter by apply ws_not_word.
    rewrite drop_while_filter by apply ws_not_word.
    apply runs_filter; [reflexivity|apply ws_not_word]. }
  split; [exact Hkeep|].
  rewrite isBlank_of_string.
  split.
  - intros Hnil. rewrite Hnil in Hkeep. cbn in Hkeep.
    clear Hnil. induction s as [|c rest IH]; cbn in *; [reflexivity|].
    destruct (is_ws c); cbn in *; [auto|discriminate].
  - intros Hall. unfold collapseWhitespace, trim, replace_runs.
    rewrite drop_while_nil; [reflexivity|].
    apply runs_nil; [reflexivity|exact Hall].
Qed.

(** *** safeParseInt *)

Lemma drop_while_app (p : N -> bool) (w t : Str) :
  forallb p w = true -> starts_in p t = false -> drop_while p (w ++ t) = t.
Proof.
  intros Hw Ht. induction w as [|c rest IH]; cbn.
  - apply drop_while_fixed. exact Ht.
  - cbn in Hw. apply andb_true_iff in Hw as [Hc Hrest]. rewrite Hc. auto.
Qed.

Lemma take_while_app (p : N -> bool) (ds rest : Str) :
  forallb p ds = true -> starts_in p rest = false -> take_while p (ds ++ rest) = ds.
Proof.
  intros Hds Hrest. induction ds as [|c ds' IH]; cbn.
  - destruct rest as [|b rest']; cbn in *; [reflexivity|]. rewrite Hrest. reflexivity.
  - cbn in Hds. apply andb_true_iff in Hds as [Hc Hds']. rewrite Hc. f_equal. auto.
Qed.

Lemma digit_not_ws (c : N) : is_digit c = true -> is_ws c = false.
Proof.
  unfold is_digit, is_ws. intros H. apply andb_true_iff in H as [Hlo Hhi].
  apply N.leb_le in Hlo, Hhi.
  repeat match goal with
         | |- context [(c =? ?k)%N] =>
             let E := fresh in destruct (c =? k)%N eqn:E; [apply N.eqb_eq in E; lia|]
         end.
  destruct (8192 <=? c)%N eqn:E; [apply N.leb_le in E; lia|]. reflexivity.
Qed.

Lemma digit_not_sign (c : N) : is_digit c = true -> (c =? 45)%N = false /\ (c =? 43)%N = false.
Proof.
  unfold is_digit. intros H. apply andb_true_iff in H as [Hlo Hhi].
  apply N.leb_le in Hlo, Hhi. split; apply N.eqb_neq; lia.
Qed.

Section ParseFacts.

Variable Number : Type.
Variable number_of_digits : bool -> Str -> Number.
Variable zero : Number.

Lemma reads_digits (w digits rest : Str) (sign : option bool) :
  forallb is_ws w = true ->
  digits <> [] -> forallb is_digit digits = true ->
  starts_in is_digit rest = false ->
  parseInt_reads (w ++ sign_units sign ++ digits ++ rest)
  = Some (is_negative sign, digits).
Proof.
  intros Hw Hne Hdigits Hrest. unfold parseInt_reads.
  destruct digits as [|d ds]; [contradiction|].
  cbn in Hdigits. apply andb_true_iff in Hdigits as [Hd Hds].
  pose proof (digit_not_ws d Hd) as Hdws.
  destruct (digit_not_sign d Hd) as [Hminus Hplus].
  assert (Htake : take_while is_digit ((d :: ds) ++ rest) = d :: ds).
  { apply take_while_app; [cbn; rewrite Hd; exact Hds|exact Hrest]. }
  destruct sign as [[|]|]; cbn [sign_units is_negative app].
  - rewrite (drop_while_app is_ws w (45%N :: d :: ds ++ rest) Hw eq_refl).
    cbn [N.eqb Pos.eqb]. change (d :: ds ++ rest) with ((d :: ds) ++ rest).
    rewrite Htake. reflexivity.
  - rewrite (drop_while_app is_ws w (43%N :: d :: ds ++ rest) Hw eq_refl).
    cbn [N.eqb Pos.eqb]. change (d :: ds ++ rest) with ((d :: ds) ++ rest).
    rewrite Htake. reflexivity.
  - rewrite (drop_while_app is_ws w (d :: ds ++ rest) Hw Hdws).
    rewrite Hminus, Hplus. change (d :: ds ++ rest) with ((d :: ds) ++ rest).
    rewrite Htake. reflexivity.
Qed.

(** The result is what the engine makes of the sign and of the longest
    leading run of digits. *)
Lemma leading_run_converted (w digits rest : Str)
    (sign : option bool) (defaultValue : option Number) :
  forallb is_ws w = true ->
  digits <> [] -> forallb is_digit digits = true ->
  starts_in is_digit rest = false ->
  safeParseInt Number number_of_digits zero
               (SStr (w ++ sign_units sign ++ digits ++ rest)) defaultValue
  = number_of_digits (is_negative sign) digits.
Proof.
  intros Hw Hne Hdigits Hrest. unfold safeParseInt.
  rewrite isBlank_of_string.
  assert (Hnot : forallb is_ws (w ++ sign_units sign ++ digits ++ rest) = false).
  { rewrite !forallb_app.
    destruct digits as [|d ds]; [contradiction|].
    cbn in Hdigits. apply andb_true_iff in Hdigits as [Hd _].
    cbn [forallb]. rewrite (digit_not_ws d Hd).
    rewrite andb_false_l, andb_false_r, andb_false_r. reflexivity. }
  rewrite Hnot, (reads_digits w digits rest sign Hw Hne Hdigits Hrest).
  reflexivity.
Qed.

(** [safeParseInt] returns the integer a string starts with: after any
    leading white space and an optional sign, a run of decimal digits
    that denotes at most 2^53 and is not followed by another digit gives
    that integer, negated after a minus sign (negative zero for a negated
    zero), whatever follows the run and whatever the default value.  The
    conversion of the digits is the engine's, exact in that range. *)
Theorem safeParseInt_reads_leading_integer (integer : Z -> Number)
    (negative_zero : Number) (w digits rest : Str)
    (sign : option bool) (defaultValue : option Number) :
  exact_on_safe_integers Number integer negative_zero number_of_digits ->
  forallb is_ws w = true ->
  digits <> [] -> forallb is_digit digits = true ->
  starts_in is_digit rest = false ->
  digits_value digits <= 2 ^ 53 ->
  safeParseInt Number number_of_digits zero
               (SStr (w ++ sign_units sign ++ digits ++ rest)) defaultValue
  = if is_negative sign
    then (if digits_value digits =? 0 then negative_zero
          else integer (- digits_value digits))
    else integer (digits_value digits).
Proof.
  intros Hexact Hw Hne Hdigits Hrest Hsafe.
  rewrite (leading_run_converted w digits rest sign defaultValue Hw Hne Hdigits Hrest).
  apply Hexact; assumption.
Qed.

(** [safeParseInt] gives the default value (zero when none is passed)
    for null, for undefined, and for every string in which the leading
    white space and optional sign are not followed by a decimal digit:
    blank strings, words, a lone sign, a sign followed by a space. *)
Theorem safeParseInt_falls_back (w rest : Str) (sign : option bool)
    (defaultValue : option Number) :
  forallb is_ws w = true ->
  starts_in is_digit rest = false ->
  (sign = None -> starts_in is_sign_or_ws rest = false) ->
  let fallback := match defaultValue with Some d => d | None => zero end in
  safeParseInt Number number_of_digits zero SNull defaultValue = fallback /\
  safeParseInt Number number_of_digits zero SUndefined defaultValue = fallback /\
  safeParseInt Number number_of_digits zero
               (SStr (w ++ sign_units sign ++ rest)) defaultValue = fallback.
Proof.
  intros Hw Hrest Hsign fallback. subst fallback.
  split; [reflexivity|]. split; [reflexivity|].
  unfold safeParseInt.
  destruct (isBlank (SStr (w ++ sign_units sign ++ rest))); [reflexivity|].
  assert (Hnone : take_while is_digit rest = []).
  { destruct rest as [|b rest']; [reflexivity|]. cbn in *. rewrite Hrest. reflexivity. }
  unfold parseInt_reads.
  destruct sign as [[|]|]; cbn [sign_units app].
  - rewrite (drop_while_app is_ws w (45%N :: rest) Hw eq_refl).
    cbn [N.eqb Pos.eqb]. rewrite Hnone. reflexivity.
  - rewrite (drop_while_app is_ws w (43%N :: rest) Hw eq_refl).
    cbn [N.eqb Pos.eqb]. rewrite Hnone. reflexivity.
  - specialize (Hsign eq_refl).
    destruct rest as [|b rest'].
    + rewrite app_nil_r, (drop_while_nil is_ws w Hw). reflexivity.
    + cbn in Hsign. unfold is_sign_or_ws in Hsign.
      apply orb_false_iff in Hsign as [Hsign Hplus].
      apply orb_false_iff in Hsign as [Hws Hminus].
      rewrite (drop_while_app is_ws w (b :: rest') Hw Hws).
      rewrite Hminus, Hplus, Hnone. reflexivity.
Qed.

End ParseFacts.

(** *** escapeRegex *)

Lemma backslash_special : is_regex_special backslash = true.
Proof. reflexivity. Qed.

Lemma escapeRegex_injective (a : Str) :
  forall b, escapeRegex a = escapeRegex b -> a = b.
Proof.
  unfold escapeRegex.
  induction a as [|x a' IH]; intros [|y b'] H; cbn in H.
  - reflexivity.
  - destruct (is_regex_special y); discriminate H.
  - destruct (is_regex_special x); discriminate H.
  - destruct (is_regex_special x) eqn:Hx, (is_regex_special y) eqn:Hy; cbn in H.
    + injection H as -> H. f_equal. auto.
    + injection H as <- H. rewrite backslash_special in Hy. discriminate Hy.
    + injection H as -> H. rewrite backslash_special in Hx. discriminate Hx.
    + injection H as -> H. f_equal. auto.
Qed.

(** [escapeRegex] loses nothing: two strings with the same escaped form
    are the same string; the escaped form is longer by one backslash for
    each special character; and a string is returned unchanged exactly
    when it holds no special character. *)
Theorem escapeRegex_is_faithful (a b : Str) :
  (escapeRegex a = escapeRegex b -> a = b) /\
  len (escapeRegex a) = len a + count_special a /\
  (escapeRegex a = a <-> forallb (fun c => negb (is_regex_special c)) a = true).
Proof.
  split; [apply escapeRegex_injective|]. clear b.
  assert (Hlen : forall s, len (escapeRegex s) = len s + count_special s).
  { unfold len, count_special, escapeRegex.
    induction s as [|c rest IH]; cbn; [reflexivity|].
    destruct (is_regex_special c); cbn; rewrite ?List.length_app; cbn; lia. }
  split; [apply Hlen|]. split.
  - intros Hfix. specialize (Hlen a). rewrite Hfix in Hlen.
    assert (Hzero : List.filter is_regex_special a = []).
    { unfold count_special in Hlen.
      destruct (List.filter is_regex_special a); [reflexivity|cbn in Hlen; lia]. }
    clear Hfix Hlen. induction a as [|c rest IH]; [reflexivity|].
    cbn in Hzero. cbn. destruct (is_regex_special c); [discriminate Hzero|].
    cbn. apply IH. exact Hzero.
  - intros Hnone. clear Hlen. unfold escapeRegex.
    induction a as [|c rest IH]; [reflexivity|].
    cbn in Hnone. apply andb_true_iff in Hnone as [Hc Hrest].
    apply negb_true_iff in Hc. cbn. rewrite Hc. cbn. f_equal. apply IH. exact Hrest.
Qed.

(** *** Prefixes, edges and maps *)

Section Edges.

Variable q : N -> bool.

Lemma firstn_forallb (n : nat) (s : Str) :
  forallb q s = true -> forallb q (firstn n s) = true.
Proof.
  revert n. induction s as [|c rest IH]; intros [|n] H; cbn; try reflexivity.
  cbn in H. apply andb_true_iff in H as [Hc Hrest]. rewrite Hc. cbn.
  apply IH. exact Hrest.
Qed.

Lemma firstn_no_adjacent (n : nat) (s : Str) :
  no_adjacent q s = true -> no_adjacent q (firstn n s) = true.
Proof.
  revert n. induction s as [|c rest IH]; intros [|n] H; try reflexivity.
  pose proof (no_adjacent_tail q c rest H) as Hrest.
  specialize (IH n Hrest). cbn [firstn].
  destruct rest as [|b rest']; [destruct n; reflexivity|].
  destruct n as [|n]; [reflexivity|].
  cbn [firstn] in *. rewrite no_adjacent_cons in H |- *.
  apply andb_true_iff in H as [Hcb _]. rewrite Hcb. exact IH.
Qed.

Lemma firstn_starts (n : nat) (s : Str) :
  starts_in q s = false -> starts_in q (firstn n s) = false.
Proof. destruct s as [|c rest], n as [|n]; cbn; auto. Qed.

Lemma strip_trailing_forallb (s : Str) :
  forallb q s = true -> forallb q (strip_trailing_hyphen s) = true.
Proof.
  induction s as [|c rest IH]; [reflexivity|].
  intros H. cbn in H. apply andb_true_iff in H as [Hc Hrest].
  cbn [strip_trailing_hyphen]. destruct rest as [|b rest'].
  - destruct (is_hyphen c); cbn; [reflexivity|]. rewrite Hc. reflexivity.
  - cbn [forallb]. rewrite Hc. apply IH. exact Hrest.
Qed.

Lemma strip_trailing_starts (s : Str) :
  starts_in q s = false -> starts_in q (strip_trailing_hyphen s) = false.
Proof.
  destruct s as [|c [|b rest]]; cbn; auto.
  intros Hc. destruct (is_hyphen c); cbn; auto.
Qed.

Lemma strip_trailing_no_adjacent (s : Str) :
  no_adjacent q s = true -> no_adjacent q (strip_trailing_hyphen s) = true.
Proof.
  induction s as [|c rest IH]; [reflexivity|].
  intros H. pose proof (no_adjacent_tail q c rest H) as Hrest. specialize (IH Hrest).
  cbn [strip_trailing_hyphen]. destruct rest as [|b rest'].
  - destruct (is_hyphen c); reflexivity.
  - destruct rest' as [|a rest''].
    + cbn [strip_trailing_hyphen] in *. destruct (is_hyphen b); [reflexivity|].
      rewrite no_adjacent_cons in H |- *. exact H.
    + cbn [strip_trailing_hyphen] in *. rewrite no_adjacent_cons in H |- *.
      apply andb_true_iff in H as [Hcb _]. rewrite Hcb. exact IH.
Qed.

End Edges.

Lemma strip_trailing_ends (s : Str) :
  no_adjacent is_hyphen s = true -> ends_in is_hyphen (strip_trailing_hyphen s) = false.
Proof.
  induction s as [|c rest IH]; [reflexivity|].
  intros H. pose proof (no_adjacent_tail is_hyphen c rest H) as Hrest.
  specialize (IH Hrest). cbn [strip_trailing_hyphen].
  destruct rest as [|b rest'].
  - destruct (is_hyphen c) eqn:Hc; cbn; [reflexivity|exact Hc].
  - destruct rest' as [|a rest''].
    + cbn [strip_trailing_hyphen] in *.
      destruct (is_hyphen b) eqn:Hb.
      * rewrite no_adjacent_cons, Hb in H. cbn [no_adjacent] in H.
        rewrite !andb_true_r in H. apply negb_true_iff in H. cbn. exact H.
      * cbn. exact Hb.
    + cbn [strip_trailing_hyphen] in *. exact IH.
Qed.

Lemma strip_trailing_fixed (s : Str) :
  ends_in is_hyphen s = false -> strip_trailing_hyphen s = s.
Proof.
  induction s as [|c rest IH]; [reflexivity|].
  cbn [ends_in strip_trailing_hyphen]. destruct rest as [|b rest'].
  - intros ->. reflexivity.
  - intros H. rewrite (IH H). reflexivity.
Qed.

Lemma strip_trailing_prefix (s : Str) :
  exists cut, s = strip_trailing_hyphen s ++ cut.
Proof.
  induction s as [|c rest [cut IH]]; [exists []; reflexivity|].
  cbn [strip_trailing_hyphen]. destruct rest as [|b rest'].
  - destruct (is_hyphen c); [exists [c]|exists []]; reflexivity.
  - exists cut. cbn [app]. f_equal. exact IH.
Qed.

Lemma strip_edges_joined (word : N -> bool) (s : Str) :
  forallb (fun c => word c || is_hyphen c) s = true ->
  no_adjacent is_hyphen s = true ->
  joined word is_hyphen (strip_edge_hyphens s) = true.
Proof.
  intros Hall Hadj. unfold joined, strip_edge_hyphens.
  set (t := match s with
            | c :: rest => if is_hyphen c then rest else s
            | [] => []
            end).
  assert (Ht : forallb (fun c => word c || is_hyphen c) t = true
               /\ no_adjacent is_hyphen t = true /\ starts_in is_hyphen t = false).
  { subst t. destruct s as [|c rest]; [repeat split|].
    destruct (is_hyphen c) eqn:Hc.
    - cbn in Hall. apply andb_true_iff in Hall as [_ Hrest].
      split; [exact Hrest|]. split; [exact (no_adjacent_tail _ c rest Hadj)|].
      destruct rest as [|b rest']; [reflexivity|].
      rewrite no_adjacent_cons, Hc in Hadj. cbn in Hadj |- *.
      apply andb_true_iff in Hadj as [Hb _]. apply negb_true_iff in Hb. exact Hb.
    - repeat split; try assumption. }
  destruct Ht as (Hall' & Hadj' & Hstart').
  rewrite strip_trailing_forallb by exact Hall'.
  rewrite strip_trailing_no_adjacent by exact Hadj'.
  rewrite strip_trailing_starts by exact Hstart'.
  rewrite strip_trailing_ends by exact Hadj'. reflexivity.
Qed.

Lemma joined_parts (word sep : N -> bool) (s : Str) :
  joined word sep s = true ->
  forallb (fun c => word c || sep c) s = true /\ no_adjacent sep s = true /\
  starts_in sep s = false /\ ends_in sep s = false.
Proof.
  unfold joined. intros H.
  apply andb_true_iff in H as [H Hend]. apply andb_true_iff in H as [H Hstart].
  apply andb_true_iff in H as [Hall Hadj].
  apply negb_true_iff in Hend, Hstart. auto.
Qed.

Lemma strip_edges_fixed (s : Str) :
  starts_in is_hyphen s = false -> ends_in is_hyphen s = false ->
  strip_edge_hyphens s = s.
Proof.
  intros Hstart Hend. unfold strip_edge_hyphens.
  destruct s as [|c rest]; [reflexivity|].
  cbn in Hstart. rewrite Hstart. apply strip_trailing_fixed. exact Hend.
Qed.

Lemma runs_none (p : N -> bool) (r : N) (s : Str) :
  forallb (fun c => negb (p c)) s = true ->
  forall in_run, replace_runs_from p [r] in_run s = s.
Proof.
  induction s as [|c rest IH]; intros H in_run; cbn; [reflexivity|].
  cbn in H. apply andb_true_iff in H as [Hc Hrest].
  apply negb_true_iff in Hc. rewrite Hc. f_equal. auto.
Qed.

Lemma forallb_imp (p q : N -> bool) (s : Str) :
  (forall c, p c = true -> q c = true) -> forallb p s = true -> forallb q s = true.
Proof.
  intros Hpq. induction s as [|c rest IH]; cbn; [reflexivity|].
  intros H. apply andb_true_iff in H as [Hc Hrest].
  rewrite (Hpq c Hc). auto.
Qed.

Lemma filter_forallb (p : N -> bool) (s : Str) : forallb p (List.filter p s) = true.
Proof.
  induction s as [|c rest IH]; cbn; [reflexivity|].
  destruct (p c) eqn:Hc; cbn; [rewrite Hc|]; exact IH.
Qed.

Lemma filter_fixed (p : N -> bool) (s : Str) :
  forallb p s = true -> List.filter p s = s.
Proof.
  induction s as [|c rest IH]; cbn; [reflexivity|].
  intros H. apply andb_true_iff in H as [Hc Hrest]. rewrite Hc. f_equal. auto.
Qed.

Lemma forallb_In (p : N -> bool) (s : Str) (c : N) :
  forallb p s = true -> In c s -> p c = true.
Proof. intros H Hin. exact (proj1 (List.forallb_forall p s) H c Hin). Qed.

(** Mapping a function that keeps hyphens hyphens and the rest not. *)
Section Mapped.

Variable f : N -> N.
Hypothesis f_hyphen : forall c, is_hyphen (f c) = is_hyphen c.

Lemma map_no_adjacent (s : Str) :
  no_adjacent is_hyphen (map f s) = no_adjacent is_hyphen s.
Proof.
  induction s as [|c rest IH]; [reflexivity|].
  destruct rest as [|b rest']; [reflexivity|].
  cbn [map] in *. rewrite !no_adjacent_cons, !f_hyphen, IH. reflexivity.
Qed.

Lemma map_starts (s : Str) : starts_in is_hyphen (map f s) = starts_in is_hyphen s.
Proof. destruct s; cbn; auto. Qed.

Lemma map_ends (s : Str) : ends_in is_hyphen (map f s) = ends_in is_hyphen s.
Proof.
  induction s as [|c rest IH]; [reflexivity|].
  destruct rest as [|b rest']; cbn [map ends_in] in *; auto.
Qed.

End Mapped.

(** *** Character facts *)

Ltac class_hyps :=
  repeat match goal with
         | H : _ && _ = true |- _ => apply andb_true_iff in H as [? ?]
         | H : _ || _ = true |- _ => apply orb_true_iff in H as [?|?]
         | H : _ || _ = false |- _ => apply orb_false_iff in H as [? ?]
         | H : _ && _ = false |- _ => apply andb_false_iff in H as [?|?]
         | H : negb _ = true |- _ => apply negb_true_iff in H
         | H : negb _ = false |- _ => apply negb_false_iff in H
         | H : (_ <=? _)%N = true |- _ => apply N.leb_le in H
         | H : (_ <=? _)%N = false |- _ => apply N.leb_gt in H
         | H : (_ =? _)%N = true |- _ => apply N.eqb_eq in H
         | H : (_ =? _)%N = false |- _ => apply N.eqb_neq in H
         | H : (_ <? _)%N = true |- _ => apply N.ltb_lt in H
         | H : (_ <? _)%N = false |- _ => apply N.ltb_ge in H
         end.

Ltac class_facts :=
  unfold lower_ascii, upper_ascii, is_kebab_kept, is_camel_kept, is_slug_kept,
    is_slug_word, is_alnum, is_kebab_separator, is_camel_separator, is_lower,
    is_upper, is_digit, is_hyphen, is_ascii, is_ws, hyphen, underscore in *;
  class_hyps.

Ltac decide_class :=
  repeat match goal with
         | |- context [if ?b then _ else _] =>
             let E := fresh in destruct b eqn:E; class_hyps
         end;
  repeat match goal with
         | |- context [(?a <=? ?b)%N] =>
             let E := fresh in
             destruct (a <=? b)%N eqn:E;
             [apply N.leb_le in E|apply N.leb_gt in E];
             cbn [andb orb negb] in *; try (exfalso; lia)
         | |- context [(?a =? ?b)%N] =>
             let E := fresh in
             destruct (a =? b)%N eqn:E;
             [apply N.eqb_eq in E|apply N.eqb_neq in E];
             cbn [andb orb negb] in *; try (exfalso; lia)
         | |- context [(?a <? ?b)%N] =>
             let E := fresh in
             destruct (a <? b)%N eqn:E;
             [apply N.ltb_lt in E|apply N.ltb_ge in E];
             cbn [andb orb negb] in *; try (exfalso; lia)
         end;
  cbn; try reflexivity; try lia; try (exfalso; lia).

Lemma lower_hyphen (c : N) : is_hyphen (lower_ascii c) = is_hyphen c.
Proof. class_facts. decide_class. Qed.

Lemma kept_is_ascii (c : N) : is_kebab_kept c = true -> is_ascii c = true.
Proof. intros H. class_facts; apply N.ltb_lt; lia. Qed.

Lemma lower_of_kept (c : N) :
  is_kebab_kept c = true -> is_slug_word (lower_ascii c) || is_hyphen (lower_ascii c) = true.
Proof. intros H. class_facts; subst; decide_class. Qed.

Lemma word_fixed_by_lower (c : N) :
  is_slug_word c || is_hyphen c = true -> lower_ascii c = c.
Proof. intros H. class_facts; subst; decide_class. Qed.

Lemma word_is_kept (c : N) :
  is_slug_word c || is_hyphen c = true -> is_kebab_kept c = true.
Proof. intros H. class_facts; subst; decide_class. Qed.

Lemma word_not_upper (c : N) :
  is_slug_word c || is_hyphen c = true -> is_upper c = false.
Proof. intros H. class_facts; subst; decide_class. Qed.

Lemma word_not_separator (c : N) :
  is_slug_word c || is_hyphen c = true -> negb (is_kebab_separator c) = true.
Proof. intros H. class_facts; subst; decide_class. Qed.

Lemma word_not_ws (c : N) :
  is_slug_word c || is_hyphen c = true -> negb (is_ws c) = true.
Proof. intros H. class_facts; subst; decide_class. Qed.

Lemma slug_kept_not_ws (c : N) :
  is_slug_kept c = true -> is_ws c = false ->
  is_slug_word c || is_hyphen c = true.
Proof.
  unfold is_slug_kept, is_slug_word. intros H Hws. rewrite Hws in H.
  rewrite orb_false_r in H. exact H.
Qed.

Lemma forallb_mapped (q : N -> bool) (f : N -> N) (s : Str) :
  (forall c, In c s -> q (f c) = true) -> forallb q (map f s) = true.
Proof.
  induction s as [|c rest IH]; cbn; [reflexivity|].
  intros H. rewrite (H c (or_introl eq_refl)). apply IH.
  intros c' Hin. apply H. right. exact Hin.
Qed.

Lemma map_fixed (f : N -> N) (s : Str) :
  (forall c, In c s -> f c = c) -> map f s = s.
Proof.
  induction s as [|c rest IH]; cbn; [reflexivity|].
  intros H. rewrite (H c (or_introl eq_refl)). f_equal. apply IH.
  intros c' Hin. apply H. right. exact Hin.
Qed.

Lemma split_camel_fixed (s : Str) :
  forallb (fun c => negb (is_upper c)) s = true -> split_camel s = s.
Proof.
  induction s as [|a tl IH]; [reflexivity|].
  intros H. cbn in H. apply andb_true_iff in H as [_ Htl].
  cbn [split_camel]. destruct tl as [|b rest]; [reflexivity|].
  cbn in Htl. apply andb_true_iff in Htl as [Hb Hrest].
  apply negb_true_iff in Hb. rewrite Hb, andb_false_r.
  f_equal. apply IH. cbn. rewrite Hb. exact Hrest.
Qed.

Lemma hyphen_runs_fixed (s : Str) :
  no_adjacent is_hyphen s = true -> replace_runs is_hyphen [hyphen] s = s.
Proof.
  intros Hadj. apply runs_fixed; [|exact Hadj|discriminate].
  clear Hadj. induction s as [|c rest IH]; cbn; [reflexivity|].
  rewrite IH, andb_true_r. unfold is_hyphen. destruct (c =? hyphen)%N; reflexivity.
Qed.

(** What [strip_edge_hyphens], after the hyphen runs are collapsed, makes
    of a filtered string. *)
Lemma collapsed_and_stripped (word : N -> bool) (s : Str) :
  forallb (fun c => word c || is_hyphen c) s = true ->
  joined word is_hyphen
         (strip_edge_hyphens (replace_runs is_hyphen [hyphen] s)) = true.
Proof.
  intros Hall. apply strip_edges_joined.
  - apply (runs_forallb is_hyphen hyphen (fun c => word c || is_hyphen c));
      [apply orb_true_r|].
    intros c Hin _. exact (forallb_In _ s c Hall Hin).
  - exact (proj1 (runs_shape is_hyphen hyphen s false)).
Qed.

Lemma alnum_is_ascii (c : N) : is_alnum c = true -> is_ascii c = true.
Proof. intros H. class_facts; apply N.ltb_lt; lia. Qed.

Lemma alnum_not_separator (c : N) : is_alnum c = true -> is_camel_separator c = false.
Proof. intros H. class_facts; decide_class. Qed.

Lemma alnum_is_camel_kept (c : N) : is_alnum c = true -> is_camel_kept c = true.
Proof. unfold is_camel_kept. intros ->. reflexivity. Qed.

Lemma camel_kept_word (c : N) :
  is_camel_kept c = true -> is_camel_separator c = false -> is_alnum c = true.
Proof.
  unfold is_camel_kept. intros H Hsep. rewrite Hsep, orb_false_r in H. exact H.
Qed.

Lemma upper_of_alnum (c : N) : is_alnum c = true -> is_alnum (upper_ascii c) = true.
Proof. intros H. class_facts; decide_class. Qed.

Lemma upper_not_lower (c : N) : is_lower (upper_ascii c) = false.
Proof. class_facts. decide_class. Qed.

Lemma lower_of_upper (c : N) :
  is_upper c = true ->
  is_alnum (lower_ascii c) = true /\ is_upper (lower_ascii c) = false.
Proof. intros H. class_facts. split; decide_class. Qed.

Lemma lower_upper_back (c : N) :
  is_alnum c = true -> is_upper c = false ->
  (is_upper (upper_ascii c) = true -> lower_ascii (upper_ascii c) = c) /\
  (is_upper (upper_ascii c) = false -> upper_ascii c = c).
Proof.
  intros H Hup. split; intros Hx; class_facts; decide_class.
Qed.

Section ConversionFacts.

Context {unicode : Unicode}.
Hypothesis laws : ascii_case_laws.

Lemma lower_on_ascii (s : Str) :
  forallb is_ascii s = true -> toLowerCase s = map lower_ascii s.
Proof. exact (proj1 laws s). Qed.

Lemma upper_on_ascii (s : Str) :
  forallb is_ascii s = true -> toUpperCase s = map upper_ascii s.
Proof. exact (proj2 laws s). Qed.

Lemma kebab_fixed (s : Str) : hyphenated s = true -> toKebabCase s = s.
Proof.
  intros H. apply joined_parts in H as (Hall & Hadj & Hstart & Hend).
  unfold toKebabCase.
  rewrite split_camel_fixed by (eapply forallb_imp; [|exact Hall];
    intros c Hc; rewrite (word_not_upper c Hc); reflexivity).
  unfold replace_runs at 2.
  rewrite (runs_none is_kebab_separator hyphen s) by
    (eapply forallb_imp; [|exact Hall]; apply word_not_separator).
  rewrite filter_fixed by (eapply forallb_imp; [|exact Hall]; apply word_is_kept).
  rewrite hyphen_runs_fixed by exact Hadj.
  rewrite strip_edges_fixed by assumption.
  rewrite lower_on_ascii.
  - apply map_fixed. intros c Hin. apply word_fixed_by_lower.
    exact (forallb_In _ s c Hall Hin).
  - eapply forallb_imp; [|exact Hall].
    intros c Hc. apply kept_is_ascii, word_is_kept, Hc.
Qed.

(** [toKebabCase] returns lower-case letters and digits joined by single
    hyphens: no other character, no hyphen first or last, no two hyphens
    in a row; and it leaves such a string as it is, so converting twice
    is converting once. *)
Theorem toKebabCase_is_hyphenated (s : Str) :
  hyphenated (toKebabCase s) = true /\
  toKebabCase (toKebabCase s) = toKebabCase s /\
  (hyphenated s = true -> toKebabCase s = s).
Proof.
  assert (Hshape : hyphenated (toKebabCase s) = true).
  { unfold toKebabCase.
    set (kept := List.filter is_kebab_kept
                   (replace_runs is_kebab_separator [hyphen] (split_camel s))).
    pose proof (collapsed_and_stripped is_alnum kept (filter_forallb is_kebab_kept _))
      as Hj.
    set (k := strip_edge_hyphens (replace_runs is_hyphen [hyphen] kept)) in *.
    apply joined_parts in Hj as (Hall & Hadj & Hstart & Hend).
    rewrite lower_on_ascii by (eapply forallb_imp; [|exact Hall]; apply kept_is_ascii).
    unfold hyphenated, joined.
    rewrite (map_no_adjacent lower_ascii lower_hyphen),
      (map_starts lower_ascii lower_hyphen), (map_ends lower_ascii lower_hyphen).
    rewrite Hadj, Hstart, Hend.
    rewrite forallb_mapped; [reflexivity|].
    intros c Hin. apply lower_of_kept. exact (forallb_In _ k c Hall Hin). }
  split; [exact Hshape|]. split; [apply kebab_fixed, Hshape|apply kebab_fixed].
Qed.

Lemma camel_join_alnum (s : Str) :
  forallb is_camel_kept s = true ->
  forall after, forallb is_alnum (camel_join after s) = true.
Proof.
  induction s as [|c rest IH]; intros H after; cbn; [reflexivity|].
  cbn in H. apply andb_true_iff in H as [Hc Hrest].
  destruct (is_camel_separator c) eqn:Hsep; [apply IH; exact Hrest|].
  pose proof (camel_kept_word c Hc Hsep) as Hword.
  rewrite forallb_app, (IH Hrest), andb_true_r.
  destruct after; [|cbn; rewrite Hword; reflexivity].
  rewrite upper_on_ascii by (cbn; rewrite (alnum_is_ascii c Hword); reflexivity).
  cbn. rewrite (upper_of_alnum c Hword). reflexivity.
Qed.

Lemma camel_join_fixed (s : Str) :
  forallb is_alnum s = true -> camel_join false s = s.
Proof.
  induction s as [|c rest IH]; cbn; [reflexivity|].
  intros H. apply andb_true_iff in H as [Hc Hrest].
  rewrite (alnum_not_separator c Hc). cbn. f_equal. auto.
Qed.

Lemma lower_first_shape (s : Str) :
  forallb is_alnum s = true ->
  forallb is_alnum (lower_first s) = true /\ starts_in is_upper (lower_first s) = false.
Proof.
  destruct s as [|c rest]; [split; reflexivity|].
  intros H. cbn [lower_first]. destruct (is_upper c) eqn:Hup.
  - cbn in H. apply andb_true_iff in H as [Hc Hrest].
    rewrite lower_on_ascii by (cbn; rewrite (alnum_is_ascii c Hc); reflexivity).
    destruct (lower_of_upper c Hup) as [Hal Hnu].
    cbn. rewrite Hal, Hrest, Hnu. split; reflexivity.
  - split; [exact H|exact Hup].
Qed.

Lemma camel_fixed (s : Str) :
  forallb is_alnum s = true -> starts_in is_upper s = false -> toCamelCase s = s.
Proof.
  intros Hall Hstart. unfold toCamelCase.
  rewrite filter_fixed by (eapply forallb_imp; [|exact Hall]; apply alnum_is_camel_kept).
  rewrite camel_join_fixed by exact Hall.
  destruct s as [|c rest]; [reflexivity|].
  cbn in Hstart. cbn. rewrite Hstart. reflexivity.
Qed.

Lemma camel_shape (s : Str) :
  forallb is_alnum (toCamelCase s) = true /\ starts_in is_upper (toCamelCase s) = false.
Proof.
  unfold toCamelCase. apply lower_first_shape, camel_join_alnum, filter_forallb.
Qed.

(** [toCamelCase] returns letters and digits only, never starting with
    a capital letter, and it leaves such a string as it is, so converting
    twice is converting once. *)
Theorem toCamelCase_is_identifier (s : Str) :
  forallb is_alnum (toCamelCase s) = true /\
  starts_in is_upper (toCamelCase s) = false /\
  toCamelCase (toCamelCase s) = toCamelCase s.
Proof.
  destruct (camel_shape s) as [Hall Hstart].
  split; [exact Hall|]. split; [exact Hstart|]. apply camel_fixed; assumption.
Qed.

(** [toPascalCase] differs from [toCamelCase] in the first character
    only, which is never a small letter; both hold letters and digits
    only, and converting the Pascal form to camel case gives the camel
    form back. *)
Theorem toPascalCase_caps_first (s : Str) :
  forallb is_alnum (toPascalCase s) = true /\
  starts_in is_lower (toPascalCase s) = false /\
  skipn 1 (toPascalCase s) = skipn 1 (toCamelCase s) /\
  List.length (toPascalCase s) = List.length (toCamelCase s) /\
  toCamelCase (toPascalCase s) = toCamelCase s.
Proof.
  destruct (camel_shape s) as [Hall Hstart]. unfold toPascalCase.
  destruct (toCamelCase s) as [|c rest].
  - cbn [firstn skipn]. rewrite upper_on_ascii by reflexivity. repeat split.
  - cbn [firstn skipn]. cbn in Hall, Hstart. apply andb_true_iff in Hall as [Hc Hrest].
    rewrite upper_on_ascii by (cbn; rewrite (alnum_is_ascii c Hc); reflexivity).
    cbn [map app]. split; [|split; [|split; [|split]]].
    + cbn. rewrite (upper_of_alnum c Hc). exact Hrest.
    + cbn. apply upper_not_lower.
    + reflexivity.
    + reflexivity.
    + unfold toCamelCase.
      rewrite filter_fixed by
        (cbn; rewrite (alnum_is_camel_kept _ (upper_of_alnum c Hc));
         eapply forallb_imp; [|exact Hrest]; apply alnum_is_camel_kept).
      rewrite camel_join_fixed by (cbn; rewrite (upper_of_alnum c Hc); exact Hrest).
      destruct (lower_upper_back c Hc Hstart) as [Hback Hsame].
      cbn [lower_first]. destruct (is_upper (upper_ascii c)) eqn:Hup.
      * rewrite lower_on_ascii by
          (cbn; rewrite (alnum_is_ascii _ (upper_of_alnum c Hc)); reflexivity).
        cbn. rewrite (Hback eq_refl). reflexivity.
      * rewrite (Hsame eq_refl). reflexivity.
Qed.

End ConversionFacts.

Section SlugFacts.

Context {unicode : Unicode}.

Lemma slug_base_hyphenated (s : Str) :
  hyphenated
    (strip_edge_hyphens
       (replace_runs is_hyphen [hyphen]
          (replace_runs is_ws [hyphen] (List.filter is_slug_kept s)))) = true.
Proof.
  apply collapsed_and_stripped.
  apply (runs_forallb is_ws hyphen (fun c => is_slug_word c || is_hyphen c));
    [reflexivity|].
  intros c Hin Hws. apply slug_kept_not_ws; [|exact Hws].
  exact (forallb_In _ _ c (filter_forallb is_slug_kept s) Hin).
Qed.

Lemma slice_to_firstn (s : Str) (stop : Z) : exists n, slice_to s stop = firstn n s.
Proof. unfold slice_to. eauto. Qed.

Lemma firstn_prefix (n : nat) (s : Str) : exists cut, s = firstn n s ++ cut.
Proof. exists (skipn n s). symmetry. apply List.firstn_skipn. Qed.

Lemma prefix_hyphenated (n : nat) (s : Str) :
  hyphenated s = true -> hyphenated (strip_trailing_hyphen (firstn n s)) = true.
Proof.
  intros H. apply joined_parts in H as (Hall & Hadj & Hstart & _).
  unfold hyphenated, joined.
  rewrite strip_trailing_forallb by (apply firstn_forallb; exact Hall).
  rewrite strip_trailing_no_adjacent by (apply firstn_no_adjacent; exact Hadj).
  rewrite strip_trailing_starts by (apply firstn_starts; exact Hstart).
  rewrite strip_trailing_ends by (apply firstn_no_adjacent; exact Hadj).
  reflexivity.
Qed.

(** Whatever the string and whatever [maxLength], [slugify] returns
    lower-case letters and digits joined by single hyphens: no other
    character, no hyphen first or last, no two hyphens in a row. *)
Theorem slugify_is_hyphenated (str : Str) (maxLength : option Z) :
  hyphenated (slugify str maxLength) = true.
Proof.
  unfold slugify.
  set (kept := List.filter is_slug_kept _).
  pose proof (slug_base_hyphenated
                (List.filter (fun c => negb (is_combining c))
                             (normalizeNFD (toLowerCase str)))) as Hbase.
  fold kept in Hbase.
  set (slug := strip_edge_hyphens _) in *.
  destruct maxLength as [m|]; [|exact Hbase].
  destruct (len slug >? m); [|exact Hbase].
  destruct (slice_to_firstn slug m) as [n ->].
  destruct (2 * lastIndexOf_hyphen (firstn n slug) >? m).
  - destruct (slice_to_firstn (firstn n slug) (lastIndexOf_hyphen (firstn n slug)))
      as [k ->].
    rewrite List.firstn_firstn. apply prefix_hyphenated. exact Hbase.
  - apply prefix_hyphenated. exact Hbase.
Qed.

(** With a [maxLength], [slugify] returns a prefix of the slug it
    returns without one; the prefix is the whole slug when the slug is no
    longer than [maxLength], and for a [maxLength] that is not negative
    the result is never longer than [maxLength]. *)
Theorem slugify_truncates_to_prefix (str : Str) (maxLength : Z) :
  (exists cut, slugify str None = slugify str (Some maxLength) ++ cut) /\
  (len (slugify str None) <= maxLength ->
   slugify str (Some maxLength) = slugify str None) /\
  (0 <= maxLength -> len (slugify str (Some maxLength)) <= maxLength).
Proof.
  unfold slugify.
  set (slug := strip_edge_hyphens _).
  destruct (len slug >? maxLength) eqn:Hlong.
  2:{ split; [exists []; symmetry; apply app_nil_r|].
      split; [reflexivity|]. intros _.
      rewrite Z.gtb_ltb in Hlong. apply Z.ltb_ge in Hlong. exact Hlong. }
  rewrite Z.gtb_ltb in Hlong. apply Z.ltb_lt in Hlong.
  set (slug1 := slice_to slug maxLength).
  set (slug2 := if 2 * lastIndexOf_hyphen slug1 >? maxLength
                then slice_to slug1 (lastIndexOf_hyphen slug1) else slug1).
  assert (H1 : exists n, slug1 = firstn n slug) by apply slice_to_firstn.
  assert (H2 : exists n, slug2 = firstn n slug).
  { destruct H1 as [n Hn]. subst slug2.
    destruct (2 * lastIndexOf_hyphen slug1 >? maxLength); [|eauto].
    destruct (slice_to_firstn slug1 (lastIndexOf_hyphen slug1)) as [k ->].
    rewrite Hn, List.firstn_firstn. eauto. }
  assert (Hlen1 : 0 <= maxLength -> len slug1 <= maxLength).
  { intros Hm. subst slug1. unfold slice_to.
    destruct (maxLength <? 0) eqn:Hneg; [apply Z.ltb_lt in Hneg; lia|].
    unfold len in *. rewrite List.length_firstn. lia. }
  assert (Hlen2 : len slug2 <= len slug1).
  { subst slug2. destruct (2 * lastIndexOf_hyphen slug1 >? maxLength); [|lia].
    destruct (slice_to_firstn slug1 (lastIndexOf_hyphen slug1)) as [k ->].
    unfold len. rewrite List.length_firstn. lia. }
  destruct (strip_trailing_prefix slug2) as [cut2 Hcut2].
  assert (Hlen3 : len (strip_trailing_hyphen slug2) <= len slug2).
  { rewrite Hcut2 at 2. unfold len. rewrite List.length_app. lia. }
  split; [|split].
  - destruct H2 as [n Hn]. destruct (firstn_prefix n slug) as [cut Hcut].
    exists (cut2 ++ cut). rewrite app_assoc, <- Hcut2, Hn. exact Hcut.
  - intros Hfit. lia.
  - intros Hm. specialize (Hlen1 Hm). lia.
Qed.

End SlugFacts.

(** *** The conversions at work *)

Lemma ascii_only_laws : @ascii_case_laws ascii_only.
Proof. split; intros s _; reflexivity. Qed.

Lemma decimal_value_exact :
  exact_on_safe_integers Z (fun z => z) 0 decimal_value.
Proof.
  intros negative digits _ _ _. unfold decimal_value.
  fold (digits_value digits).
  destruct negative; [|reflexivity].
  destruct (digits_value digits =? 0) eqn:E; [|reflexivity].
  apply Z.eqb_eq in E. rewrite E. reflexivity.
Qed.

(** The string [  -42px] parses to -42 whatever the default. *)
Lemma safeParseInt_reads_leading_integer_witness :
  safeParseInt Z decimal_value 0 (SStr (units "  -42px")) (Some 7) = -42.
Proof.
  exact (safeParseInt_reads_leading_integer Z decimal_value 0 (fun z => z) 0
           (units "  ") (units "42") (units "px") (Some true) (Some 7)
           decimal_value_exact
           eq_refl ltac:(discriminate) eq_refl eq_refl ltac:(vm_compute; discriminate)).
Defined.

(** A sign followed by a space is no number. *)
Lemma safeParseInt_falls_back_witness :
  safeParseInt Z decimal_value 0 (SStr (units " - 5")) (Some 7) = 7 /\
  safeParseInt Z decimal_value 0 (SStr (units "px42")) None = 0.
Proof.
  split.
  - exact (proj2 (proj2 (safeParseInt_falls_back Z decimal_value 0
             (units " ") (units " 5") (Some true) (Some 7)
             eq_refl eq_refl ltac:(discriminate)))).
  - exact (proj2 (proj2 (safeParseInt_falls_back Z decimal_value 0
             [] (units "px42") None None
             eq_refl eq_refl ltac:(reflexivity)))).
Defined.

Lemma toKebabCase_is_hyphenated_witness :
  @toKebabCase ascii_only (units "Hello World_fooBar--baz  ")
  = units "hello-world-foo-bar-baz" /\
  hyphenated (units "hello-world-foo-bar-baz") = true.
Proof.
  pose proof (@toKebabCase_is_hyphenated ascii_only ascii_only_laws
                (units "Hello World_fooBar--baz  ")) as (Hshape & _).
  split; [reflexivity|]. exact Hshape.
Defined.

Lemma toCamelCase_is_identifier_witness :
  @toCamelCase ascii_only (units "Hello-world foo_bar  ") = units "helloWorldFooBar" /\
  @toCamelCase ascii_only (units "helloWorldFooBar") = units "helloWorldFooBar".
Proof.
  pose proof (@toCamelCase_is_identifier ascii_only ascii_only_laws
                (units "Hello-world foo_bar  ")) as (_ & _ & Hidem).
  split; [reflexivity|]. exact Hidem.
Defined.

Lemma toPascalCase_caps_first_witness :
  @toPascalCase ascii_only (units "hello-world") = units "HelloWorld" /\
  @toCamelCase ascii_only (units "HelloWorld") = units "helloWorld".
Proof.
  pose proof (@toPascalCase_caps_first ascii_only ascii_only_laws
                (units "hello-world")) as (_ & _ & _ & _ & Hback).
  split; [reflexivity|]. exact Hback.
Defined.

End StringUtilsFacts.

(** ** The graph of features *)

Module GraphNodesFacts.

Import GraphNodes.

Section GraphFacts.

Context {Status Background RenderMode : Type} {resolver : Resolver Status}.

#[local] Abbreviation Props := (Props Status Background RenderMode).

Lemma edges_of_sound (props : Props) (featureMap : gmap string (Feature Status))
    (feature : Feature Status) (e : DependencyEdge Status RenderMode) :
  In e (edges_of props featureMap feature) ->
  target e = id feature /\
  edge_id e = (source e +:+ "->" +:+ target e)%string /\
  is_Some (featureMap !! source e) /\
  (exists deps, dependencies feature = Some deps /\ In (source e) deps) /\
  animated e = enableEdgeAnimations props
               && (running props (target e) || running props (source e)) /\
  edgeIsHighlighted e && edgeIsDimmed e = false /\
  xorb (edgeIsHighlighted e) (edgeIsDimmed e) = filter_active props.
Proof.
  unfold edges_of. destruct (dependencies feature) as [deps|]; [|intros []].
  intros Hin. apply list_elem_of_In, list_elem_of_omap in Hin as (depId & Hdep & He).
  destruct (featureMap !! depId) as [sourceFeature|] eqn:Hlook; [|discriminate He].
  injection He as <-. cbn.
  repeat split; eauto.
  - exists deps. split; [reflexivity|]. apply list_elem_of_In. exact Hdep.
  - destruct (filter_active props), (in_filter _ _ _); reflexivity.
  - destruct (filter_active props), (in_filter _ _ _); reflexivity.
Qed.

(** The graph has one node for each listed feature, in the order of the
    list, and no dangling edge: when the feature map knows exactly the
    listed features, every edge runs from a dependency that is itself a
    node to the node of the feature that declares it, and its id is
    [source->target]. *)
Theorem graph_has_no_dangling_edge (props : Props) :
  map_of_features ->
  let nodes := fst (useGraphNodes props) in
  let edges := snd (useGraphNodes props) in
  map node_id nodes = map id (features props) /\
  forall e, In e edges ->
    In (source e) (map node_id nodes) /\
    In (target e) (map node_id nodes) /\
    edge_id e = (source e +:+ "->" +:+ target e)%string /\
    exists feature deps,
      In feature (features props) /\ id feature = target e /\
      dependencies feature = Some deps /\ In (source e) deps.
Proof.
  intros Hmap nodes edges. subst nodes edges. unfold useGraphNodes. cbn [fst snd].
  assert (Hids : map node_id (map (node_of props (createFeatureMap (features props)))
                                  (features props))
                 = map id (features props)).
  { rewrite List.map_map. apply List.map_ext. reflexivity. }
  split; [exact Hids|].
  intros e Hin. rewrite Hids.
  apply List.in_flat_map in Hin as (feature & Hfeature & He).
  apply edges_of_sound in He as (Htarget & Hid & [src Hsrc] & (deps & Hdeps & Hdep) & _).
  destruct (Hmap _ _ _ Hsrc) as [Hsrc_in Hsrc_id].
  split; [|split; [|split]].
  - rewrite <- Hsrc_id. apply List.in_map. exact Hsrc_in.
  - rewrite Htarget. apply List.in_map. exact Hfeature.
  - exact Hid.
  - exists feature, deps. rewrite Htarget. auto.
Qed.

(** In what the callback builds, a node or an edge is never both
    highlighted and dimmed, and an edge is animated only when edge
    animations are enabled and one of its ends is running. *)
Lemma callback_marks (props : Props) :
  (forall n, In n (fst (useGraphNodes props)) ->
     isHighlighted n && isDimmed n = false /\
     xorb (isHighlighted n) (isDimmed n) = filter_active props /\
     (isMatched n = true -> filter_active props = true)) /\
  (forall e, In e (snd (useGraphNodes props)) ->
     edgeIsHighlighted e && edgeIsDimmed e = false /\
     xorb (edgeIsHighlighted e) (edgeIsDimmed e) = filter_active props /\
     (animated e = true ->
      enableEdgeAnimations props = true /\
      (running props (target e) = true \/ running props (source e) = true))).
Proof.
  unfold useGraphNodes. cbn [fst snd]. split.
  - intros n Hin. apply List.in_map_iff in Hin as (feature & <- & _). cbn.
    destruct (filter_active props), (in_filter _ _ _), (in_filter _ _ _);
      repeat split; try reflexivity; intros; discriminate.
  - intros e Hin. apply List.in_flat_map in Hin as (feature & _ & He).
    apply edges_of_sound in He as (_ & _ & _ & _ & Hanim & Hexcl & Hxor).
    split; [exact Hexcl|]. split; [exact Hxor|].
    intros Ha. rewrite Ha in Hanim. symmetry in Hanim.
    apply andb_true_iff in Hanim as [Hen Hrun]. split; [exact Hen|].
    apply orb_true_iff in Hrun. exact Hrun.
Qed.

(** The hook returns what the callback built at the call where it last
    ran. *)
Lemma rendered_at (first : Render Status Background RenderMode)
    (later : list (Render Status Background RenderMode)) :
  rendered first later = useGraphNodes (computed_at (args first) later).
Proof.
  unfold rendered. cbn [memo_render]. generalize (args first) as ran_at.
  induction later as [|r rest IH]; intros ran_at; cbn; [reflexivity|].
  destruct (recomputed r); apply IH.
Qed.

(** Under React's rule the dependencies at that call are those of the
    last call. *)
Lemma deps_at (later : list (Render Status Background RenderMode)) :
  forall ran_at previous : Props,
    memo_deps ran_at = memo_deps previous ->
    memo_respected previous later ->
    memo_deps (computed_at ran_at later) = memo_deps (current_args previous later).
Proof.
  induction later as [|r rest IH]; intros ran_at previous Hdeps Hrule; cbn;
    [exact Hdeps|].
  destruct Hrule as [Hsame Hrest]. apply IH; [|exact Hrest].
  destruct (recomputed r); [reflexivity|].
  rewrite Hdeps. symmetry. apply Hsame. reflexivity.
Qed.

Lemma deps_filter (p q : Props) :
  memo_deps p = memo_deps q ->
  filter_active p = filter_active q /\ forall x, running p x = running q x.
Proof.
  unfold memo_deps, filter_active, running. intros Hdeps.
  injection Hdeps as _ Hrun Hfilter _ _. rewrite Hrun, Hfilter. auto.
Qed.

(** Over any sequence of calls of the hook in which React hands back
    the remembered value only when the listed dependencies are
    unchanged, what the last call returns marks no node and no edge both
    highlighted and dimmed: with the filter of the last call active each
    is exactly one of the two, without it neither, and no node is
    matched.  An edge is animated only if one of its ends is running at
    the last call and edge animations were enabled at the call where the
    callback last ran, which need not be the last one:
    [enableEdgeAnimations] is not among the dependencies. *)
Theorem filter_marks_are_exclusive (first : Render Status Background RenderMode)
    (later : list (Render Status Background RenderMode)) :
  memo_respected (args first) later ->
  let current := current_args (args first) later in
  (forall n, In n (fst (rendered first later)) ->
     isHighlighted n && isDimmed n = false /\
     xorb (isHighlighted n) (isDimmed n) = filter_active current /\
     (isMatched n = true -> filter_active current = true)) /\
  (forall e, In e (snd (rendered first later)) ->
     edgeIsHighlighted e && edgeIsDimmed e = false /\
     xorb (edgeIsHighlighted e) (edgeIsDimmed e) = filter_active current /\
     (animated e = true ->
      enableEdgeAnimations (computed_at (args first) later) = true /\
      (running current (target e) = true \/ running current (source e) = true))).
Proof.
  intros Hrule current. subst current. rewrite rendered_at.
  destruct (deps_filter _ _ (deps_at later (args first) (args first) eq_refl Hrule))
    as [Hfilter Hrunning].
  rewrite <- Hfilter.
  destruct (callback_marks (computed_at (args first) later)) as [Hnodes Hedges].
  split; [exact Hnodes|].
  intros e Hin. destruct (Hedges e Hin) as (Hexcl & Hxor & Hanim).
  split; [exact Hexcl|]. split; [exact Hxor|].
  intros Ha. rewrite <- !Hrunning. exact (Hanim Ha).
Qed.

End GraphFacts.

Lemma by_id_maps_features (Status : Type) : @map_of_features Status by_id.
Proof.
  intros fs k f Hlook. cbn in Hlook.
  apply elem_of_list_to_map_2, list_elem_of_In, List.in_map_iff in Hlook
    as (f' & Heq & Hin).
  injection Heq as <- <-. split; [exact Hin|reflexivity].
Qed.

(** In the three-task view the dependency on a task that is not shown
    gives no edge. *)
Lemma graph_has_no_dangling_edge_witness :
  map edge_id (snd (@useGraphNodes bool unit unit by_id three_tasks)) = ["a->b"; "a->c"] /\
  map node_id (fst (@useGraphNodes bool unit unit by_id three_tasks)) = ["a"; "b"; "c"].
Proof.
  split; [vm_compute; reflexivity|].
  exact (proj1 (@graph_has_no_dangling_edge bool unit unit by_id three_tasks
                  (by_id_maps_features bool))).
Defined.

(** Switching the animations off alone does not reach the edges: the
    second call hands back the edges of the first, one of them animated. *)
Lemma filter_marks_are_exclusive_witness :
  map animated (snd (@rendered bool unit unit by_id drawn [animations_off])) = [true; false] /\
  enableEdgeAnimations (args animations_off) = false /\
  enableEdgeAnimations (computed_at (args drawn) [animations_off]) = true /\
  forall e, In e (snd (@rendered bool unit unit by_id drawn [animations_off])) ->
    edgeIsHighlighted e && edgeIsDimmed e = false.
Proof.
  split; [vm_compute; reflexivity|]. split; [reflexivity|]. split; [reflexivity|].
  intros e Hin.
  exact (proj1 (proj2 (@filter_marks_are_exclusive bool unit unit by_id
                         drawn [animations_off]
                         (conj (fun _ => eq_refl) I)) e Hin)).
Defined.

End GraphNodesFacts.

(** ** The update check *)

Module UpdatesFacts.

Import Routes Worktree Updates.

Lemma has_char_app (p : ascii -> bool) (a b : string) :
  has_char p (a +:+ b) = has_char p a || has_char p b.
Proof.
  induction a as [|c rest IH]; simpl; [reflexivity|].
  rewrite IH. apply orb_assoc.
Qed.

Lemma prefix_app (p : string) :
  forall u v, String.prefix p u = true -> String.prefix p (u +:+ v) = true.
Proof.
  induction p as [|a p' IH]; intros u v H; [destruct (u +:+ v); reflexivity|].
  destruct u as [|b u']; simpl in *; [discriminate|].
  destruct (ascii_dec a b); [apply IH; exact H|discriminate].
Qed.

Lemma protocol_app (u v : string) :
  starts_with_protocol u = true -> starts_with_protocol (u +:+ v) = true.
Proof.
  unfold starts_with_protocol. intros H.
  repeat (apply orb_true_iff in H as [H|H]);
    rewrite (prefix_app _ u v H); rewrite ?orb_true_r; reflexivity.
Qed.

(** A URL that [isValidGitUrl] accepts starts with one of the four
    protocols, is not empty and holds none of the blocked characters
    (semicolon, backquote, bar, ampersand, angle brackets, parentheses,
    dollar, exclamation mark, backslash, square brackets, space); and it
    stays accepted when anything free of those characters is appended. *)
Theorem isValidGitUrl_accepts (url : string) :
  isValidGitUrl url = true ->
  starts_with_protocol url = true /\
  has_char is_shell_char url = false /\
  url <> "" /\
  forall suffix, has_char is_shell_char suffix = false ->
                 isValidGitUrl (url +:+ suffix) = true.
Proof.
  unfold isValidGitUrl. intros H. apply andb_true_iff in H as [Hproto Hclean].
  apply negb_true_iff in Hclean.
  split; [exact Hproto|]. split; [exact Hclean|]. split.
  - intros ->. discriminate Hproto.
  - intros suffix Hsuffix.
    rewrite (protocol_app url suffix Hproto), has_char_app, Hclean, Hsuffix.
    reflexivity.
Qed.

Lemma isValidGitUrl_accepts_witness :
  isValidGitUrl fork = true /\ isValidGitUrl (fork +:+ "#main") = true.
Proof.
  split; [reflexivity|].
  exact (proj2 (proj2 (proj2 (isValidGitUrl_accepts fork eq_refl))) "#main" eq_refl).
Defined.

Ltac run_check :=
  unfold commands_run, response_of, createCheckHandler, isGitAvailable, isGitRepo,
    getCurrentCommit, getShortCommit, upstream_of, validate_url, try_finally,
    try_catch, bind, ret, throw, res_status, res_json, logError, initial_world,
    sent, fresh_response, fresh_host, on_host, run_command, ignoring_errors;
  cbn [service calls logs res statusCode body negb fst snd app env executed].

Ltac reduce_check :=
  cbn [service calls logs res statusCode body negb fst snd app env executed
       orb andb].

Ltac next_command :=
  match goal with
  | |- context [execAsync ?c ?d ?e] =>
      is_var e;
      let out := fresh "out" in
      let err := fresh "err" in
      let e' := fresh "e" in
      destruct (execAsync c d e) as [[out|err] e']
  end;
  reduce_check.

Section CheckFacts.

Context {E : Type} {shell : Shell E} {installation : Installation E} {cmn : Common}.

(** When the configured upstream is a string that [isValidGitUrl]
    rejects, the check answers 400 and has run nothing beyond the two
    probes for git and for the repository: no version is read and no
    remote is touched. *)
Theorem check_refuses_invalid_upstream (e e1 e2 e3 : E)
    (version inside : string) (settings : JSVal) (url : string) :
  execAsync "git --version" VUndefined e = (Ok version, e1) ->
  execAsync "git rev-parse --is-inside-work-tree" (VStr getAutomakerRoot) e1
  = (Ok inside, e2) ->
  getGlobalSettings e2 = (Ok settings, e3) ->
  object_coercible settings = true ->
  (if object_coercible (get_prop settings "autoUpdate")
   then get_prop (get_prop settings "autoUpdate") "upstreamUrl"
   else VUndefined) = VStr url ->
  url <> "" ->
  isValidGitUrl url = false ->
  createCheckHandler (initial_world (fresh_host e))
  = (Ok tt,
     {| service := {| env := e3;
                      executed := [("git --version", VUndefined);
                                   ("git rev-parse --is-inside-work-tree",
                                    VStr getAutomakerRoot)] |};
        calls := []; logs := [];
        res := sent 400 [("success", VBool false);
                         ("error", VStr "Invalid upstream URL format")] |}).
Proof.
  intros Hversion Hinside Hsettings Hobj Hurl Hne Hinvalid.
  run_check. rewrite Hversion. reduce_check. rewrite Hinside. reduce_check.
  rewrite Hsettings. reduce_check. rewrite Hobj. reduce_check. rewrite Hurl.
  assert (Ht : truthy (VStr url) = true).
  { cbn. destruct (String.eqb url "") eqn:E0; [|reflexivity].
    apply String.eqb_eq in E0. contradiction. }
  rewrite Ht. reduce_check. rewrite Hinvalid. reflexivity.
Qed.

(** Walks one run of the check: splits on the outcome of each probe, of
    the settings lookup and of the URL validation, up to the point where
    the temporary remote is added. *)
Ltac to_the_remote :=
  run_check;
  next_command; [|];
  try next_command;
  try (match goal with
       | |- context [getGlobalSettings ?e] =>
           let settings := fresh "settings" in
           let err := fresh "err" in
           let e' := fresh "e" in
           destruct (getGlobalSettings e) as [[settings|err] e']; reduce_check;
           [destruct (object_coercible settings); reduce_check|]
       end);
  try (match goal with
       | |- context [truthy ?x] =>
           let upstream := fresh "upstream" in
           set (upstream := x); clearbody upstream;
           destruct (truthy upstream); [destruct upstream|]; reduce_check
       end);
  try (match goal with
       | |- context [isValidGitUrl ?u] =>
           let Hvalid := fresh "Hvalid" in
           destruct (isValidGitUrl u) eqn:Hvalid; reduce_check
       end);
  try next_command; try next_command;
  try (match goal with
       | |- context [randomHex ?e] =>
           let hex := fresh "hex" in
           let e' := fresh "e" in
           destruct (randomHex e) as [hex e']; reduce_check
       end).

(** Then through the fetch, the comparison and the cleanup. *)
Ltac through_the_fetch :=
  repeat first
    [ next_command
    | match goal with
      | |- context [String.eqb (trim ?a) (trim ?b)] =>
          let Hsame := fresh "Hsame" in
          destruct (String.eqb (trim a) (trim b)) eqn:Hsame; reduce_check
      end ].

Ltac not_an_add H := solve [vm_compute in H; discriminate H].

(** Whatever git, the settings and the network do, the update check
    returns normally, and every [git remote add] it runs carries a URL
    that [isValidGitUrl] accepted and is undone: the last command of the
    run is [git remote remove] for the same remote. *)
Theorem check_removes_the_remote_it_adds (e : E) :
  let r := createCheckHandler (initial_world (fresh_host e)) in
  fst r = Ok tt /\
  forall command cwd,
    In (command, cwd) (commands_run r) -> is_remote_add command = true ->
    exists name url,
      command = add_remote name url /\ isValidGitUrl url = true /\
      List.last (commands_run r) ("", VUndefined)
      = (remove_remote name, VStr getAutomakerRoot).
Proof.
  intros r. subst r. to_the_remote; through_the_fetch;
    (split; [reflexivity|]);
    intros command cwd Hin Hadd; unfold is_remote_add in Hadd;
    cbn [In] in Hin;
    repeat (destruct Hin as [Hin|Hin];
            [injection Hin as <- <-;
             first [ not_an_add Hadd
                   | eexists _, _; split; [reflexivity|];
                     split; [eassumption|reflexivity] ]|]);
    destruct Hin.
Qed.

(** Every 200 answer of the update check is a success with a result.
    Either the upstream could not be fetched: then the remote version is
    null, no update is announced and the result carries the error text.
    Or it was fetched: then an update is announced only if the two
    versions differ and [git merge-base --is-ancestor local remote] was
    run on them. *)
Theorem check_announces_update_only_when_behind (e : E) :
  let r := createCheckHandler (initial_world (fresh_host e)) in
  forall b, response_of r = sent 200 b ->
    obj_get b "success" = VBool true /\
    exists result,
      obj_get b "result" = VObj result /\
      ((obj_get result "remoteVersion" = VNull /\
        obj_get result "updateAvailable" = VBool false /\
        exists thrown,
          obj_get result "error"
          = VStr ("Could not fetch from upstream: " +:+ getErrorMessage thrown))
       \/
       (exists localVersion remoteVersion available,
          obj_get result "localVersion" = VStr localVersion /\
          obj_get result "remoteVersion" = VStr remoteVersion /\
          obj_get result "updateAvailable" = VBool available /\
          obj_has result "error" = false /\
          (available = true ->
           localVersion <> remoteVersion /\
           In (merge_base localVersion remoteVersion, VStr getAutomakerRoot)
              (commands_run r)))).
Proof.
  intros r. subst r. to_the_remote; through_the_fetch;
    intros body200 Hres200; cbn in Hres200; try discriminate Hres200;
    injection Hres200 as <-;
    (split; [reflexivity|]); eexists; (split; [reflexivity|]);
    first
      [ left; split; [reflexivity|]; split; [reflexivity|];
        eexists; reflexivity
      | right; eexists _, _, _; split; [reflexivity|]; split; [reflexivity|];
        split; [reflexivity|]; split; [reflexivity|];
        intros Havailable;
        first
          [ discriminate Havailable
          | split;
            [ match goal with
              | H : String.eqb _ _ = false |- _ =>
                  apply String.eqb_neq in H; exact H
              end
            | cbn [In]; unfold merge_base;
              repeat (first [left; reflexivity | right]) ] ] ].
Qed.

End CheckFacts.

(** Offline, the fork cannot be fetched: the check still answers, and
    has removed the remote it added. *)
Lemma check_removes_the_remote_it_adds_witness :
  map fst (commands_run (offline_check)) = offline_commands /\
  exists name url,
    isValidGitUrl url = true /\
    List.last (commands_run (offline_check)) ("", VUndefined)
    = (remove_remote name, VStr "/opt/automaker").
Proof.
  split; [vm_compute; reflexivity|].
  destruct (proj2 (@check_removes_the_remote_it_adds unit (installed false)
                     (with_upstream (VStr fork)) message_of tt)
              (add_remote "automaker-update-check-00ff00ff00ff00ff" fork)
              (VStr "/opt/automaker"))
    as (name & url & _ & Hvalid & Hlast).
  - vm_compute. tauto.
  - vm_compute. reflexivity.
  - exists name, url. split; [exact Hvalid|exact Hlast].
Defined.

(** Online, the fork is ahead of the installation. *)
Lemma check_announces_update_only_when_behind_witness :
  response_of (online_check) = sent 200 update_found /\
  obj_get update_found "success" = VBool true.
Proof.
  assert (H : response_of (online_check) = sent 200 update_found)
    by (vm_compute; reflexivity).
  split; [exact H|].
  exact (proj1 (@check_announces_update_only_when_behind unit (installed true)
                  (with_upstream (VStr fork)) message_of tt update_found H)).
Defined.

(** A configured upstream with a space and a semicolon in it. *)
Lemma check_refuses_invalid_upstream_witness :
  response_of (@createCheckHandler unit (installed true)
                 (with_upstream (VStr "https://example.com/x.git; reboot")) message_of
                 (initial_world (fresh_host tt)))
  = sent 400 [("success", VBool false); ("error", VStr "Invalid upstream URL format")].
Proof.
  unfold response_of.
  erewrite (@check_refuses_invalid_upstream unit (installed true)
              (with_upstream (VStr "https://example.com/x.git; reboot")) message_of
              tt tt tt tt _ _ _ "https://example.com/x.git; reboot").
  - reflexivity.
  - vm_compute; reflexivity.
  - vm_compute; reflexivity.
  - vm_compute; reflexivity.
  - vm_compute; reflexivity.
  - vm_compute; reflexivity.
  - discriminate.
  - vm_compute; reflexivity.
Defined.

End UpdatesFacts.
